(** * Sortify: rule-based file routing

    A shallow embedding of [engine.py] (classification, path planning and the
    collision-safe move), [manual/manual.py] (the batch modes: default
    routing, custom-target routing, revert, sync) and [auto/auto.py] (the
    watcher's per-event routine), followed by the properties the
    specification states about them.

    Conventions of the model.
    - Strings are byte strings; [str.lower] and [str.upper] act on the ASCII
      letters.
    - [pathlib] is modelled as [PurePosixPath] of CPython 3.10 to 3.13: a path
      is an anchor flag and a list of components, parsed from a string by
      splitting on the slash and dropping empty and single-dot components.
    - The file system is a finite map from absolute component lists to
      nodes, without symbolic links and on a single device; a [..] component
      is not interpreted (the paths of the model are free of it).
    - [size_gb] is the exact rational [st_size / 1024^3] (the float division
      is exact below 2^53 bytes); the bounds of a rule are rationals.
    - Of a timestamp the model keeps the calendar year that
      [datetime.fromtimestamp] assigns to it.
    - Exceptions are values; a computation that exhausts its fuel yields
      [Diverge], which no [try] catches. *)

From Stdlib Require Import Ascii QArith.
From stdpp Require Import gmap strings list fin_maps pretty sorting.
Close Scope Q_scope.

(** ** Strings *)

Module Str.

Definition lower_char (c : ascii) : ascii :=
  let n := Ascii.N_of_ascii c in
  if ((65 <=? n) && (n <=? 90))%N then Ascii.ascii_of_N (n + 32) else c.

Definition upper_char (c : ascii) : ascii :=
  let n := Ascii.N_of_ascii c in
  if ((97 <=? n) && (n <=? 122))%N then Ascii.ascii_of_N (n - 32) else c.

Fixpoint map_chars (f : ascii → ascii) (s : string) : string :=
  match s with
  | EmptyString => EmptyString
  | String c s' => String (f c) (map_chars f s')
  end.

(** [s.lower()] and [s.upper()]. *)
Definition lower : string → string := map_chars lower_char.
Definition upper : string → string := map_chars upper_char.

(** [c in s] for a single character. *)
Fixpoint mem (c : ascii) (s : string) : bool :=
  match s with
  | EmptyString => false
  | String a s' => if decide (a = c) then true else mem c s'
  end.

(** [s.split(sep)] for a single-character separator. *)
Fixpoint split (sep : ascii) (s : string) : list string :=
  match s with
  | EmptyString => [EmptyString]
  | String c s' =>
      if decide (c = sep) then EmptyString :: split sep s'
      else match split sep s' with
           | [] => [String c EmptyString]
           | x :: xs => String c x :: xs
           end
  end.

(** [s.rfind(c)], with [None] for Python's [-1]. *)
Fixpoint rfind (c : ascii) (s : string) : option nat :=
  match s with
  | EmptyString => None
  | String a s' =>
      match rfind c s' with
      | Some i => Some (S i)
      | None => if decide (a = c) then Some 0 else None
      end
  end.

(** The slices [s[:n]] and [s[n:]]. *)
Fixpoint take (n : nat) (s : string) : string :=
  match n, s with
  | S n', String c s' => String c (take n' s')
  | _, _ => EmptyString
  end.

Fixpoint drop (n : nat) (s : string) : string :=
  match n, s with
  | S n', String _ s' => drop n' s'
  | _, _ => s
  end.

(** [s.lstrip(c)]. *)
Fixpoint lstrip (c : ascii) (s : string) : string :=
  match s with
  | String a s' => if decide (a = c) then lstrip c s' else s
  | EmptyString => EmptyString
  end.

(** [s.startswith(pre)]. *)
Definition startswith (pre s : string) : bool := String.prefix pre s.

(** The ASCII characters [str.strip] removes. *)
Definition is_space (c : ascii) : bool :=
  let n := Ascii.N_of_ascii c in
  ((9 <=? n) && (n <=? 13) || (28 <=? n) && (n <=? 32))%N.

Fixpoint lstrip_space (s : string) : string :=
  match s with
  | String a s' => if is_space a then lstrip_space s' else s
  | EmptyString => EmptyString
  end.

Fixpoint rstrip_space (s : string) : string :=
  match s with
  | EmptyString => EmptyString
  | String a s' =>
      match rstrip_space s' with
      | EmptyString => if is_space a then EmptyString else String a EmptyString
      | r => String a r
      end
  end.

(** [s.strip()]. *)
Definition strip (s : string) : string := rstrip_space (lstrip_space s).

End Str.

(** ** Pure paths ([pathlib.PurePosixPath]) *)

Record Path := mkPath { is_absolute : bool; parts : list string }.

Global Instance Path_eq_dec : EqDecision Path.
Proof. solve_decision. Defined.

Module PurePath.

(** A component survives parsing when it is neither empty nor a single dot. *)
Definition kept (x : string) : Prop := x ≠ "" ∧ x ≠ ".".

Global Instance kept_dec x : Decision (kept x).
Proof. unfold kept. apply _. Defined.

(** [Path(s)]. *)
Definition of_string (s : string) : Path :=
  mkPath (Str.startswith "/" s) (filter kept (Str.split "/" s)).

(** [p / q] for two paths: an absolute right operand replaces the left one. *)
Definition joinpath (p q : Path) : Path :=
  if is_absolute q then q else mkPath (is_absolute p) (parts p ++ parts q).

(** [p / s] for a string [s]. *)
Definition truediv (p : Path) (s : string) : Path := joinpath p (of_string s).

(** [p.name]: the final component, empty for the root and for [Path(".")]. *)
Definition name (p : Path) : string := default "" (last (parts p)).

(** [p.parent]. *)
Definition parent (p : Path) : Path :=
  mkPath (is_absolute p) (removelast (parts p)).

(** [p.parents]: the proper ancestors, nearest first. *)
Fixpoint ancestors (n : nat) (p : Path) : list Path :=
  match n with
  | 0 => []
  | S n' => parent p :: ancestors n' (parent p)
  end.

Definition parents (p : Path) : list Path := ancestors (length (parts p)) p.

(** The index of the dot that starts the suffix of a name: the last dot,
    unless it is the first or the last character. *)
Definition suffix_index (nm : string) : option nat :=
  match Str.rfind "." nm with
  | Some i =>
      if bool_decide (0 < i ∧ i < String.length nm - 1) then Some i else None
  | None => None
  end.

(** [p.suffix] and [p.stem]. *)
Definition suffix (p : Path) : string :=
  match suffix_index (name p) with
  | Some i => Str.drop i (name p)
  | None => ""
  end.

Definition stem (p : Path) : string :=
  match suffix_index (name p) with
  | Some i => Str.take i (name p)
  | None => name p
  end.

(** The order [sorted] puts paths in: component by component, with the
    root as the first component of an absolute path. *)
Fixpoint parts_leb (a b : list string) : bool :=
  match a, b with
  | [], _ => true
  | _ :: _, [] => false
  | x :: a', y :: b' =>
      match String.compare x y with
      | Lt => true
      | Gt => false
      | Eq => parts_leb a' b'
      end
  end.

Definition cparts (p : Path) : list string :=
  (if is_absolute p then ["/"] else []) ++ parts p.

Definition le (p q : Path) : Prop := parts_leb (cparts p) (cparts q).

Global Instance le_dec : RelDecision le.
Proof. intros p q. unfold le. apply _. Defined.

End PurePath.

Infix "/:" := PurePath.truediv (at level 40, left associativity).

(** ** Configuration and metadata *)

(** A category's rule object: every key is optional in the JSON. *)
Record rule := mkRule {
  rule_path : option string;
  rule_extensions : option (list string);
  rule_min_gb : option Q;
  rule_max_gb : option Q;
  rule_year : bool;
  rule_file_type : bool
}.

(** A dict with string keys, in insertion order. *)
Definition dict (V : Type) : Type := list (string * V).

(** [d.get(k)]. *)
Fixpoint dict_get {V} (d : dict V) (k : string) : option V :=
  match d with
  | [] => None
  | (k', v) :: d' => if decide (k' = k) then Some v else dict_get d' k
  end.

Record config := mkConfig {
  monitored_sources : list string;
  routing : dict rule
}.

(** The dict [get_file_metadata] returns. *)
Record Metadata := mkMetadata {
  extension : string;
  size_gb : Q;
  year : nat
}.

Definition Qltb (a b : Q) : bool := negb (Qle_bool b a).

(** ** Classification ([engine.py]) *)

Definition _rule_matches (metadata : Metadata) (rules : rule) : bool :=
  let extensions := default [] (rule_extensions rules) in
  if bool_decide (extensions ≠ [])
     && negb (bool_decide (extension metadata ∈ extensions))
  then false
  else
    let year := rule_year rules in
    if match rule_min_gb rules with
       | Some min_gb => Qltb (size_gb metadata) min_gb
       | None => false
       end
    then false
    else
      if match rule_max_gb rules with
         | Some max_gb => Qltb max_gb (size_gb metadata)
         | None => false
         end
      then false
      else true.

Fixpoint match_category (metadata : Metadata) (routing : dict rule) : string :=
  match routing with
  | [] => "Others"
  | (category, rules) :: rest =>
      if bool_decide (category ∈ ["Others"; "Folders"])
      then match_category metadata rest
      else if negb (_rule_matches metadata rules)
           then match_category metadata rest
           else category
  end.


(** ** The file system *)

(** What [os.stat] reports and the program reads. [st_birthtime] is [None] on
    a platform whose stat result has no such attribute. The two times are kept
    as calendar years. *)
Record stat_result := mkStat {
  st_ino : N;
  st_size : N;
  st_birthtime : option nat;
  st_ctime : nat
}.

Inductive node :=
  | File (st : stat_result)
  | Dir.

Global Instance stat_result_eq_dec : EqDecision stat_result.
Proof. solve_decision. Defined.

Global Instance node_eq_dec : EqDecision node.
Proof. solve_decision. Defined.

Inductive exn :=
  | ValueError (msg : string)
  | KeyError (key : string)
  | EOFError
  | FileNotFoundError
  | FileExistsError
  | NotADirectoryError
  | IsADirectoryError
  | DirectoryNotEmpty
  | InvalidArgument
  | ShutilError.

(** [isinstance(e, OSError)]; [shutil.Error] derives from [OSError]. *)
Definition is_OSError (e : exn) : bool :=
  match e with
  | ValueError _ | KeyError _ | EOFError => false
  | _ => true
  end.

(** What the program writes to the console, one constructor per report line
    (banners and prompts are left out), and the calls of [shutil.move]. *)
Inductive event :=
  | Call_move (src dst : Path)
  | Print_sorted (name category : string) (dest : Path)
  | Print_folder (name category : string) (dest : Path)
  | Print_reverted_intact (name : string) (dest : Path)
  | Print_reverted (name : string) (dest : Path)
  | Print_rerouted (name category : string) (dest : Path)
  | Print_failed (name : string) (e : exn)
  | Print_removed (dp : Path)
  | Print_created (root : Path)
  | Print_nothing_to_sync
  | Print_found (n : nat)
  | Print_done (moved : nat)
  | Notify (msg : string).

Record world := mkWorld {
  tree : gmap (list string) node;
  cwd : list string;
  stdin : list string;
  log : list event
}.

Module Fs.

(** [strip_prefix d k] is [Some r] when [k = d ++ r]. *)
Fixpoint strip_prefix (d k : list string) : option (list string) :=
  match d, k with
  | [], _ => Some k
  | x :: d', y :: k' => if decide (x = y) then strip_prefix d' k' else None
  | _ :: _, [] => None
  end.

(** The key of a path: made absolute against the working directory. *)
Definition key (w : world) (p : Path) : list string :=
  (if is_absolute p then [] else cwd w) ++ parts p.

(** [p.resolve()]. *)
Definition resolve (w : world) (p : Path) : Path := mkPath true (key w p).

Definition lookup_key (t : gmap (list string) node) (k : list string)
  : option node :=
  if decide (k = []) then Some Dir else t !! k.

Definition node_at (w : world) (p : Path) : option node :=
  lookup_key (tree w) (key w p).

Definition exists_ (w : world) (p : Path) : bool :=
  bool_decide (is_Some (node_at w p)).

Definition is_file (w : world) (p : Path) : bool :=
  match node_at w p with Some (File _) => true | _ => false end.

Definition is_dir (w : world) (p : Path) : bool :=
  match node_at w p with Some Dir => true | _ => false end.

(** The entries directly inside the directory with key [d]. *)
Definition children (t : gmap (list string) node) (d : list string)
  : list (string * node) :=
  omap (λ kn, match strip_prefix d kn.1 with
              | Some [x] => Some (x, kn.2)
              | _ => None
              end) (map_to_list t).

(** [os.listdir]/[os.scandir]; [None] when the path is not a directory. *)
Definition scandir (w : world) (p : Path) : option (list (string * node)) :=
  if is_dir w p then Some (children (tree w) (key w p)) else None.

Definition is_dir_node (n : node) : bool :=
  match n with Dir => true | File _ => false end.

(** [mkdir(parents=True, exist_ok=True)] on the tree: [pre] exists already,
    [rest] is still to be descended. [None] when a file is in the way. *)
Fixpoint mkdir_go (t : gmap (list string) node) (pre rest : list string)
  : option (gmap (list string) node) :=
  match rest with
  | [] => Some t
  | x :: rest' =>
      let k := pre ++ [x] in
      match t !! k with
      | Some (File _) => None
      | Some Dir => mkdir_go t k rest'
      | None => mkdir_go (<[k := Dir]> t) k rest'
      end
  end.

(** The entries below [ks], keyed relative to it. *)
Definition subtree (ks : list string) (t : gmap (list string) node)
  : gmap (list string) node :=
  map_fold (λ k n acc, match strip_prefix ks k with
                       | Some r => <[r := n]> acc
                       | None => acc
                       end) ∅ t.

(** [rename(2)] on the tree: the entry at [ks], with everything below it,
    takes the place of whatever is at [kd]. *)
Definition rename_tree (ks kd : list string) (t : gmap (list string) node)
  : gmap (list string) node :=
  kmap (kd ++.) (subtree ks t)
  ∪ filter (λ kn, ¬ ks `prefix_of` kn.1 ∧ ¬ kd `prefix_of` kn.1) t.

End Fs.

(** ** Computations: state, exceptions, divergence *)

Inductive outcome (A : Type) :=
  | Return (a : A)
  | Raise (e : exn)
  | Diverge.
Arguments Return {A} a.
Arguments Raise {A} e.
Arguments Diverge {A}.

Definition prog (A : Type) : Type := world → outcome A * world.

Global Instance prog_ret : MRet prog := λ A a w, (Return a, w).

Global Instance prog_bind : MBind prog := λ A B f m w,
  match m w with
  | (Return a, w') => f a w'
  | (Raise e, w') => (Raise e, w')
  | (Diverge, w') => (Diverge, w')
  end.

Definition raise {A} (e : exn) : prog A := λ w, (Raise e, w).
Definition diverge {A} : prog A := λ w, (Diverge, w).
Definition reads {A} (f : world → A) : prog A := λ w, (Return (f w), w).
Definition set_tree (t : gmap (list string) node) : prog unit :=
  λ w, (Return (), mkWorld t (cwd w) (stdin w) (log w)).
Definition emit (e : event) : prog unit :=
  λ w, (Return (), mkWorld (tree w) (cwd w) (stdin w) (log w ++ [e])).

(** [try: body except Exception as exc: handler(exc)]. *)
Definition try_except {A} (body : prog A) (handler : exn → prog A) : prog A :=
  λ w, match body w with
       | (Raise e, w') => handler e w'
       | r => r
       end.

(** [try: body except OSError: pass]. *)
Definition try_except_OSError (body : prog unit) : prog unit :=
  λ w, match body w with
       | (Raise e, w') => if is_OSError e then (Return (), w') else (Raise e, w')
       | r => r
       end.

(** Sequencing that elaborates the computation before its continuation. *)
Definition bind {A B} (m : prog A) (f : A → prog B) : prog B := mbind f m.

Notation "'let*' x ':=' m 'in' k" := (bind m (λ x, k))
  (at level 10, x pattern, m at level 200, k at level 200,
   format "'[v' 'let*'  x  ':='  m  'in' '/' k ']'").

(** [for x in l: acc = body(x, acc)]. *)
Fixpoint for_each {A S} (l : list A) (body : A → S → prog S) (s : S) : prog S :=
  match l with
  | [] => mret s
  | x :: l' => let* s' := body x s in for_each l' body s'
  end.

(** [d[k]]. *)
Definition getitem {V} (k : string) (o : option V) : prog V :=
  match o with
  | Some v => mret v
  | None => raise (KeyError k)
  end.

(** ** Operating-system and [pathlib] calls *)

Module Os.

Definition path_exists (p : Path) : prog bool := reads (λ w, Fs.exists_ w p).
Definition path_is_file (p : Path) : prog bool := reads (λ w, Fs.is_file w p).
Definition path_is_dir (p : Path) : prog bool := reads (λ w, Fs.is_dir w p).
Definition path_resolve (p : Path) : prog Path := reads (λ w, Fs.resolve w p).

(** What [stat] reports for a directory; the program stats regular files
    only. *)
Definition dir_stat : stat_result := mkStat 0 4096 None 1970.

(** [p.stat()]. *)
Definition stat (p : Path) : prog stat_result :=
  let* n := reads (λ w, Fs.node_at w p) in
  match n with
  | Some (File st) => mret st
  | Some Dir => mret dir_stat
  | None => raise FileNotFoundError
  end.

(** [p.mkdir(parents=True, exist_ok=True)]. *)
Definition mkdir (p : Path) : prog unit :=
  let* w := reads id in
  match Fs.mkdir_go (tree w) [] (Fs.key w p) with
  | Some t => set_tree t
  | None => raise FileExistsError
  end.

(** [os.rename(src, dst)]; the root is neither renamed nor replaced. *)
Definition rename (src dst : Path) : prog unit :=
  let* w := reads id in
  let ks := Fs.key w src in
  let kd := Fs.key w dst in
  let go := set_tree (Fs.rename_tree ks kd (tree w)) in
  match Fs.lookup_key (tree w) ks with
  | None => raise FileNotFoundError
  | Some ns =>
      if decide (ks = kd) then mret ()
      else if bool_decide (ks = [] ∨ kd = []) then raise InvalidArgument
      else if negb (bool_decide
                      (Fs.lookup_key (tree w) (removelast kd) = Some Dir))
      then raise FileNotFoundError
      else
        match ns, Fs.lookup_key (tree w) kd with
        | Dir, Some (File _) => raise NotADirectoryError
        | Dir, Some Dir =>
            if bool_decide (ks `prefix_of` kd) then raise InvalidArgument
            else if bool_decide (Fs.children (tree w) kd = []) then go
            else raise DirectoryNotEmpty
        | Dir, None =>
            if bool_decide (ks `prefix_of` kd) then raise InvalidArgument
            else go
        | File _, Some Dir => raise IsADirectoryError
        | File _, _ => go
        end
  end.

(** [shutil.move(src, dst)]. When [rename] fails, the library falls back on
    copying: for a directory that is not moved into itself, [copytree]
    creates the missing parents of the destination; for a file, the copy
    fails for the reason [rename] did. *)
Definition shutil_move (src dst : Path) : prog unit :=
  emit (Call_move src dst);;
  let* isd := path_is_dir dst in
  let* same := reads (λ w, bool_decide (Fs.key w src = Fs.key w dst)) in
  if isd && same then rename src dst
  else
    let* real_dst := (if isd then
                  let real_dst := dst /: PurePath.name src in
                  let* e := path_exists real_dst in
                  if e then raise ShutilError else mret real_dst
                else mret dst) in
    try_except (rename src real_dst) (λ e,
      let* src_is_dir := path_is_dir src in
      if negb (is_OSError e) then raise e
      else if src_is_dir then
        let* destinsrc := reads (λ w, bool_decide
                                  (Fs.key w src `prefix_of` Fs.key w dst)) in
        if destinsrc then raise ShutilError
        else mkdir (PurePath.parent real_dst);; rename src real_dst
      else raise e).

(** [p.iterdir()], listed at once as [os.listdir] does. *)
Definition iterdir (p : Path) : prog (list Path) :=
  let* es := reads (λ w, Fs.scandir w p) in
  match es with
  | Some es =>
      mret ((λ e, mkPath (is_absolute p) (parts p ++ [e.1])) <$> es)
  | None =>
      let* e := path_exists p in
      raise (if e then NotADirectoryError else FileNotFoundError)
  end.

(** [p.rmdir()]. *)
Definition rmdir (p : Path) : prog unit :=
  let* w := reads id in
  let k := Fs.key w p in
  match Fs.lookup_key (tree w) k with
  | None => raise FileNotFoundError
  | Some (File _) => raise NotADirectoryError
  | Some Dir =>
      if decide (k = []) then raise InvalidArgument
      else if bool_decide (Fs.children (tree w) k = [])
      then set_tree (delete k (tree w))
      else raise DirectoryNotEmpty
  end.

(** [input(prompt)]: the next line of the standard input. *)
Definition input : prog string :=
  λ w, match stdin w with
       | [] => (Raise EOFError, w)
       | l :: rest => (Return l, mkWorld (tree w) (cwd w) rest (log w))
       end.

(** [time.sleep]: while the program sleeps, the other processes change the
    file system by [env]. *)
Definition sleep (env : gmap (list string) node → gmap (list string) node)
  : prog unit :=
  λ w, (Return (), mkWorld (env (tree w)) (cwd w) (stdin w) (log w)).

End Os.

(** ** [engine.py] *)

(** The dict [get_file_metadata] builds from the result of [stat]. *)
Definition metadata_of_stat (filepath : Path) (stat : stat_result) : Metadata :=
  let size_gb := (Z.of_N (st_size stat) # 1073741824)%Q in
  let ctime := match st_birthtime stat with
               | Some birthtime => birthtime
               | None => st_ctime stat
               end in
  let year := ctime in
  mkMetadata (Str.lower (PurePath.suffix filepath)) size_gb year.

Definition get_file_metadata (filepath : Path) : prog Metadata :=
  let* stat := Os.stat filepath in
  mret (metadata_of_stat filepath stat).

(** The [while True] loop of [safe_move]; [fuel] bounds its iterations. *)
Fixpoint collision_loop (fuel : nat) (dest_dir : Path) (stem suffix : string)
    (counter : nat) : prog Path :=
  match fuel with
  | 0 => diverge
  | S fuel' =>
      let new_name := stem +:+ "_" +:+ pretty counter +:+ suffix in
      let dest := dest_dir /: new_name in
      let* e := Os.path_exists dest in
      if negb e then mret dest
      else collision_loop fuel' dest_dir stem suffix (counter + 1)
  end.

Definition safe_move (src dest_dir : Path) : prog Path :=
  Os.mkdir dest_dir;;
  let dest := dest_dir /: PurePath.name src in
  let* e := Os.path_exists dest in
  let* dest := (if e then
            let stem := PurePath.stem src in
            let suffix := PurePath.suffix src in
            let* fuel := reads (λ w, S (size (tree w))) in
            collision_loop fuel dest_dir stem suffix 1
          else mret dest) in
  Os.shutil_move src dest;;
  mret dest.

(** The directory [sort_file] hands to [safe_move]. *)
Definition sort_file_dest_dir (rules : rule) (path : string)
    (metadata : Metadata) (base_dir : option Path) : Path :=
  let dest_dir := PurePath.of_string path in
  let dest_dir :=
    if rule_year rules then dest_dir /: pretty (year metadata) else dest_dir in
  let dest_dir :=
    if rule_file_type rules then
      let ext := Str.lstrip "." (extension metadata) in
      let ext_folder := if bool_decide (ext ≠ "") then Str.upper ext
                        else "UNKNOWN" in
      dest_dir /: ext_folder
    else dest_dir in
  match base_dir with
  | Some base_dir =>
      if negb (is_absolute dest_dir) then PurePath.joinpath base_dir dest_dir
      else dest_dir
  | None => dest_dir
  end.

Definition sort_file (filepath : Path) (config : config)
    (base_dir : option Path) : prog (string * Path) :=
  let* isf := Os.path_is_file filepath in
  if negb isf then raise (ValueError "Not a file")
  else
    let* metadata := get_file_metadata filepath in
    let routing := routing config in
    let category := match_category metadata routing in
    let* rules := getitem category (dict_get routing category) in
    let* path := getitem "path" (rule_path rules) in
    let dest_dir := sort_file_dest_dir rules path metadata base_dir in
    let* final := safe_move filepath dest_dir in
    mret (category, final).

Definition sort_folder (folderpath : Path) (config : config)
    (base_dir : option Path) : prog (string * Path) :=
  let* isd := Os.path_is_dir folderpath in
  if negb isd then raise (ValueError "Not a directory")
  else
    let routing := routing config in
    match dict_get routing "Folders" with
    | None => raise (KeyError "No 'Folders' category defined in config.json")
    | Some rules =>
        let* path := getitem "path" (rule_path rules) in
        let dest_dir := PurePath.of_string path in
        let dest_dir :=
          match base_dir with
          | Some base_dir =>
              if negb (is_absolute dest_dir)
              then PurePath.joinpath base_dir dest_dir
              else dest_dir
          | None => dest_dir
          end in
        let* final := safe_move folderpath dest_dir in
        mret ("Folders", final)
    end.

(** ** [manual/manual.py] *)

Module Manual.

Definition dir_names (es : list (string * node)) : list string :=
  fst <$> filter (λ e, Fs.is_dir_node e.2 = true) es.

Definition nondir_names (es : list (string * node)) : list string :=
  fst <$> filter (λ e, Fs.is_dir_node e.2 = false) es.

(** [for root, dirs, filenames in os.walk(top): body], top-down. The body
    returns the list [dirs] as it leaves it ([dirs.clear()] empties it)
    and the walk descends into what is left. A directory that cannot be
    listed is passed over. [fuel] bounds the depth. *)
Fixpoint os_walk {S} (fuel : nat) (top : Path)
    (body : Path → list string → list string → S → prog (list string * S))
    (s : S) : prog S :=
  match fuel with
  | 0 => diverge
  | S fuel' =>
      let* es := reads (λ w, Fs.scandir w top) in
      match es with
      | None => mret s
      | Some es =>
          let* (dirs, s') := body top (dir_names es) (nondir_names es) s in
          for_each dirs (λ d s, os_walk fuel' (top /: d) body s) s'
      end
  end.

(** The same with [topdown=False]: the body runs after the subdirectories
    have been walked. *)
Fixpoint os_walk_bottomup (fuel : nat) (top : Path)
    (body : Path → list string → list string → prog unit) : prog unit :=
  match fuel with
  | 0 => diverge
  | S fuel' =>
      let* es := reads (λ w, Fs.scandir w top) in
      match es with
      | None => mret ()
      | Some es =>
          for_each (dir_names es)
                   (λ d _, os_walk_bottomup fuel' (top /: d) body) ();;
          body top (dir_names es) (nondir_names es)
      end
  end.

(** Enough fuel for any walk of the current tree. *)
Definition depth_bound : prog nat := reads (λ w, S (size (tree w))).

Definition _collect_all_files (directory : Path) : prog (list Path) :=
  let* fuel := depth_bound in
  os_walk fuel directory
    (λ root _dirs filenames files,
       mret (_dirs, files ++ ((λ fn, root /: fn) <$> filenames)))
    [].

Definition _remove_empty_dirs (directory : Path) : prog unit :=
  let* fuel := depth_bound in
  os_walk_bottomup fuel directory
    (λ root dirs _files,
       for_each dirs
         (λ d _,
            let dp := root /: d in
            try_except_OSError
              (let* es := Os.iterdir dp in
               if bool_decide (es = []) then
                 Os.rmdir dp;;
                 emit (Print_removed dp)
               else mret ()))
         ()).

Definition _sort_single_file (filepath : Path) (config : config)
    (custom_target : option Path) (base_dir : option Path) : prog nat :=
  try_except
    (match custom_target with
     | Some custom_target =>
         let* metadata := get_file_metadata filepath in
         let category := match_category metadata (routing config) in
         let dest_dir := custom_target /: category in
         let use_year_subfolder :=
           match dict_get (routing config) category with
           | Some rules => rule_year rules
           | None => false
           end in
         let dest_dir :=
           if use_year_subfolder then dest_dir /: pretty (year metadata)
           else dest_dir in
         let* dest := safe_move filepath dest_dir in
         emit (Print_sorted (PurePath.name filepath) category dest);;
         mret 1
     | None =>
         let* (cat, dest) := sort_file filepath config base_dir in
         emit (Print_sorted (PurePath.name filepath) cat dest);;
         mret 1
     end)
    (λ exc,
       emit (Print_failed (PurePath.name filepath) exc);;
       mret 0).

(** Choice 3, first part: the items of the [Folders] category go back
    intact. *)
Definition revert_folders (folders_cat revert_target : Path) (moved : nat)
    : prog nat :=
  let* isd := Os.path_is_dir folders_cat in
  if isd then
    let* items := Os.iterdir folders_cat in
    for_each items
      (λ item moved,
         let* item_p := Os.path_resolve item in
         let* rev_p := Os.path_resolve revert_target in
         if bool_decide (item_p = rev_p) then mret moved
         else
           try_except
             (let* dest := safe_move item revert_target in
              emit (Print_reverted_intact (PurePath.name item) dest);;
              mret (moved + 1))
             (λ exc,
                emit (Print_failed (PurePath.name item) exc);;
                mret moved))
      moved
  else mret moved.

(** Choice 3, second part: every file of the rest of the structure. *)
Definition revert_files (target_dir folders_cat revert_target : Path)
    (moved : nat) : prog nat :=
  let* fuel := depth_bound in
  os_walk fuel target_dir
    (λ root dirs filenames moved,
       let* root_p := Os.path_resolve root in
       let* rev_p := Os.path_resolve revert_target in
       if bool_decide (root_p = rev_p)
          || bool_decide (rev_p ∈ PurePath.parents root_p)
       then mret ([], moved)
       else
         let* isd := Os.path_is_dir folders_cat in
         let* fcat_p := Os.path_resolve folders_cat in
         if isd && (bool_decide (root_p = fcat_p)
                    || bool_decide (fcat_p ∈ PurePath.parents root_p))
         then mret ([], moved)
         else
           let* moved :=
             for_each filenames
               (λ fn moved,
                  let f := root /: fn in
                  try_except
                    (let* dest := safe_move f revert_target in
                     emit (Print_reverted (PurePath.name f) dest);;
                     mret (moved + 1))
                    (λ exc,
                       emit (Print_failed (PurePath.name f) exc);;
                       mret moved))
               moved in
           mret (dirs, moved))
    moved.

(** The loop over the entries for choices 1 and 2. *)
Definition sort_entry (target_dir : Path) (config : config)
    (custom_target : option Path) (flatten : bool) (entry : Path)
    (moved : nat) : prog nat :=
  let* isf := Os.path_is_file entry in
  if isf then
    let* n := _sort_single_file entry config custom_target (Some target_dir) in
    mret (moved + n)
  else
    let* isd := Os.path_is_dir entry in
    if isd then
      if flatten then
        let* files := _collect_all_files entry in
        let* moved :=
          for_each files
            (λ f moved,
               let* n := _sort_single_file f config custom_target
                                           (Some target_dir) in
               mret (moved + n))
            moved in
        _remove_empty_dirs entry;;
        try_except_OSError
          (let* e := Os.path_exists entry in
           if e then
             let* es := Os.iterdir entry in
             if bool_decide (es = []) then
               Os.rmdir entry;;
               emit (Print_removed entry)
             else mret ()
           else mret ());;
        mret moved
      else
        match custom_target with
        | Some custom_target =>
            let dest_dir := custom_target /: "Folders" in
            let* dest := safe_move entry dest_dir in
            emit (Print_folder (PurePath.name entry) "Folders" dest)
        | None =>
            let* (cat, dest) := sort_folder entry config (Some target_dir) in
            emit (Print_folder (PurePath.name entry) cat dest)
        end;;
        mret (moved + 1)
    else mret moved.

(** Choice 2: the loop that creates the category folders. *)
Definition create_category_folders (custom_target : Path) (config : config)
    : prog unit :=
  for_each (routing config)
    (λ '(category_name, _) _, Os.mkdir (custom_target /: category_name))
    ().

Definition interactive_sort (target_dir : Path) (config : config)
    : prog unit :=
  let* choice := Os.input in
  let choice := Str.strip choice in
  let* (custom_target, revert_target) :=
    if bool_decide (choice ∈ ["2"; ""]) then
      let* raw := Os.input in
      let custom_target := PurePath.of_string (Str.strip raw) in
      Os.mkdir custom_target;;
      create_category_folders custom_target config;;
      emit (Print_created custom_target);;
      mret (Some custom_target, None)
    else if bool_decide (choice = "3") then
      let* raw := Os.input in
      let revert_target := PurePath.of_string (Str.strip raw) in
      Os.mkdir revert_target;;
      mret (None, Some revert_target)
    else mret (None, None) in
  let* flatten :=
    if bool_decide (choice ≠ "3") then
      let* ans := Os.input in
      mret (bool_decide (Str.lower (Str.strip ans) = "y"))
    else mret false in
  let* entries := Os.iterdir target_dir in
  let entries := merge_sort PurePath.le entries in
  let moved := 0 in
  match revert_target with
  | Some revert_target =>
      let folders_cat := target_dir /: "Folders" in
      let* moved := revert_folders folders_cat revert_target moved in
      let* moved := revert_files target_dir folders_cat revert_target moved in
      _remove_empty_dirs target_dir;;
      emit (Print_done moved);;
      Os.input;;
      mret ()
  | None =>
      let* moved :=
        for_each entries (sort_entry target_dir config custom_target flatten)
                 moved in
      emit (Print_done moved);;
      Os.input;;
      mret ()
  end.

(** The body of the loop of [sync_sort] over [all_files]. *)
Definition resort_file (config : config) (f : Path) (moved : nat)
    : prog nat :=
  try_except
    (let* (cat, dest) := sort_file f config None in
     if bool_decide (PurePath.parent dest ≠ PurePath.parent f) then
       emit (Print_rerouted (PurePath.name f) cat dest);;
       mret (moved + 1)
     else mret moved)
    (λ exc,
       emit (Print_failed (PurePath.name f) exc);;
       mret moved).

Definition sync_sort (config : config) : prog unit :=
  let routing := routing config in
  let* all_files :=
    for_each routing
      (λ '(cat, rules) all_files,
         let* path := getitem "path" (rule_path rules) in
         let cat_path := PurePath.of_string path in
         let* isd := Os.path_is_dir cat_path in
         if isd then
           let* files := _collect_all_files cat_path in
           mret (all_files ++ files)
         else mret all_files)
      [] in
  if bool_decide (all_files = []) then emit Print_nothing_to_sync
  else
    emit (Print_found (length all_files));;
    let* moved := for_each all_files (resort_file config) 0 in
    for_each routing
      (λ '(cat, rules) _,
         let* path := getitem "path" (rule_path rules) in
         let cat_path := PurePath.of_string path in
         let* isd := Os.path_is_dir cat_path in
         if isd then _remove_empty_dirs cat_path else mret ())
      ();;
    emit (Print_done moved);;
    Os.input;;
    mret ().

End Manual.

(** ** [auto/auto.py] *)

Module Auto.

(** The notifications of the observer. *)
Inductive fs_event :=
  | FileCreatedEvent (src_path : string)
  | DirCreatedEvent (src_path : string)
  | FileMovedEvent (src_path dest_path : string)
  | DirMovedEvent (src_path dest_path : string)
  | FileDeletedEvent (src_path : string)
  | DirDeletedEvent (src_path : string)
  | FileModifiedEvent (src_path : string)
  | DirModifiedEvent (src_path : string).

(** Best effort: a failure to notify is swallowed. *)
Definition _notify (title message : string) : prog unit :=
  emit (Notify message).

Definition _process
    (env : gmap (list string) node → gmap (list string) node)
    (config : config) (filepath : string) : prog unit :=
  let p := PurePath.of_string filepath in
  let* isf := Os.path_is_file p in
  if negb isf then mret ()
  else if Str.startswith "." (PurePath.name p)
          || Str.startswith "~" (PurePath.name p)
  then mret ()
  else
    Os.sleep env;;
    let* e := Os.path_exists p in
    if negb e then mret ()
    else
      try_except
        (let* (category, dest) := sort_file p config None in
         let msg := PurePath.name p +:+ "  →  [" +:+ category +:+ "]" in
         emit (Print_sorted (PurePath.name p) category dest);;
         _notify "Sortify — File Sorted" msg)
        (λ exc, emit (Print_failed (PurePath.name p) exc)).

Definition on_created env (config : config) (event : fs_event) : prog unit :=
  match event with
  | FileCreatedEvent src_path => _process env config src_path
  | _ => mret ()
  end.

Definition on_moved env (config : config) (event : fs_event) : prog unit :=
  match event with
  | FileMovedEvent _ dest_path => _process env config dest_path
  | _ => mret ()
  end.

(** [FileSystemEventHandler.dispatch]: the handler overrides [on_created]
    and [on_moved] only. *)
Definition dispatch env (config : config) (event : fs_event) : prog unit :=
  match event with
  | FileCreatedEvent _ | DirCreatedEvent _ => on_created env config event
  | FileMovedEvent _ _ | DirMovedEvent _ _ => on_moved env config event
  | _ => mret ()
  end.

End Auto.

(** ** Well-formed inputs *)

(** What the parser of paths guarantees of every component. *)
Definition valid_name (s : string) : Prop :=
  s ≠ "" ∧ s ≠ "." ∧ Str.mem "/" s = false.

Global Instance valid_name_dec s : Decision (valid_name s).
Proof. unfold valid_name. apply _. Defined.

Definition wf_path (p : Path) : Prop := Forall valid_name (parts p).

(** A tree is well formed when every entry has a name and lies in a
    directory. *)
Definition wf_tree (t : gmap (list string) node) : Prop :=
  map_Forall (λ k _, k ≠ [] ∧ Fs.lookup_key t (removelast k) = Some Dir) t.

Global Instance wf_tree_dec t : Decision (wf_tree t).
Proof. unfold wf_tree. apply _. Defined.

(** ** The vocabulary of the statements *)

(** A character that is not a decimal digit. *)
Definition not_digit (c : ascii) : Prop := ∀ x : N, pretty_N_char x ≠ c.

(** The names the collision loop tries. *)
Definition candidate (p : Path) (n : nat) : string :=
  PurePath.stem p +:+ "_" +:+ pretty n +:+ PurePath.suffix p.

(** The rule predicate in the words of the specification. *)
Definition rule_accepts (md : Metadata) (r : rule) : Prop :=
  (∀ exts, rule_extensions r = Some exts → exts ≠ [] → extension md ∈ exts) ∧
  (∀ lo, rule_min_gb r = Some lo → (lo <= size_gb md)%Q) ∧
  (∀ hi, rule_max_gb r = Some hi → (size_gb md <= hi)%Q).

Definition reserved (c : string) : Prop := c = "Others" ∨ c = "Folders".

(** A category the classification passes over. *)
Definition skipped (md : Metadata) (cr : string * rule) : Prop :=
  reserved cr.1 ∨ ¬ rule_accepts md cr.2.

Definition with_year (b : bool) (r : rule) : rule :=
  mkRule (rule_path r) (rule_extensions r) (rule_min_gb r) (rule_max_gb r)
         b (rule_file_type r).

Definition with_extension (e : string) (md : Metadata) : Metadata :=
  mkMetadata e (size_gb md) (year md).

(** What a successful [safe_move] chose as its destination, judged in the
    world [w1] in which the destination directory has been created. *)
Definition chosen (src dest_dir dest : Path) (w1 : world) : Prop :=
  Fs.exists_ w1 dest = false
  ∧ (dest = dest_dir /: PurePath.name src
     ∨ ∃ n, 1 ≤ n ∧ dest = dest_dir /: candidate src n
            ∧ Fs.exists_ w1 (dest_dir /: PurePath.name src) = true
            ∧ ∀ m, 1 ≤ m < n →
                   Fs.exists_ w1 (dest_dir /: candidate src m) = true).

(** The folder of the file-type flag. *)
Definition type_folder (md : Metadata) : string :=
  let ext := Str.lstrip "." (extension md) in
  if bool_decide (ext ≠ "") then Str.upper ext else "UNKNOWN".

(** The destination directory in the words of the specification: the
    configured path, then the year subfolder, then the type subfolder inside
    it, the whole resolved against the base directory when it is relative. *)
Definition planned_dir (rules : rule) (path : string) (md : Metadata)
    (base_dir : option Path) : Path :=
  let start := PurePath.of_string path in
  let subfolders :=
    (if rule_year rules then [pretty (year md)] else [])
    ++ (if rule_file_type rules then [type_folder md] else []) in
  let dir := mkPath (is_absolute start) (parts start ++ subfolders) in
  match base_dir with
  | Some base =>
      if is_absolute dir then dir
      else mkPath (is_absolute base) (parts base ++ parts dir)
  | None => dir
  end.

(** Two files named [a.txt], in two source directories. *)
Definition two_sources : world :=
  mkWorld (list_to_map
             [ (["in1"], Dir); (["in1"; "a.txt"], File (mkStat 1 100 None 2023));
               (["in2"], Dir); (["in2"; "a.txt"], File (mkStat 2 200 None 2024)) ])
          [] [] [].


(** A photograph waiting in an inbox, and a configuration that files
    pictures by year and by type. *)
Definition inbox : world :=
  mkWorld (list_to_map
             [ (["in"], Dir);
               (["in"; "photo.JPG"], File (mkStat 7 2048 (Some 2023) 2024)) ])
          [] [] [].

Definition pictures : config :=
  mkConfig ["/in"]
    [ ("Images", mkRule (Some "/dest/img") (Some [".jpg"; ".png"]) None None
                        true true);
      ("Others", mkRule (Some "/dest/misc") None None None false false) ].

(** A file that already lies in the directory planned for it. *)
Definition sorted_already : world :=
  mkWorld (list_to_map
             [ (["dest"], Dir); (["dest"; "misc"], Dir);
               (["dest"; "misc"; "notes.txt"],
                File (mkStat 3 10 None 2022)) ])
          [] [] [].

(** The world the watcher finds when its settle delay has elapsed. *)
Definition after_sleep (env : gmap (list string) node → gmap (list string) node)
    (w : world) : world :=
  mkWorld (env (tree w)) (cwd w) (stdin w) (log w).

(** The events of [new] that were logged after those of [old]. *)
Definition logged_since (old new : world) : list event :=
  drop (length (log old)) (log new).

(** A name the watcher passes over. *)
Definition hidden (name : string) : bool :=
  Str.startswith "." name || Str.startswith "~" name.

(** A rule that only lists extensions. *)
Definition extensions_rule (exts : list string) : rule :=
  mkRule (Some "/dest/img") (Some exts) None None false false.

Definition with_bounds (lo hi : option Q) (r : rule) : rule :=
  mkRule (rule_path r) (rule_extensions r) lo hi (rule_year r)
         (rule_file_type r).

(** The extension gate as the specification words it: the result of the match
    is the same whatever the letter case of the file's extension and whatever
    the letter case of the configured entries. *)
Definition case_blind_gate : Prop :=
  ∀ (name1 name2 : string) (exts1 exts2 : list string) (st : stat_result),
    Str.lower (PurePath.suffix (PurePath.of_string name1))
    = Str.lower (PurePath.suffix (PurePath.of_string name2)) →
    Str.lower <$> exts1 = Str.lower <$> exts2 →
    _rule_matches (metadata_of_stat (PurePath.of_string name1) st)
                  (extensions_rule exts1)
    = _rule_matches (metadata_of_stat (PurePath.of_string name2) st)
                    (extensions_rule exts2).



(** A configuration that has no entry for [Others], and an empty folder to
    sort with answers 2, /out and n at the prompts. *)
Definition docs_only : config :=
  mkConfig []
    [ ("Docs", mkRule (Some "/dest/docs") (Some [".txt"]) None None
                      false false) ].

Definition empty_folder : world :=
  mkWorld (list_to_map [ (["t"], Dir) ]) [] ["2"; "/out"; "n"; ""] [].


(** A folder that holds a directory and a file, to sort with answers 1 and n
    at the prompts, while a regular file lies at the path configured for
    [Folders]. *)
Definition blocked_folders : config :=
  mkConfig []
    [ ("Docs", mkRule (Some "/dest/docs") (Some [".txt"]) None None
                      false false);
      ("Folders", mkRule (Some "/dest/dirs") None None None false false);
      ("Others", mkRule (Some "/dest/misc") None None None false false) ].

Definition folder_then_file : world :=
  mkWorld (list_to_map
             [ (["t"], Dir); (["t"; "a"], Dir);
               (["t"; "b.txt"], File (mkStat 1 100 None 2023));
               (["dest"], Dir);
               (["dest"; "dirs"], File (mkStat 2 5 None 2023)) ])
          [] ["1"; "n"; ""] [].

(** The same configuration without its entry for [Folders]. *)
Definition no_folders : config :=
  mkConfig []
    [ ("Docs", mkRule (Some "/dest/docs") (Some [".txt"]) None None
                      false false);
      ("Others", mkRule (Some "/dest/misc") None None None false false) ].

(** A sorted file whose name ends in a dot, under a rule that files by
    type. *)
Definition by_type : config :=
  mkConfig []
    [ ("Others", mkRule (Some "/d/misc") None None None false true) ].

Definition trailing_dot : world :=
  mkWorld (list_to_map
             [ (["d"], Dir); (["d"; "misc"], Dir);
               (["d"; "misc"; "UNKNOWN"], Dir);
               (["d"; "misc"; "UNKNOWN"; "a."],
                File (mkStat 1 100 None 2023)) ])
          [] [""; ""] [].

(** Two files to sort inside their folder (answers 1 and n) and then to
    revert into that folder (answers 3 and /t). *)
Definition relative_routes : config :=
  mkConfig []
    [ ("Docs", mkRule (Some "Docs") (Some [".txt"]) None None false false);
      ("Others", mkRule (Some "Others") None None None false false) ].

Definition unsorted : world :=
  mkWorld (list_to_map
             [ (["t"], Dir);
               (["t"; "b.txt"], File (mkStat 1 100 None 2023));
               (["t"; "c"], File (mkStat 2 200 (Some 2021) 2023)) ])
          [] ["1"; "n"; ""; "3"; "/t"; ""] [].

(** A directory that holds a picture, next to an empty destination. *)
Definition album : world :=
  mkWorld (list_to_map
             [ (["in"], Dir); (["in"; "album"], Dir);
               (["in"; "album"; "p.jpg"], File (mkStat 5 300 None 2022));
               (["dest"], Dir) ])
          [] [] [].

(** Every component of every entry is a name a file system allows. *)
Definition wf_names (t : gmap (list string) node) : Prop :=
  map_Forall (λ k _, Forall valid_name k) t.

Global Instance wf_names_dec t : Decision (wf_names t).
Proof. unfold wf_names. apply _. Defined.

(** [p] is a regular file somewhere below [top], named as a walk from [top]
    names it. *)
Definition file_below (w : world) (top p : Path) : Prop :=
  ∃ rel st,
    rel ≠ []
    ∧ p = mkPath (is_absolute top) (parts top ++ rel)
    ∧ tree w !! (Fs.key w top ++ rel) = Some (File st).

(** [k] lies strictly below [kt]. *)
Definition strictly_below (kt k : list string) : Prop :=
  kt `prefix_of` k ∧ k ≠ kt.

(** The report of a removed directory. *)
Definition is_removal (e : event) : Prop := ∃ dp, e = Print_removed dp.

(** The directories of [t] strictly below [kt] all hold something. *)
Definition no_empty_below (kt : list string) (t : gmap (list string) node)
    : Prop :=
  ∀ k, strictly_below kt k → t !! k = Some Dir →
       ∃ x n, t !! (k ++ [x]) = Some n.

(** What pruning below [kt] makes of a tree [t]: entries are only taken
    away, none of them a regular file and none outside [kt]; what is left is
    well formed and holds no empty directory below [kt]. *)
Definition pruned (kt : list string) (t t' : gmap (list string) node)
    : Prop :=
  t' ⊆ t
  ∧ (∀ k st, t !! k = Some (File st) → t' !! k = Some (File st))
  ∧ (∀ k, ¬ strictly_below kt k → t' !! k = t !! k)
  ∧ wf_tree t'
  ∧ no_empty_below kt t'.

(** The same for the walks below the subdirectories [ds] of [kt]. *)
Definition pruned_under (kt : list string) (ds : list string)
    (t t' : gmap (list string) node) : Prop :=
  t' ⊆ t
  ∧ (∀ k st, t !! k = Some (File st) → t' !! k = Some (File st))
  ∧ (∀ k, (∀ d, d ∈ ds → ¬ strictly_below (kt ++ [d]) k) →
          t' !! k = t !! k)
  ∧ wf_tree t'
  ∧ (∀ d, d ∈ ds → no_empty_below (kt ++ [d]) t').

(** The same for the removal of those of the subdirectories [ds] of [kt]
    that are empty. *)
Definition emptied (kt : list string) (ds : list string)
    (t t' : gmap (list string) node) : Prop :=
  t' ⊆ t
  ∧ (∀ k st, t !! k = Some (File st) → t' !! k = Some (File st))
  ∧ (∀ k, (∀ d, d ∈ ds → k ≠ kt ++ [d]) → t' !! k = t !! k)
  ∧ wf_tree t'
  ∧ (∀ d, d ∈ ds → t' !! (kt ++ [d]) = Some Dir →
          ∃ x n, t' !! ((kt ++ [d]) ++ [x]) = Some n).

(** The rest of the world during a pruning: only reports of removals are
    written. *)
Definition quiet (w w' : world) : Prop :=
  cwd w' = cwd w ∧ stdin w' = stdin w
  ∧ ∃ l, log w' = log w ++ l ∧ Forall is_removal l.

(** A folder that holds a chain of empty directories and a directory with a
    file. *)
Definition hollow : world :=
  mkWorld (list_to_map
             [ (["d"], Dir); (["d"; "a"], Dir); (["d"; "a"; "b"], Dir);
               (["d"; "c"], Dir);
               (["d"; "c"; "f.txt"], File (mkStat 9 12 None 2020)) ])
          [] [] [].

(** Two categories whose folders do not exist yet. *)
Definition fresh_routes : config :=
  mkConfig []
    [ ("Docs", mkRule (Some "/sorted/docs") (Some [".txt"]) None None
                      false false);
      ("Others", mkRule (Some "/sorted/misc") None None None false false) ].

(** A one-to-one correspondence [f] between the regular files of [t] and
    those of [t'], under which every file keeps what [stat] reports of it:
    the files may lie elsewhere, but none is lost, none is overwritten and
    none appears. *)
Definition same_files (t t' : gmap (list string) node) : Prop :=
  ∃ f : list string → list string,
    (∀ k st, t !! k = Some (File st) → t' !! f k = Some (File st))
    ∧ (∀ k1 k2 st1 st2,
         t !! k1 = Some (File st1) → t !! k2 = Some (File st2) →
         f k1 = f k2 → k1 = k2)
    ∧ (∀ k' st, t' !! k' = Some (File st) →
                ∃ k, f k = k' ∧ t !! k = Some (File st)).

(** A world whose file system is as file systems are: every entry lies in
    a directory, and every component of every key and of the working
    directory is a name. *)
Definition sound (w : world) : Prop :=
  wf_tree (tree w) ∧ wf_names (tree w) ∧ Forall valid_name (cwd w).

Global Instance sound_dec w : Decision (sound w).
Proof. unfold sound. apply _. Defined.

(** A run from [w] to [w'] that leaves the world sound, the working
    directory alone and every regular file in the tree. *)
Definition keeps (w w' : world) : Prop :=
  sound w' ∧ cwd w' = cwd w ∧ same_files (tree w) (tree w').

(** A path without a [..] component: to the keys of the tree such a
    component is a name like any other, to the system it is the parent
    directory, so that the statements about whole runs keep to paths
    without it. *)
Definition plain (p : Path) : Prop := ".." ∉ parts p.

Global Instance plain_dec p : Decision (plain p).
Proof. unfold plain. apply _. Defined.

(** What [stat] reports of a file, the time of its last change apart: a
    renaming keeps the file and its size, the time of the last change is
    the system's to set. *)
Definition same_but_ctime (st st' : stat_result) : Prop :=
  st_ino st' = st_ino st ∧ st_size st' = st_size st
  ∧ st_birthtime st' = st_birthtime st.


(** A destination in which the names [a.txt], [a_1.txt] and [a_2.txt] are
    taken, and the names [album] and [album_1] too. *)
Definition crowded : world :=
  mkWorld (list_to_map
             [ (["in"], Dir);
               (["in"; "a.txt"], File (mkStat 10 1000 None 2024));
               (["in"; "album"], Dir);
               (["in"; "album"; "p.jpg"], File (mkStat 11 300 None 2022));
               (["dest"], Dir);
               (["dest"; "a.txt"], File (mkStat 1 100 None 2021));
               (["dest"; "a_1.txt"], File (mkStat 2 200 None 2021));
               (["dest"; "a_2.txt"], Dir);
               (["dest"; "album"], Dir);
               (["dest"; "album"; "q.jpg"], File (mkStat 3 50 None 2020));
               (["dest"; "album_1"], File (mkStat 4 60 None 2020)) ])
          [] [] [].




(** The way to [k] is clear: no prefix of [k] is the key of a regular
    file. *)
Definition clear_way (t : gmap (list string) node) (k : list string) : Prop :=
  Forall (λ i, Fs.is_dir_node <$> t !! take i k ≠ Some false)
         (seq 0 (S (length k))).

Global Instance clear_way_dec t k : Decision (clear_way t k).
Proof. unfold clear_way. apply _. Defined.

(** A configuration whose category names and paths have no [..]
    component; a category without a path has none to look at. *)
Definition plain_config (config : config) : Prop :=
  Forall (λ cr : string * rule,
            plain (PurePath.of_string cr.1)
            ∧ plain (PurePath.of_string (default "" (rule_path cr.2))))
         (routing config).

Global Instance plain_config_dec config : Decision (plain_config config).
Proof. unfold plain_config. apply _. Defined.

(** The lines of input, read as paths, have no [..] component. *)
Definition plain_answers (w : world) : Prop :=
  Forall (λ l, plain (PurePath.of_string (Str.strip l))) (stdin w).

Global Instance plain_answers_dec w : Decision (plain_answers w).
Proof. unfold plain_answers. apply _. Defined.

(** * Strings and paths *)

Section strings.
Implicit Types (s t : string) (c : ascii).

Lemma mem_app c s t : Str.mem c (s +:+ t) = Str.mem c s || Str.mem c t.
Proof.
  induction s as [|a s IH]; [done|].
  change (String a s +:+ t) with (String a (s +:+ t)).
  simpl. case_decide; [done|apply IH].
Qed.

Lemma split_no_sep c s : Str.mem c s = false → Str.split c s = [s].
Proof.
  induction s as [|a s IH]; simpl; [done|].
  case_decide; [done|]. intros Hs. by rewrite (IH Hs).
Qed.

Lemma mem_take c n s : Str.mem c s = false → Str.mem c (Str.take n s) = false.
Proof.
  revert n. induction s as [|a s IH]; intros [|n]; simpl; try done.
  case_decide; [done|]. auto.
Qed.

Lemma mem_drop c n s : Str.mem c s = false → Str.mem c (Str.drop n s) = false.
Proof.
  revert n. induction s as [|a s IH]; intros [|n]; simpl; try done.
  case_decide; [done|]. auto.
Qed.

Lemma mem_lstrip c a s : Str.mem c s = false → Str.mem c (Str.lstrip a s) = false.
Proof.
  induction s as [|b s IH]; simpl; [done|].
  destruct (decide (b = c)); [done|]. intros Hs.
  destruct (decide (b = a)); [by apply IH|].
  simpl. by rewrite decide_False.
Qed.

Lemma str_take_drop n s : Str.take n s +:+ Str.drop n s = s.
Proof.
  revert n. induction s as [|a s IH]; intros [|n]; try done.
  simpl. change (String a ?x +:+ ?y) with (String a (x +:+ y)). by rewrite IH.
Qed.

Lemma str_length_app s t :
  String.length (s +:+ t) = String.length s + String.length t.
Proof.
  induction s as [|a s IH]; [done|].
  change (String a s +:+ t) with (String a (s +:+ t)). simpl. by rewrite IH.
Qed.

Lemma str_app_inj_r s1 s2 t : s1 +:+ t = s2 +:+ t → s1 = s2.
Proof.
  revert s2. induction s1 as [|a s1 IH]; intros [|b s2] H; try done.
  - apply (f_equal String.length) in H.
    change ("" +:+ t) with t in H. rewrite str_length_app in H. simpl in H. lia.
  - apply (f_equal String.length) in H.
    change ("" +:+ t) with t in H. rewrite str_length_app in H. simpl in H. lia.
  - change (String ?a ?x +:+ ?y) with (String a (x +:+ y)) in H.
    injection H as -> H. f_equal. by apply IH.
Qed.

Lemma slash_not_digit : not_digit "/".
Proof. intros x. unfold pretty_N_char. repeat case_match; done. Qed.

Lemma dot_not_digit : not_digit ".".
Proof. intros x. unfold pretty_N_char. repeat case_match; done. Qed.

Lemma mem_pretty_N_go c (x : N) s :
  not_digit c → Str.mem c s = false → Str.mem c (pretty_N_go x s) = false.
Proof.
  intros Hc. revert s. induction (N.lt_wf_0 x) as [x _ IH]; intros s Hs.
  destruct (decide (0 < x)%N) as [Hx|Hx].
  - rewrite pretty_N_go_step by done. apply IH.
    + by apply N.div_lt.
    + simpl. rewrite decide_False; [done|apply Hc].
  - assert (x = 0%N) as -> by lia. by rewrite pretty_N_go_0.
Qed.

Lemma mem_pretty_digit c (n : nat) : not_digit c → Str.mem c (pretty n) = false.
Proof.
  intros Hc. unfold pretty, pretty_nat, pretty, pretty_N.
  case_decide.
  - simpl. rewrite decide_False; [done|]. apply (Hc 0%N).
  - by apply mem_pretty_N_go.
Qed.

Lemma mem_pretty (n : nat) : Str.mem "/" (pretty n) = false.
Proof. apply mem_pretty_digit, slash_not_digit. Qed.

Lemma pretty_N_go_nonempty (x : N) s : s ≠ "" → pretty_N_go x s ≠ "".
Proof.
  revert s. induction (N.lt_wf_0 x) as [x _ IH]; intros s Hs.
  destruct (decide (0 < x)%N) as [Hx|Hx].
  - rewrite pretty_N_go_step by done. apply IH; [by apply N.div_lt|done].
  - assert (x = 0%N) as -> by lia. by rewrite pretty_N_go_0.
Qed.

Lemma pretty_nonempty (n : nat) : pretty n ≠ "".
Proof.
  unfold pretty, pretty_nat, pretty, pretty_N.
  case_decide as Hn; [done|].
  rewrite pretty_N_go_step by lia. by apply pretty_N_go_nonempty.
Qed.

Lemma upper_char_slash c : Str.upper_char c = "/"%char → c = "/"%char.
Proof.
  unfold Str.upper_char.
  destruct (_ && _) eqn:E; [|done].
  apply andb_true_iff in E as [E1%N.leb_le E2%N.leb_le].
  intros H. apply (f_equal N_of_ascii) in H.
  rewrite N_ascii_embedding in H by lia. simpl in H. lia.
Qed.

Lemma mem_upper s : Str.mem "/" s = false → Str.mem "/" (Str.upper s) = false.
Proof.
  induction s as [|a s IH]; simpl; [done|].
  case_decide; [done|]. intros Hs.
  rewrite decide_False; [by apply IH|].
  intros ?%upper_char_slash. done.
Qed.

Lemma upper_char_dot c : Str.upper_char c = "."%char → c = "."%char.
Proof.
  unfold Str.upper_char.
  destruct (_ && _) eqn:E; [|done].
  apply andb_true_iff in E as [E1%N.leb_le E2%N.leb_le].
  intros H. apply (f_equal N_of_ascii) in H.
  rewrite N_ascii_embedding in H by lia. simpl in H. lia.
Qed.

Lemma lower_char_slash c : Str.lower_char c = "/"%char → c = "/"%char.
Proof.
  unfold Str.lower_char.
  destruct (_ && _) eqn:E; [|done].
  apply andb_true_iff in E as [E1%N.leb_le E2%N.leb_le].
  intros H. apply (f_equal N_of_ascii) in H.
  rewrite N_ascii_embedding in H by lia. simpl in H. lia.
Qed.

Lemma mem_lower s : Str.mem "/" s = false → Str.mem "/" (Str.lower s) = false.
Proof.
  induction s as [|a s IH]; simpl; [done|].
  case_decide; [done|]. intros Hs.
  rewrite decide_False; [by apply IH|].
  intros ?%lower_char_slash. done.
Qed.

Lemma lstrip_head c s a t : Str.lstrip c s = String a t → a ≠ c.
Proof.
  induction s as [|b s IH]; simpl; [done|].
  case_decide; [done|]. by intros [= <- _].
Qed.

Lemma lower_char_idemp c : Str.lower_char (Str.lower_char c) = Str.lower_char c.
Proof.
  unfold Str.lower_char at 2 3.
  destruct (_ && _) eqn:E.
  - apply andb_true_iff in E as [E1%N.leb_le E2%N.leb_le].
    unfold Str.lower_char. rewrite N_ascii_embedding by lia.
    destruct (_ && _) eqn:E'; [|done].
    apply andb_true_iff in E' as [?%N.leb_le ?%N.leb_le]. lia.
  - unfold Str.lower_char. by rewrite E.
Qed.

Lemma lower_idemp s : Str.lower (Str.lower s) = Str.lower s.
Proof.
  induction s as [|a s IH]; [done|].
  unfold Str.lower in *. simpl. by rewrite lower_char_idemp, IH.
Qed.
End strings.

Section paths.
Implicit Types (s t : string) (p q : Path) (w : world).

Lemma split_components c s : Forall (λ x, Str.mem c x = false) (Str.split c s).
Proof.
  induction s as [|a s IH]; simpl; [by repeat constructor|].
  case_decide; [by constructor|].
  destruct (Str.split c s) as [|x xs]; [by repeat constructor; simpl; rewrite decide_False|].
  inversion_clear IH. constructor; [|done]. simpl. by rewrite decide_False.
Qed.

Lemma of_string_wf s : wf_path (PurePath.of_string s).
Proof.
  unfold wf_path, PurePath.of_string; simpl.
  apply Forall_forall. intros x [Hk Hx]%list_elem_of_filter.
  destruct Hk as [? ?]. split_and!; try done.
  by eapply (proj1 (Forall_forall _ _) (split_components "/" s)).
Qed.

Lemma startswith_slash s : Str.mem "/" s = false → Str.startswith "/" s = false.
Proof.
  destruct s as [|a s]; [done|]. unfold Str.startswith.
  cbn [Str.mem String.prefix]. intros Hm.
  destruct (ascii_dec "/" a) as [<-|]; [|done].
  by rewrite decide_True in Hm.
Qed.

Lemma of_string_valid s : valid_name s → PurePath.of_string s = mkPath false [s].
Proof.
  intros (Hne & Hdot & Hm). unfold PurePath.of_string.
  rewrite split_no_sep, startswith_slash by done. f_equal.
  rewrite filter_cons_True; [done|]. by split.
Qed.

Lemma truediv_valid p s :
  valid_name s → p /: s = mkPath (is_absolute p) (parts p ++ [s]).
Proof. intros Hs. unfold PurePath.truediv. by rewrite of_string_valid. Qed.



Lemma name_snoc b l s : PurePath.name (mkPath b (l ++ [s])) = s.
Proof. unfold PurePath.name. simpl. by rewrite last_snoc. Qed.

Lemma parent_snoc b l s : PurePath.parent (mkPath b (l ++ [s])) = mkPath b l.
Proof. unfold PurePath.parent. simpl. by rewrite removelast_last. Qed.

Lemma key_snoc w b l s : Fs.key w (mkPath b (l ++ [s])) = Fs.key w (mkPath b l) ++ [s].
Proof. unfold Fs.key. simpl. by rewrite (assoc_L (++)). Qed.

Lemma name_valid p : wf_path p → parts p ≠ [] → valid_name (PurePath.name p).
Proof.
  unfold wf_path, PurePath.name. intros Hp Hne.
  destruct (parts p) as [|x l] using rev_ind; [done|].
  rewrite last_snoc. simpl. by apply Forall_app in Hp as [_ [? _]%Forall_cons].
Qed.

Lemma stem_suffix p : PurePath.stem p +:+ PurePath.suffix p = PurePath.name p.
Proof.
  unfold PurePath.stem, PurePath.suffix.
  destruct (PurePath.suffix_index _); [apply str_take_drop|].
  generalize (PurePath.name p). intros s. induction s as [|a s IH]; [done|].
  change (String a s +:+ "") with (String a (s +:+ "")). by rewrite IH.
Qed.

Lemma mem_stem p : Str.mem "/" (PurePath.name p) = false → Str.mem "/" (PurePath.stem p) = false.
Proof. unfold PurePath.stem. destruct (PurePath.suffix_index _); [apply mem_take|done]. Qed.

Lemma mem_suffix p : Str.mem "/" (PurePath.name p) = false → Str.mem "/" (PurePath.suffix p) = false.
Proof. unfold PurePath.suffix. destruct (PurePath.suffix_index _); [apply mem_drop|done]. Qed.

Lemma underscore_mem s t : Str.mem "_" (s +:+ "_" +:+ t) = true.
Proof. rewrite mem_app. apply orb_true_iff. right. done. Qed.

Lemma candidate_valid p n :
  Str.mem "/" (PurePath.name p) = false → valid_name (candidate p n).
Proof.
  intros Hp. unfold candidate. split_and!.
  - intros H. pose proof (underscore_mem (PurePath.stem p) (pretty n +:+ PurePath.suffix p)) as Hu.
    by rewrite H in Hu.
  - intros H. pose proof (underscore_mem (PurePath.stem p) (pretty n +:+ PurePath.suffix p)) as Hu.
    by rewrite H in Hu.
  - rewrite !mem_app, mem_stem, mem_suffix, mem_pretty by done. done.
Qed.

Lemma candidate_inj p : Inj (=) (=) (candidate p).
Proof.
  intros n m H. unfold candidate in H.
  apply (inj (String.app _)) in H. apply (inj (String.app _)) in H.
  apply str_app_inj_r in H. by apply (inj pretty).
Qed.

Lemma candidate_ne_name p n : candidate p n ≠ PurePath.name p.
Proof.
  intros H. apply (f_equal String.length) in H.
  rewrite <-stem_suffix in H. unfold candidate in H.
  rewrite !str_length_app in H. simpl in H. lia.
Qed.
End paths.

Section classification.
Implicit Types (md : Metadata) (r : rule) (routing : dict rule).

Lemma Qltb_false a b : Qltb a b = false ↔ (b <= a)%Q.
Proof. unfold Qltb. rewrite negb_false_iff. apply Qle_bool_iff. Qed.

Lemma extension_gate (e : string) (o : option (list string)) :
  bool_decide (default [] o ≠ []) && negb (bool_decide (e ∈ default [] o))
  = false
  ↔ ∀ exts, o = Some exts → exts ≠ [] → e ∈ exts.
Proof.
  rewrite andb_false_iff, negb_false_iff, bool_decide_eq_false,
    bool_decide_eq_true.
  destruct o as [exts|]; simpl; split.
  - intros [Hn|Hin] ? [= <-] ?; [by destruct Hn|done].
  - intros H. destruct (decide (exts = [])); [left; by intros ?|right; eauto].
  - by intros _ ? [=].
  - intros _. left. by intros ?.
Qed.

Lemma lower_gate (x : Q) (o : option Q) :
  match o with Some lo => Qltb x lo | None => false end = false
  ↔ ∀ lo, o = Some lo → (lo <= x)%Q.
Proof.
  destruct o as [lo|]; [|by split; [intros _ ? [=]|]].
  rewrite Qltb_false. split; [by intros ? ? [= <-]|eauto].
Qed.

Lemma upper_gate (x : Q) (o : option Q) :
  match o with Some hi => Qltb hi x | None => false end = false
  ↔ ∀ hi, o = Some hi → (x <= hi)%Q.
Proof.
  destruct o as [hi|]; [|by split; [intros _ ? [=]|]].
  rewrite Qltb_false. split; [by intros ? ? [= <-]|eauto].
Qed.

Lemma rule_matches_accepts md r : _rule_matches md r = true ↔ rule_accepts md r.
Proof.
  unfold rule_accepts.
  rewrite <-extension_gate, <-lower_gate, <-upper_gate.
  unfold _rule_matches.
  destruct (bool_decide _ && negb _); [by split; [|intros ([=]&_)]|].
  destruct (match rule_min_gb r with Some _ => _ | None => _ end);
    [by split; [|intros (_&[=]&_)]|].
  destruct (match rule_max_gb r with Some _ => _ | None => _ end);
    [by split; [|intros (_&_&[=])]|done].
Qed.

Lemma reserved_mem c : c ∈ ["Others"; "Folders"] ↔ reserved c.
Proof. unfold reserved. rewrite !elem_of_cons, elem_of_nil. tauto. Qed.

Lemma match_category_skipped md routing :
  Forall (skipped md) routing → match_category md routing = "Others".
Proof.
  induction 1 as [|[c r] rest [Hc|Hr] _ IH]; simpl; [done|..].
  - by rewrite bool_decide_true by by apply reserved_mem.
  - case_bool_decide; [done|].
    destruct (_rule_matches md r) eqn:E; [|done].
    by apply rule_matches_accepts in E.
Qed.

Lemma match_category_first md before c r after :
  Forall (skipped md) before → ¬ reserved c → rule_accepts md r →
  match_category md (before ++ (c, r) :: after) = c.
Proof.
  intros Hb Hc Hr. induction Hb as [|[c' r'] rest [Hc'|Hr'] _ IH]; simpl.
  - rewrite bool_decide_false by by rewrite reserved_mem.
    by apply rule_matches_accepts in Hr as ->.
  - by rewrite bool_decide_true by by apply reserved_mem.
  - case_bool_decide; [done|].
    destruct (_rule_matches md r') eqn:E; [|done].
    by apply rule_matches_accepts in E.
Qed.

Lemma match_category_inv md routing :
  (∃ before r after,
      routing = before ++ (match_category md routing, r) :: after
      ∧ ¬ reserved (match_category md routing) ∧ rule_accepts md r
      ∧ Forall (skipped md) before)
  ∨ (match_category md routing = "Others" ∧ Forall (skipped md) routing).
Proof.
  induction routing as [|[c r] rest IH]; simpl; [right; by split|].
  case_bool_decide as Hc.
  { apply reserved_mem in Hc.
    destruct IH as [(before & r' & after & Heq & ? & ? & ?)|[? ?]].
    - left. exists ((c, r) :: before), r', after. split_and!; try done.
      + simpl. by rewrite <-Heq.
      + constructor; [by left|done].
    - right. split; [done|]. constructor; [by left|done]. }
  rewrite reserved_mem in Hc.
  destruct (_rule_matches md r) eqn:E; simpl.
  - left. exists [], r, rest. split_and!; try done. by apply rule_matches_accepts.
  - assert (¬ rule_accepts md r) as Hr.
    { rewrite <-rule_matches_accepts. by rewrite E. }
    destruct IH as [(before & r' & after & Heq & ? & ? & ?)|[? ?]].
    + left. exists ((c, r) :: before), r', after. split_and!; try done.
      * simpl. by rewrite <-Heq.
      * constructor; [by right|done].
    + right. split; [done|]. constructor; [by right|done].
Qed.
End classification.

(** C1. [match_category] walks the mapping in its declared order, passes over
    the reserved names "Others" and "Folders", returns the first category
    whose rule accepts the metadata (membership of the extension when a
    non-empty list is configured, a lower bound and an upper bound on the size
    when configured), and returns "Others" when no category is left; an absent
    or empty extension list accepts every extension and the year flag plays no
    part. *)
Theorem match_category_first_match (md : Metadata) (routing : dict rule) :
  (∀ r, _rule_matches md r = true ↔ rule_accepts md r)
  ∧ (∀ r b, _rule_matches md (with_year b r) = _rule_matches md r)
  ∧ (∀ r e, rule_extensions r = None ∨ rule_extensions r = Some [] →
            _rule_matches (with_extension e md) r = _rule_matches md r)
  ∧ (∀ c, match_category md routing = c ↔
          (∃ before r after,
              routing = before ++ (c, r) :: after
              ∧ ¬ reserved c ∧ rule_accepts md r ∧ Forall (skipped md) before)
          ∨ (c = "Others" ∧ Forall (skipped md) routing)).
Proof.
  split_and!.
  - intros r. apply rule_matches_accepts.
  - done.
  - intros r e [Hr|Hr]; unfold _rule_matches; by rewrite Hr.
  - intros c. split.
    + intros <-. apply match_category_inv.
    + intros [(before & r & after & -> & ? & ? & ?)|[-> ?]].
      * by apply match_category_first.
      * by apply match_category_skipped.
Qed.

(** * The file-system tree *)

Section tree.
Implicit Types (t : gmap (list string) node) (k d ks kd r : list string).

Lemma strip_prefix_Some d k r : Fs.strip_prefix d k = Some r ↔ k = d ++ r.
Proof.
  revert k. induction d as [|x d IH]; intros [|y k]; simpl;
    try (split; congruence).
  case_decide as Hxy; [subst y|]; [|split; congruence].
  rewrite IH. split; congruence.
Qed.

Lemma strip_prefix_None d k :
  Fs.strip_prefix d k = None ↔ ¬ d `prefix_of` k.
Proof.
  split.
  - intros H [r Hr]. apply strip_prefix_Some in Hr. congruence.
  - intros H. destruct (Fs.strip_prefix d k) as [r|] eqn:E; [|done].
    apply strip_prefix_Some in E. destruct H. by exists r.
Qed.

Lemma lookup_key_Some t k n :
  t !! k = Some n → k ≠ [] → Fs.lookup_key t k = Some n.
Proof. intros ? ?. unfold Fs.lookup_key. by rewrite decide_False. Qed.

Lemma lookup_key_None t k :
  Fs.lookup_key t k = None ↔ k ≠ [] ∧ t !! k = None.
Proof.
  unfold Fs.lookup_key. case_decide; [|tauto].
  split; [done|]. by intros [? _].
Qed.

Lemma lookup_subtree ks t r : Fs.subtree ks t !! r = t !! (ks ++ r).
Proof.
  unfold Fs.subtree.
  apply (map_fold_weak_ind (λ acc t, acc !! r = t !! (ks ++ r))); [done|].
  intros k n m acc Hk IH.
  destruct (Fs.strip_prefix ks k) as [r'|] eqn:E.
  - apply strip_prefix_Some in E as ->.
    destruct (decide (r' = r)) as [->|Hne].
    + by rewrite !lookup_insert_eq.
    + rewrite !lookup_insert_ne; [done|..]; [|done].
      intros ?%(inj (app ks)). done.
  - rewrite lookup_insert_ne; [done|].
    intros ->. apply strip_prefix_None in E. destruct E. by exists r.
Qed.

Lemma lookup_rename_to ks kd t r :
  Fs.rename_tree ks kd t !! (kd ++ r) = t !! (ks ++ r).
Proof.
  unfold Fs.rename_tree. rewrite lookup_union, (lookup_kmap (app kd)).
  rewrite lookup_subtree.
  destruct (t !! (ks ++ r)) as [n|]; [by rewrite union_Some_l|].
  rewrite (left_id_L None _).
  apply map_lookup_filter_None. right. intros n _ [_ []]. by exists r.
Qed.

Lemma lookup_rename_other ks kd t k :
  ¬ ks `prefix_of` k → ¬ kd `prefix_of` k →
  Fs.rename_tree ks kd t !! k = t !! k.
Proof.
  intros Hs Hd. unfold Fs.rename_tree. rewrite lookup_union.
  rewrite (proj2 (lookup_kmap_None (app kd) _ k)).
  - rewrite (left_id_L None _).
    destruct (t !! k) as [n|] eqn:E.
    + by apply map_lookup_filter_Some.
    + apply map_lookup_filter_None. by left.
  - intros r ->. destruct Hd. by exists r.
Qed.

Lemma lookup_rename_from ks kd t k :
  ks `prefix_of` k → ¬ kd `prefix_of` k →
  Fs.rename_tree ks kd t !! k = None.
Proof.
  intros Hs Hd. unfold Fs.rename_tree. rewrite lookup_union.
  rewrite (proj2 (lookup_kmap_None (app kd) _ k)).
  - rewrite (left_id_L None _). apply map_lookup_filter_None.
    right. by intros n _ [? _].
  - intros r ->. destruct Hd. by exists r.
Qed.

(** In a well-formed tree the proper ancestors of an entry are
    directories. *)
Lemma wf_ancestor t k n d :
  wf_tree t → t !! k = Some n → d `prefix_of` k → d ≠ k →
  Fs.lookup_key t d = Some Dir.
Proof.
  intros Hwf. revert n.
  induction k as [|x k IH] using rev_ind; intros n Hk [r Hr] Hne.
  { symmetry in Hr. apply app_eq_nil in Hr as [-> _]. done. }
  destruct (Hwf _ _ Hk) as [_ Hp]. rewrite removelast_last in Hp.
  destruct r as [|y r _] using rev_ind.
  { rewrite app_nil_r in Hr. done. }
  rewrite (assoc_L (++)) in Hr. apply app_inj_tail in Hr as [-> ->].
  destruct (decide (r = [])) as [->|Hr].
  { by rewrite app_nil_r in Hp. }
  unfold Fs.lookup_key in Hp. case_decide as Hnil.
  { apply app_eq_nil in Hnil as [_ ->]. done. }
  eapply IH; [done|by exists r|].
  intros Heq. apply Hr. apply (inj (app d)). by rewrite app_nil_r.
Qed.

(** Nothing lies below a path that is absent or a file. *)
Lemma wf_no_children t kd k n :
  wf_tree t → t !! k = Some n → kd `prefix_of` k → k ≠ kd →
  Fs.lookup_key t kd = Some Dir.
Proof. intros. eapply wf_ancestor; eauto. Qed.

Lemma mkdir_go_mono t pre rest t' :
  Fs.mkdir_go t pre rest = Some t' → t ⊆ t'.
Proof.
  revert t pre. induction rest as [|x rest IH]; intros t pre; simpl.
  { by intros [= ->]. }
  destruct (t !! (pre ++ [x])) as [[|]|] eqn:E; [done|apply IH|].
  intros H%IH. etrans; [|done]. by apply insert_subseteq.
Qed.

Lemma mkdir_go_new t pre rest t' k n :
  Fs.mkdir_go t pre rest = Some t' → t' !! k = Some n →
  t !! k = Some n ∨ n = Dir ∧ k `prefix_of` pre ++ rest.
Proof.
  revert t pre. induction rest as [|x rest IH]; intros t pre; simpl.
  { intros [= ->] ?. by left. }
  replace (pre ++ x :: rest) with ((pre ++ [x]) ++ rest)
    by (by rewrite <-(assoc_L (++))).
  destruct (t !! (pre ++ [x])) as [[|]|] eqn:E; [done|apply IH|].
  intros Hgo Hk. destruct (IH _ _ Hgo Hk) as [Hin|?]; [|by right].
  destruct (decide (k = pre ++ [x])) as [->|Hne].
  - rewrite lookup_insert_eq in Hin. injection Hin as <-.
    right. split; [done|]. by exists rest.
  - rewrite lookup_insert_ne in Hin by done. by left.
Qed.

Lemma mkdir_go_dir t pre rest t' :
  Fs.mkdir_go t pre rest = Some t' →
  Fs.lookup_key t pre = Some Dir →
  Fs.lookup_key t' (pre ++ rest) = Some Dir.
Proof.
  revert t pre. induction rest as [|x rest IH]; intros t pre; simpl.
  { intros [= ->]. by rewrite app_nil_r. }
  replace (pre ++ x :: rest) with ((pre ++ [x]) ++ rest)
    by (by rewrite <-(assoc_L (++))).
  destruct (t !! (pre ++ [x])) as [[|]|] eqn:E; [done|..]; intros H _.
  - apply (IH _ _ H). apply lookup_key_Some; [done|]. by destruct pre.
  - apply (IH _ _ H). apply lookup_key_Some; [|by destruct pre].
    by rewrite lookup_insert_eq.
Qed.

Lemma wf_insert_dir t pre x :
  wf_tree t → Fs.lookup_key t pre = Some Dir → t !! (pre ++ [x]) = None →
  wf_tree (<[pre ++ [x] := Dir]> t).
Proof.
  intros Hwf Hpre Hnew. apply map_Forall_insert; [done|]. split.
  - split; [by destruct pre|]. rewrite removelast_last.
    unfold Fs.lookup_key in *. case_decide; [done|].
    rewrite lookup_insert_ne; [done|].
    intros H'. apply (f_equal length) in H'. rewrite length_app in H'.
    simpl in H'. lia.
  - intros k n Hk. destruct (Hwf _ _ Hk) as [Hne Hp]. split; [done|].
    unfold Fs.lookup_key in *. case_decide; [done|].
    rewrite lookup_insert_ne; [done|]. intros Heq. rewrite <-Heq in Hp.
    congruence.
Qed.

Lemma mkdir_go_wf t pre rest t' :
  wf_tree t → Fs.lookup_key t pre = Some Dir →
  Fs.mkdir_go t pre rest = Some t' → wf_tree t'.
Proof.
  revert t pre. induction rest as [|x rest IH]; intros t pre Hwf Hpre; simpl.
  { by intros [= <-]. }
  destruct (t !! (pre ++ [x])) as [[|]|] eqn:E; [done|..]; intros H.
  - eapply IH; [done| |done]. apply lookup_key_Some; [done|by destruct pre].
  - eapply IH; [|  |done].
    + by apply wf_insert_dir.
    + apply lookup_key_Some; [by rewrite lookup_insert_eq|by destruct pre].
Qed.
End tree.

(** * The primitives *)

Ltac prog_unfold :=
  unfold bind, mbind, prog_bind, mret, prog_ret, reads, emit, raise, diverge,
    set_tree, getitem in *.

Section primitives.
Implicit Types (w : world) (p src dst : Path)
  (t : gmap (list string) node).

Lemma children_elem t d x n :
  t !! (d ++ [x]) = Some n → (x, n) ∈ Fs.children t d.
Proof.
  intros H. unfold Fs.children. apply list_elem_of_omap.
  exists (d ++ [x], n). split; [by apply elem_of_map_to_list|].
  simpl. by rewrite (proj2 (strip_prefix_Some d (d ++ [x]) [x])).
Qed.

(** Nothing lies below an empty directory. *)
Lemma children_nil t d k n :
  wf_tree t → Fs.children t d = [] → t !! k = Some n →
  d `prefix_of` k → k = d.
Proof.
  intros Hwf Hc Hk [r ->]. destruct r as [|x r]; [by rewrite app_nil_r|].
  exfalso.
  assert (∃ m, t !! (d ++ [x]) = Some m) as [m Hm].
  { destruct (decide (r = [])) as [->|Hr]; [by eauto|].
    exists Dir.
    pose proof (wf_ancestor t (d ++ x :: r) n (d ++ [x]) Hwf Hk) as Ha.
    unfold Fs.lookup_key in Ha. rewrite decide_False in Ha by by destruct d.
    apply Ha.
    - exists r. by rewrite <-(assoc_L (++)).
    - intros Heq. apply (inj (app d)) in Heq. congruence. }
  apply children_elem in Hm. rewrite Hc in Hm. by apply elem_of_nil in Hm.
Qed.

Lemma mkdir_spec p w r w' :
  Os.mkdir p w = (r, w') →
  cwd w' = cwd w ∧ stdin w' = stdin w ∧ log w' = log w
  ∧ tree w ⊆ tree w'
  ∧ (∀ k n, tree w' !! k = Some n →
            tree w !! k = Some n ∨ n = Dir ∧ k `prefix_of` Fs.key w p)
  ∧ (r = Return () ∧ Fs.is_dir w' p = true
       ∧ (wf_tree (tree w) → wf_tree (tree w'))
     ∨ r = Raise FileExistsError ∧ w' = w).
Proof.
  unfold Os.mkdir. prog_unfold. simpl.
  destruct (Fs.mkdir_go (tree w) [] (Fs.key w p)) as [t|] eqn:E;
    intros ?; simplify_eq; simpl.
  - split_and!; try done; [by eapply mkdir_go_mono| |].
    { intros k n Hk. by apply (mkdir_go_new _ _ _ _ _ _ E Hk). }
    left. split_and!.
    + done.
    + unfold Fs.is_dir, Fs.node_at. simpl.
      change (Fs.key _ p) with ([] ++ Fs.key w p).
      by rewrite (mkdir_go_dir _ _ _ _ E).
    + intros Hwf. exact (mkdir_go_wf _ [] _ _ Hwf eq_refl E).
  - split_and!; try done; [by left|by right].
Qed.

Lemma rename_spec src dst w r w' :
  wf_tree (tree w) → Os.rename src dst w = (r, w') →
  cwd w' = cwd w ∧ stdin w' = stdin w ∧ log w' = log w
  ∧ match r with
    | Diverge => False
    | Raise e => w' = w ∧ is_OSError e = true
    | Return _ =>
        is_Some (Fs.lookup_key (tree w) (Fs.key w src))
        ∧ Fs.lookup_key (tree w') (Fs.key w dst)
          = Fs.lookup_key (tree w) (Fs.key w src)
        ∧ (Fs.lookup_key (tree w) (Fs.key w src) = Some Dir →
           Fs.key w src `prefix_of` Fs.key w dst →
           Fs.key w src = Fs.key w dst)
        ∧ (Fs.key w src ≠ Fs.key w dst → tree w' !! Fs.key w src = None)
        ∧ ∀ k n, tree w !! k = Some n →
                 ¬ Fs.key w src `prefix_of` k → k ≠ Fs.key w dst →
                 tree w' !! k = Some n
    end.
Proof.
  intros Hwf. unfold Os.rename. prog_unfold. simpl.
  set (ks := Fs.key w src). set (kd := Fs.key w dst).
  assert (∀ w'',
    ks ≠ [] → kd ≠ [] →
    (∀ k n, tree w !! k = Some n → kd `prefix_of` k → k = kd) →
    (Fs.lookup_key (tree w) ks = Some Dir → ¬ ks `prefix_of` kd) →
    (Return (), mkWorld (Fs.rename_tree ks kd (tree w)) (cwd w) (stdin w)
                        (log w)) = (r, w'') →
    is_Some (Fs.lookup_key (tree w) ks) →
    cwd w'' = cwd w ∧ stdin w'' = stdin w ∧ log w'' = log w
    ∧ match r with
      | Diverge => False
      | Raise e => w'' = w ∧ is_OSError e = true
      | Return _ =>
          is_Some (Fs.lookup_key (tree w) ks)
          ∧ Fs.lookup_key (tree w'') kd = Fs.lookup_key (tree w) ks
          ∧ (Fs.lookup_key (tree w) ks = Some Dir → ks `prefix_of` kd →
             ks = kd)
          ∧ (ks ≠ kd → tree w'' !! ks = None)
          ∧ ∀ k n, tree w !! k = Some n → ¬ ks `prefix_of` k → k ≠ kd →
                   tree w'' !! k = Some n
      end) as Hgo.
  { intros w'' Hks Hkd Hbelow Hinto [= <- <-] Hsome. simpl.
    split_and!; [done|done|done|done| | | |].
    - unfold Fs.lookup_key at 1 2. rewrite !decide_False by done.
      rewrite <-(app_nil_r kd) at 1. rewrite lookup_rename_to.
      by rewrite app_nil_r.
    - intros Hd Hp. by destruct (Hinto Hd).
    - intros Hne. apply lookup_rename_from; [done|].
      intros Hp. destruct Hsome as [m Hm]. unfold Fs.lookup_key in Hm.
      rewrite decide_False in Hm by done.
      apply Hne. by eapply Hbelow.
    - intros k n Hk Hnp Hne. rewrite lookup_rename_other; [done|done|].
      intros Hp. apply Hne. by eapply Hbelow. }
  destruct (Fs.lookup_key (tree w) ks) as [ns|] eqn:Es; [|by intros ?; simplify_eq].
  case_decide as Heq.
  { intros ?; simplify_eq. split_and!; try done. by rewrite <-Heq, Es. }
  case_bool_decide as Hroot; [by intros ?; simplify_eq|].
  assert (ks ≠ [] ∧ kd ≠ []) as [Hks Hkd] by tauto.
  case_bool_decide as Hparent; simpl; [|by intros ?; simplify_eq].
  destruct ns as [st|], (Fs.lookup_key (tree w) kd) as [[st'|]|] eqn:Ed;
    try (by intros ?; simplify_eq).
  - (* a file replaces a file *)
    intros Hr. apply Hgo; try done.
    intros k n Hk Hp. destruct (decide (k = kd)); [done|].
    assert (kd ≠ k) as Hne by congruence.
    pose proof (wf_ancestor _ _ _ _ Hwf Hk Hp Hne) as Ha. congruence.
  - intros Hr. apply Hgo; try done.
    intros k n Hk Hp. destruct (decide (k = kd)); [done|].
    assert (kd ≠ k) as Hne by congruence.
    pose proof (wf_ancestor _ _ _ _ Hwf Hk Hp Hne) as Ha. congruence.
  - case_bool_decide as Hin; [by intros ?; simplify_eq|].
    case_bool_decide as Hc; [|by intros ?; simplify_eq].
    intros Hr. apply Hgo; try done.
    intros k n Hk Hp. by eapply children_nil.
  - case_bool_decide as Hin; [by intros ?; simplify_eq|].
    intros Hr. apply Hgo; try done.
    intros k n Hk Hp. destruct (decide (k = kd)); [done|].
    assert (kd ≠ k) as Hne by congruence.
    pose proof (wf_ancestor _ _ _ _ Hwf Hk Hp Hne) as Ha. congruence.
Qed.
End primitives.

Section moves.
Implicit Types (w : world) (p src dst : Path)
  (t : gmap (list string) node).

Lemma exists_false w p :
  Fs.exists_ w p = false ↔ Fs.key w p ≠ [] ∧ tree w !! Fs.key w p = None.
Proof.
  unfold Fs.exists_, Fs.node_at. rewrite bool_decide_eq_false.
  rewrite <-lookup_key_None, eq_None_not_Some. done.
Qed.

Lemma exists_true w p :
  Fs.exists_ w p = true → Fs.key w p ≠ [] → is_Some (tree w !! Fs.key w p).
Proof.
  unfold Fs.exists_, Fs.node_at, Fs.lookup_key.
  intros H%bool_decide_eq_true Hk. by rewrite decide_False in H.
Qed.

Lemma lookup_key_weaken t t' k n :
  t ⊆ t' → Fs.lookup_key t k = Some n → Fs.lookup_key t' k = Some n.
Proof.
  unfold Fs.lookup_key. intros Hsub. case_decide; [done|].
  intros H'. by eapply lookup_weaken.
Qed.

(** [shutil.move] towards a path that does not exist. *)
Lemma shutil_move_spec src dst w r w' :
  wf_tree (tree w) → Fs.exists_ w dst = false →
  Os.shutil_move src dst w = (r, w') →
  cwd w' = cwd w ∧ stdin w' = stdin w
  ∧ log w' = log w ++ [Call_move src dst]
  ∧ (∀ k n, tree w !! k = Some n →
            ¬ Fs.key w src `prefix_of` k ∨ r ≠ Return () →
            tree w' !! k = Some n)
  ∧ match r with
    | Diverge => False
    | Raise e => True
    | Return _ =>
        is_Some (Fs.node_at w src) ∧ Fs.node_at w' dst = Fs.node_at w src
        ∧ (Fs.node_at w src = Some Dir →
           ¬ Fs.key w src `prefix_of` Fs.key w dst)
        ∧ tree w' !! Fs.key w src = None
    end.
Proof.
  intros Hwf Hex. pose proof Hex as [Hkd Hnone]%exists_false.
  unfold Os.shutil_move, Os.path_is_dir, Os.path_exists, try_except.
  prog_unfold. simpl.
  set (w0 := mkWorld (tree w) (cwd w) (stdin w) (log w ++ [Call_move src dst])).
  assert (Fs.is_dir w0 dst = false) as ->.
  { unfold Fs.is_dir, Fs.node_at. simpl. change (Fs.key w0 dst) with (Fs.key w dst).
    unfold Fs.lookup_key. rewrite decide_False by done. by rewrite Hnone. }
  simpl.
  destruct (Os.rename src dst w0) as [[[]|e|] w1] eqn:Er;
    pose proof (rename_spec src dst w0 _ _ Hwf Er) as (Hc & Hs & Hl & Hr);
    [| |done].
  - intros ?; simplify_eq.
    destruct Hr as (Hsome & Hdst & Hinto & Hgone & Hoth).
    assert (Fs.key w src ≠ Fs.key w dst) as Hdiff.
    { intros Heq. destruct Hsome as [m Hm].
      change (Fs.key w0 src) with (Fs.key w src) in Hm.
      unfold Fs.lookup_key in Hm. rewrite Heq in Hm.
      rewrite decide_False in Hm by done. simpl in Hm. congruence. }
    split_and!; [done|done|done| |done| | |by apply Hgone].
    + intros k n Hk [Hp|?]; [|done]. apply Hoth; [done|done|].
      change (Fs.key w0 dst) with (Fs.key w dst). congruence.
    + unfold Fs.node_at.
      change (Fs.key w' dst) with ((if is_absolute dst then [] else cwd w') ++ parts dst).
      rewrite Hc. exact Hdst.
    + intros Hd Hp. pose proof (Hinto Hd Hp) as Heq.
      destruct Hsome as [m Hm]. change (Fs.key w0 src) with (Fs.key w src) in *.
      change (Fs.key w0 dst) with (Fs.key w dst) in *.
      unfold Fs.lookup_key in Hm. rewrite Heq in Hm.
      rewrite decide_False in Hm by done. simpl in Hm. congruence.
  - destruct Hr as [-> He]. rewrite He. simpl.
    destruct (Fs.is_dir w0 src) eqn:Esrc; [|by intros ?; simplify_eq].
    case_bool_decide as Hin; [by intros ?; simplify_eq|].
    destruct (Os.mkdir (PurePath.parent dst) w0) as [[[]|e'|] w2] eqn:Em;
      pose proof (mkdir_spec _ _ _ _ Em) as (Hc2 & Hs2 & Hl2 & Hsub & _ & Hm);
      destruct Hm as [(? & _ & Hwf2)|[? ->]]; try done.
    + destruct (Os.rename src dst w2) as [[[]|e''|] w3] eqn:Er2;
        pose proof (rename_spec _ _ _ _ _ (Hwf2 Hwf) Er2)
          as (Hc3 & Hs3 & Hl3 & Hr3); [| |done].
      * intros ?; simplify_eq.
        destruct Hr3 as (Hsome & Hdst & _ & Hgone & Hoth).
        assert (Fs.key w2 src = Fs.key w src) as Hks
          by (unfold Fs.key; by rewrite Hc2).
        assert (Fs.key w2 dst = Fs.key w dst) as Hkd'
          by (unfold Fs.key; by rewrite Hc2).
        rewrite Hks, Hkd' in *.
        assert (Fs.node_at w src = Some Dir) as Hsrc.
        { unfold Fs.is_dir in Esrc. change (Fs.node_at w0 src) with (Fs.node_at w src) in Esrc.
          by destruct (Fs.node_at w src) as [[]|]. }
        split_and!.
        -- by rewrite Hc3, Hc2.
        -- by rewrite Hs3, Hs2.
        -- by rewrite Hl3, Hl2.
        -- intros k n Hk [Hp|?]; [|done]. apply Hoth; [|done|congruence].
           by eapply lookup_weaken.
        -- by rewrite Hsrc.
        -- unfold Fs.node_at.
           assert (Fs.key w' dst = Fs.key w dst) as ->
             by (unfold Fs.key; by rewrite Hc3, Hc2).
           rewrite Hdst. unfold Fs.node_at in Hsrc. rewrite Hsrc.
           by eapply lookup_key_weaken.
        -- intros _. exact Hin.
        -- apply Hgone. intros Heq.
           unfold Fs.node_at, Fs.lookup_key in Hsrc. rewrite Heq in Hsrc.
           rewrite decide_False in Hsrc by done. congruence.
      * intros ?; simplify_eq. destruct Hr3 as [-> _].
        split_and!; try done.
        intros k n Hk _. by eapply lookup_weaken.
    + intros ?; simplify_eq. split_and!; done.
Qed.

Lemma collision_loop_spec fuel dest_dir stem suffix c w r w' :
  collision_loop fuel dest_dir stem suffix c w = (r, w') →
  w' = w
  ∧ match r with
    | Return dest =>
        ∃ n, c ≤ n < c + fuel
             ∧ dest = dest_dir /: (stem +:+ "_" +:+ pretty n +:+ suffix)
             ∧ Fs.exists_ w dest = false
             ∧ ∀ m, c ≤ m < n →
                 Fs.exists_ w (dest_dir /: (stem +:+ "_" +:+ pretty m
                                                 +:+ suffix)) = true
    | Raise _ => False
    | Diverge =>
        ∀ m, c ≤ m < c + fuel →
             Fs.exists_ w (dest_dir /: (stem +:+ "_" +:+ pretty m
                                             +:+ suffix)) = true
    end.
Proof.
  revert c. induction fuel as [|fuel IH]; intros c; simpl.
  { unfold diverge. intros ?; simplify_eq. split; [done|]. intros m ?. lia. }
  unfold Os.path_exists. prog_unfold. simpl.
  destruct (Fs.exists_ w _) eqn:Ex; simpl.
  - intros [-> Hr]%IH. split; [done|].
    destruct r as [dest|e|]; [|done|].
    + destruct Hr as (n & Hn & -> & Hfree & Hbusy).
      exists n. split_and!; [lia|lia|done|done|].
      intros m Hm. destruct (decide (m = c)) as [->|]; [done|].
      apply Hbusy. lia.
    + intros m Hm. destruct (decide (m = c)) as [->|]; [done|].
      apply Hr. lia.
  - intros ?; simplify_eq. split; [done|].
    exists c. split_and!; [lia|lia|done|done|]. intros m ?. lia.
Qed.

(** The candidate names cannot all be taken: they are distinct and the
    tree is finite. *)
Lemma candidates_exhaust w dest_dir src :
  Str.mem "/" (PurePath.name src) = false →
  ¬ ∀ m, 1 ≤ m < 1 + S (size (tree w)) →
         Fs.exists_ w (dest_dir /: candidate src m) = true.
Proof.
  intros Hname Hall.
  set (f := λ m, Fs.key w dest_dir ++ [candidate src m]).
  set (ms := seq 1 (S (size (tree w)))).
  assert (Inj (=) (=) f) as Hinj.
  { intros m1 m2 Hf. apply (inj (app _)) in Hf.
    injection Hf as Hf. by apply candidate_inj in Hf. }
  assert (NoDup (f <$> ms)) as Hnd.
  { apply NoDup_fmap; [done|apply NoDup_seq]. }
  assert (list_to_set (f <$> ms) ⊆ dom (tree w)) as Hsub.
  { intros k Hk. apply elem_of_list_to_set, list_elem_of_fmap in Hk.
    destruct Hk as (m & -> & Hm). apply elem_of_seq in Hm. apply elem_of_dom.
    specialize (Hall m ltac:(lia)).
    rewrite truediv_valid in Hall by by apply candidate_valid.
    apply exists_true in Hall.
    - by rewrite key_snoc in Hall.
    - rewrite key_snoc. by destruct (Fs.key w _). }
  apply subseteq_size in Hsub.
  rewrite size_list_to_set, size_dom, length_fmap in Hsub by done.
  unfold ms in Hsub. rewrite length_seq in Hsub. lia.
Qed.
End moves.

Section safe_move.
Implicit Types (w : world) (p src dst : Path)
  (t : gmap (list string) node).

Lemma key_truediv w p s :
  Str.mem "/" s = false → ∃ r, Fs.key w (p /: s) = Fs.key w p ++ r.
Proof.
  intros Hs. unfold PurePath.truediv, PurePath.joinpath, PurePath.of_string.
  rewrite startswith_slash by done. simpl. unfold Fs.key. simpl.
  eexists. by rewrite (assoc_L (++)).
Qed.

Lemma key_cwd w w' p : cwd w' = cwd w → Fs.key w' p = Fs.key w p.
Proof. unfold Fs.key. by intros ->. Qed.

Lemma candidate_mem src n :
  Str.mem "/" (PurePath.name src) = false →
  Str.mem "/" (candidate src n) = false.
Proof. intros H. by destruct (candidate_valid src n H) as (_ & _ & ?). Qed.

Lemma safe_move_spec src dest_dir w r w' :
  wf_tree (tree w) → Str.mem "/" (PurePath.name src) = false →
  safe_move src dest_dir w = (r, w') →
  cwd w' = cwd w ∧ stdin w' = stdin w
  ∧ (∀ k n, tree w !! k = Some n →
            ¬ Fs.key w src `prefix_of` k ∨ (∀ d, r ≠ Return d) →
            tree w' !! k = Some n)
  ∧ match r with
    | Diverge => False
    | Raise e =>
        log w' = log w ∨ ∃ dest, log w' = log w ++ [Call_move src dest]
    | Return dest =>
        log w' = log w ++ [Call_move src dest]
        ∧ Fs.exists_ w dest = false
        ∧ is_Some (Fs.node_at w src)
        ∧ Fs.node_at w' dest = Fs.node_at w src
        ∧ tree w' !! Fs.key w src = None
        ∧ ∃ w1, Os.mkdir dest_dir w = (Return (), w1)
                ∧ chosen src dest_dir dest w1
    end.
Proof.
  intros Hwf Hname. unfold safe_move, bind, mbind, prog_bind.
  destruct (Os.mkdir dest_dir w) as [[[]|e|] w1] eqn:Em;
    pose proof (mkdir_spec _ _ _ _ Em) as (Hc1 & Hs1 & Hl1 & Hsub & Hnew & Hm);
    destruct Hm as [(? & Hdir & Hwf1)|[? ->]]; simplify_eq.
  2:{ intros ?; simplify_eq. split_and!; try done. by left. }
  specialize (Hwf1 Hwf).
  (* the destination that is handed to [shutil.move] *)
  assert (∀ dest r2 w2,
    chosen src dest_dir dest w1 →
    (∃ s, dest = dest_dir /: s ∧ Str.mem "/" s = false) →
    Os.shutil_move src dest w1 = (r2, w2) →
    (match r2 with
     | Return _ => (Return dest, w2)
     | Raise e => (Raise e, w2)
     | Diverge => (Diverge, w2)
     end) = (r, w') →
    cwd w' = cwd w ∧ stdin w' = stdin w
    ∧ (∀ k n, tree w !! k = Some n →
              ¬ Fs.key w src `prefix_of` k ∨ (∀ d, r ≠ Return d) →
              tree w' !! k = Some n)
    ∧ match r with
      | Diverge => False
      | Raise e =>
          log w' = log w ∨ ∃ dest, log w' = log w ++ [Call_move src dest]
      | Return dest =>
          log w' = log w ++ [Call_move src dest]
          ∧ Fs.exists_ w dest = false
          ∧ is_Some (Fs.node_at w src)
          ∧ Fs.node_at w' dest = Fs.node_at w src
          ∧ tree w' !! Fs.key w src = None
          ∧ ∃ w1, Os.mkdir dest_dir w = (Return (), w1)
                  ∧ chosen src dest_dir dest w1
      end) as Hmove.
  { intros dest r2 w2 Hch (s & Hs & Hsm) Hmv Hres.
    pose proof Hch as [Hfree _].
    pose proof (shutil_move_spec _ _ _ _ _ Hwf1 Hfree Hmv)
      as (Hc2 & Hs2 & Hl2 & Hpres & Hr2).
    assert (Fs.exists_ w dest = false) as Hfree0.
    { apply exists_false. apply exists_false in Hfree as [Hk Hn].
      rewrite (key_cwd w w1) in * by done. split; [done|].
      destruct (tree w !! Fs.key w dest) eqn:E; [|done].
      by rewrite (lookup_weaken _ _ _ _ E Hsub) in Hn. }
    destruct r2 as [[]|e|]; [| |done]; simplify_eq.
    - destruct Hr2 as (Hsome & Hat & Hinto & Hgone).
      rewrite (key_cwd w w1 src) in Hgone by done.
      assert (Fs.node_at w1 src = Fs.node_at w src) as Hsrc.
      { unfold Fs.node_at in *. rewrite (key_cwd w w1) in * by done.
        unfold Fs.lookup_key in *. case_decide as Hnil; [done|].
        destruct Hsome as [m Hm]. rewrite Hm.
        destruct (Hnew _ _ Hm) as [?|[-> Hp]]; [done|].
        exfalso. apply (Hinto Hm).
        rewrite (key_cwd w w1 (dest_dir /: s)) by done.
        destruct (key_truediv w dest_dir s Hsm) as [rest ->].
        by apply prefix_app_r. }
      split_and!; try congruence.
      + intros k n Hk [Hp|Hno]; [|by destruct (Hno (dest_dir /: s))].
        apply Hpres; [by eapply lookup_weaken|].
        left. by rewrite (key_cwd w w1).
      + by exists w1.
    - split_and!; try congruence.
      + intros k n Hk _. apply Hpres; [by eapply lookup_weaken|by right].
      + right. exists (dest_dir /: s). congruence. }
  rewrite Em in Hmove. unfold Os.path_exists, reads.
  destruct (Fs.exists_ w1 (dest_dir /: PurePath.name src)) eqn:Ex.
  - (* the name is taken: the loop looks for a free one *)
    destruct (collision_loop _ _ _ _ _ w1) as [[dest|e|] w1'] eqn:El;
      pose proof (collision_loop_spec _ _ _ _ _ _ _ _ El) as [-> Hloop].
    + destruct Hloop as (n & Hn & -> & Hfree & Hbusy).
      destruct (Os.shutil_move src _ w1) as [r2 w2] eqn:Hmv.
      intros Hres. eapply (Hmove _ r2 w2); [| |done|].
      * split; [done|]. right. exists n. split_and!; [lia|done|done|done].
      * exists (candidate src n). split; [done|by apply candidate_mem].
      * by destruct r2 as [[]|e|].
    + done.
    + by destruct (candidates_exhaust w1 dest_dir src Hname).
  - unfold mret, prog_ret.
    destruct (Os.shutil_move src _ w1) as [r2 w2] eqn:Hmv.
    intros Hres. eapply (Hmove _ r2 w2); [| |done|].
    + split; [done|by left].
    + by exists (PurePath.name src).
    + by destruct r2 as [[]|e|].
Qed.
End safe_move.

Section progress.
Implicit Types (w : world) (p src dst : Path)
  (t : gmap (list string) node).

Lemma mkdir_go_exists t pre rest :
  wf_tree t → Fs.lookup_key t (pre ++ rest) = Some Dir →
  Fs.mkdir_go t pre rest = Some t.
Proof.
  intros Hwf. revert pre. induction rest as [|x rest IH]; intros pre Hd;
    simpl; [done|].
  assert (t !! (pre ++ [x]) = Some Dir) as ->.
  { unfold Fs.lookup_key in Hd.
    rewrite decide_False in Hd by by destruct pre.
    destruct (decide (rest = [])) as [->|Hr]; [done|].
    pose proof (wf_ancestor t _ Dir (pre ++ [x]) Hwf Hd) as Ha.
    unfold Fs.lookup_key in Ha.
    rewrite decide_False in Ha by by destruct pre.
    apply Ha.
    - exists rest. by rewrite <-(assoc_L (++)).
    - intros Heq. apply (inj (app pre)) in Heq. congruence. }
  apply IH. by rewrite <-(assoc_L (++)).
Qed.

Lemma world_eta w : mkWorld (tree w) (cwd w) (stdin w) (log w) = w.
Proof. by destruct w. Qed.

(** Creating a directory that exists changes nothing. *)
Lemma mkdir_existing p w :
  wf_tree (tree w) → Fs.is_dir w p = true → Os.mkdir p w = (Return (), w).
Proof.
  intros Hwf Hd. unfold Os.mkdir. prog_unfold. simpl.
  rewrite mkdir_go_exists; [by rewrite world_eta|done|].
  unfold Fs.is_dir, Fs.node_at in Hd. simpl.
  by destruct (Fs.lookup_key _ _) as [[]|].
Qed.

(** A regular file moves to a free name in an existing directory. *)
Lemma shutil_move_file_ok src dst w st :
  Fs.node_at w src = Some (File st) → Fs.exists_ w dst = false →
  Fs.lookup_key (tree w) (removelast (Fs.key w dst)) = Some Dir →
  ∃ w', Os.shutil_move src dst w = (Return (), w').
Proof.
  intros Hsrc [Hkd Hnone]%exists_false Hparent.
  unfold Os.shutil_move, Os.path_is_dir, Os.path_exists, try_except,
    Os.rename.
  prog_unfold. simpl.
  set (w0 := mkWorld (tree w) (cwd w) (stdin w) (log w ++ [Call_move src dst])).
  change (Fs.key w0 ?p) with (Fs.key w p).
  assert (Fs.is_dir w0 dst = false) as ->.
  { unfold Fs.is_dir, Fs.node_at. simpl. change (Fs.key w0 dst) with (Fs.key w dst).
    unfold Fs.lookup_key. rewrite decide_False by done. by rewrite Hnone. }
  simpl. change (Fs.key w0 src) with (Fs.key w src).
  change (Fs.key w0 dst) with (Fs.key w dst).
  unfold Fs.node_at in Hsrc. rewrite Hsrc.
  assert (Fs.key w src ≠ []) as Hks.
  { intros Heq. rewrite Heq in Hsrc. done. }
  rewrite decide_False.
  2:{ intros Heq. rewrite Heq in Hsrc. unfold Fs.lookup_key in Hsrc.
      rewrite decide_False in Hsrc by done. congruence. }
  rewrite bool_decide_false by tauto.
  rewrite bool_decide_true by done. simpl.
  unfold Fs.lookup_key at 1. rewrite decide_False by done. rewrite Hnone.
  eauto.
Qed.
End progress.

Section in_place.
Implicit Types (w : world) (p src dst : Path).

Lemma parts_snoc src :
  parts src ≠ [] →
  parts src = parts (PurePath.parent src) ++ [PurePath.name src].
Proof.
  unfold PurePath.parent, PurePath.name. simpl. intros Hne.
  destruct (parts src) as [|x l _] using rev_ind; [done|].
  by rewrite removelast_last, last_snoc.
Qed.

Lemma key_parent w src :
  parts src ≠ [] →
  Fs.key w src = Fs.key w (PurePath.parent src) ++ [PurePath.name src].
Proof.
  intros Hne. unfold Fs.key. rewrite (parts_snoc src Hne) at 1.
  simpl. by rewrite (assoc_L (++)).
Qed.

Lemma key_truediv_valid w p s :
  valid_name s → Fs.key w (p /: s) = Fs.key w p ++ [s].
Proof.
  intros Hs. rewrite truediv_valid by done. destruct p. apply key_snoc.
Qed.

Lemma wf_path_name_mem src :
  wf_path src → Str.mem "/" (PurePath.name src) = false.
Proof.
  intros Hwf. destruct (decide (parts src = [])) as [Hnil|Hne].
  - unfold PurePath.name. by rewrite Hnil.
  - by destruct (name_valid src Hwf Hne) as (_ & _ & ?).
Qed.

(** A file that is moved into the directory it already lies in is renamed
    there. *)
Lemma safe_move_in_place_spec w src dest_dir :
  wf_tree (tree w) → wf_path src → parts src ≠ [] →
  Fs.is_file w src = true →
  Fs.key w dest_dir = Fs.key w (PurePath.parent src) →
  ∃ n w',
    1 ≤ n
    ∧ safe_move src dest_dir w = (Return (dest_dir /: candidate src n), w')
    ∧ Fs.exists_ w (dest_dir /: candidate src n) = false
    ∧ (∀ m, 1 ≤ m < n →
            Fs.exists_ w (dest_dir /: candidate src m) = true)
    ∧ Fs.key w (dest_dir /: candidate src n)
      = Fs.key w (PurePath.parent src) ++ [candidate src n]
    ∧ Fs.node_at w' (dest_dir /: candidate src n) = Fs.node_at w src
    ∧ Fs.node_at w' src = None
    ∧ log w' = log w ++ [Call_move src (dest_dir /: candidate src n)]
    ∧ (∀ k nd, tree w !! k = Some nd → k ≠ Fs.key w src →
               tree w' !! k = Some nd).
Proof.
  intros Hwf Hsrc Hne Hfile Hdir.
  pose proof (wf_path_name_mem src Hsrc) as Hmem.
  pose proof (name_valid src Hsrc Hne) as Hname.
  assert (∃ st, Fs.node_at w src = Some (File st)) as [st Hst].
  { unfold Fs.is_file in Hfile. destruct (Fs.node_at w src) as [[]|]; eauto; done. }
  assert (Fs.key w src ≠ [] ∧ tree w !! Fs.key w src = Some (File st))
    as [Hks Hin].
  { unfold Fs.node_at, Fs.lookup_key in Hst. by case_decide. }
  assert (Fs.is_dir w dest_dir = true) as Hisdir.
  { destruct (Hwf _ _ Hin) as [_ Hp].
    rewrite (key_parent w src Hne), removelast_last, <-Hdir in Hp.
    unfold Fs.is_dir, Fs.node_at. by rewrite Hp. }
  assert (Fs.exists_ w (dest_dir /: PurePath.name src) = true) as Hex.
  { unfold Fs.exists_, Fs.node_at. apply bool_decide_eq_true.
    rewrite key_truediv_valid, Hdir, <-key_parent by done.
    fold (Fs.node_at w src). by rewrite Hst. }
  destruct (safe_move src dest_dir w) as [r w'] eqn:Emove.
  pose proof (safe_move_spec _ _ _ _ _ Hwf Hmem Emove)
    as (Hc & Hs & Hpres & Hr).
  revert Emove. unfold safe_move, bind, mbind, prog_bind.
  rewrite (mkdir_existing _ _ Hwf Hisdir).
  unfold Os.path_exists, reads. rewrite Hex.
  destruct (collision_loop _ _ _ _ _ w) as [[dest|e|] w1] eqn:El;
    pose proof (collision_loop_spec _ _ _ _ _ _ _ _ El) as [-> Hloop];
    [|done|by destruct (candidates_exhaust w dest_dir src Hmem)].
  destruct Hloop as (n & Hn & -> & Hfree & Hbusy).
  fold (candidate src n) in *.
  pose proof (candidate_valid src n Hmem) as Hcand.
  destruct (shutil_move_file_ok src (dest_dir /: candidate src n) w st)
    as [w2 ->]; [done|done| |].
  { rewrite key_truediv_valid, removelast_last by done.
    unfold Fs.is_dir, Fs.node_at in Hisdir.
    by destruct (Fs.lookup_key _ _) as [[]|]. }
  intros [= <- <-]. destruct Hr as (Hlog & _ & _ & Hat & Hgone & _).
  exists n, w2. split_and!; try done; [lia| | |].
  - by rewrite key_truediv_valid, Hdir.
  - unfold Fs.node_at, Fs.lookup_key. rewrite (key_cwd w w2) by done.
    by rewrite decide_False.
  - intros k nd Hk Hnek. apply Hpres; [done|]. left.
    intros Hp. apply Hnek.
    destruct (decide (k = Fs.key w src)) as [|Hd]; [done|].
    assert (Fs.key w src ≠ k) as Hd' by congruence.
    pose proof (wf_ancestor _ _ _ _ Hwf Hk Hp Hd') as Ha.
    unfold Fs.lookup_key in Ha. rewrite decide_False in Ha by done.
    congruence.
Qed.
End in_place.

Section sort_file.
Implicit Types (w : world) (p src dst filepath : Path) (md : Metadata).

Lemma pretty_valid (n : nat) : valid_name (pretty n).
Proof.
  split_and!.
  - apply pretty_nonempty.
  - intros H. pose proof (mem_pretty_digit "." n dot_not_digit) as Hm.
    by rewrite H in Hm.
  - apply mem_pretty.
Qed.

Lemma upper_nonempty s : s ≠ "" → Str.upper s ≠ "".
Proof. by destruct s. Qed.

Lemma type_folder_valid filepath st :
  Str.mem "/" (PurePath.name filepath) = false →
  valid_name (type_folder (metadata_of_stat filepath st)).
Proof.
  intros Hname. unfold type_folder. simpl.
  set (ext := Str.lstrip "." (Str.lower (PurePath.suffix filepath))).
  case_bool_decide as Hext; [|done].
  split_and!.
  - by apply upper_nonempty.
  - destruct ext as [|a t] eqn:E; [done|].
    intros H. unfold Str.upper in H. simpl in H.
    injection H as Ha Ht. apply upper_char_dot in Ha.
    by apply lstrip_head in E.
  - by apply mem_upper, mem_lstrip, mem_lower, mem_suffix.
Qed.

Lemma sort_file_dest_dir_planned rules path md base_dir :
  valid_name (type_folder md) →
  sort_file_dest_dir rules path md base_dir
  = planned_dir rules path md base_dir.
Proof.
  intros Hty. unfold sort_file_dest_dir, planned_dir.
  fold (type_folder md).
  generalize (PurePath.of_string path). intros [a l].
  destruct (rule_year rules), (rule_file_type rules);
    rewrite ?truediv_valid by (done || apply pretty_valid); simpl;
    rewrite <-?(assoc_L (++)), ?app_nil_r; simpl;
    destruct base_dir as [base|]; try done;
    unfold PurePath.joinpath; simpl; by destruct a.
Qed.

Lemma stat_file filepath w st :
  Fs.node_at w filepath = Some (File st) →
  get_file_metadata filepath w = (Return (metadata_of_stat filepath st), w).
Proof.
  intros H. unfold get_file_metadata, Os.stat. prog_unfold. by rewrite H.
Qed.

Lemma is_file_node w p :
  Fs.is_file w p = true ↔ ∃ st, Fs.node_at w p = Some (File st).
Proof.
  unfold Fs.is_file. destruct (Fs.node_at w p) as [[st|]|]; split;
    try done; eauto; by intros [? [=]].
Qed.

Lemma sort_file_not_file filepath config base_dir w :
  Fs.is_file w filepath = false →
  sort_file filepath config base_dir w = (Raise (ValueError "Not a file"), w).
Proof.
  intros H. unfold sort_file, Os.path_is_file. prog_unfold. by rewrite H.
Qed.

(** [sort_file] on a regular file, step by step. *)
Lemma sort_file_file filepath config base_dir w st :
  Fs.node_at w filepath = Some (File st) →
  sort_file filepath config base_dir w =
    let md := metadata_of_stat filepath st in
    let category := match_category md (routing config) in
    match dict_get (routing config) category with
    | None => (Raise (KeyError category), w)
    | Some rules =>
        match rule_path rules with
        | None => (Raise (KeyError "path"), w)
        | Some path =>
            match safe_move filepath
                    (sort_file_dest_dir rules path md base_dir) w with
            | (Return final, w') => (Return (category, final), w')
            | (Raise e, w') => (Raise e, w')
            | (Diverge, w') => (Diverge, w')
            end
        end
    end.
Proof.
  intros H. unfold sort_file, Os.path_is_file.
  unfold bind at 1, mbind at 1, prog_bind at 1, reads.
  rewrite (proj2 (is_file_node w filepath)) by eauto. simpl.
  unfold bind at 1, mbind at 1, prog_bind at 1.
  rewrite (stat_file _ _ _ H). simpl.
  unfold bind, mbind, prog_bind, getitem.
  destruct (dict_get _ _) as [rules|]; [|done]. simpl.
  destruct (rule_path rules) as [path|]; [|done]. simpl.
  by destruct (safe_move _ _ w) as [[final|e|] w'].
Qed.

(** The parent of what [safe_move] returns is the directory it was given. *)
Lemma chosen_parent src dest_dir dest w w1 :
  Str.mem "/" (PurePath.name src) = false →
  Os.mkdir dest_dir w = (Return (), w1) →
  chosen src dest_dir dest w1 →
  PurePath.parent dest = dest_dir
  ∧ (PurePath.name dest = PurePath.name src
     ∨ ∃ n, 1 ≤ n ∧ PurePath.name dest = candidate src n).
Proof.
  intros Hname Hmk [Hfree Hch].
  pose proof (mkdir_spec _ _ _ _ Hmk) as (_ & _ & _ & _ & _ & Hm).
  destruct Hm as [(_ & Hdir & _)|[? _]]; [|done].
  destruct Hch as [->|(n & Hn & -> & _)].
  - destruct (decide (PurePath.name src = "")) as [Hempty|Hne].
    { exfalso. rewrite Hempty in Hfree. revert Hfree.
      unfold Fs.exists_, Fs.is_dir, Fs.node_at in *.
      replace (Fs.key w1 (dest_dir /: "")) with (Fs.key w1 dest_dir).
      - destruct (Fs.lookup_key _ _); [|done]. intros H.
        apply bool_decide_eq_false in H. destruct H. eauto.
      - unfold Fs.key, PurePath.truediv, PurePath.joinpath. simpl.
        by rewrite app_nil_r. }
    destruct (decide (PurePath.name src = ".")) as [Hdot|Hnd].
    { exfalso. rewrite Hdot in Hfree. revert Hfree.
      unfold Fs.exists_, Fs.is_dir, Fs.node_at in *.
      replace (Fs.key w1 (dest_dir /: ".")) with (Fs.key w1 dest_dir).
      - destruct (Fs.lookup_key _ _); [|done]. intros H.
        apply bool_decide_eq_false in H. destruct H. eauto.
      - unfold Fs.key, PurePath.truediv, PurePath.joinpath. simpl.
        by rewrite app_nil_r. }
    rewrite truediv_valid by done.
    rewrite parent_snoc, name_snoc. split; [by destruct dest_dir|by left].
  - rewrite truediv_valid by by apply candidate_valid.
    rewrite parent_snoc, name_snoc. split; [by destruct dest_dir|].
    right. by exists n.
Qed.
End sort_file.

Section years.
Implicit Types (w : world) (p src dst filepath : Path) (md : Metadata).

Lemma year_four_digits (y : nat) :
  (1000 ≤ Z.of_nat y ≤ 9999)%Z → String.length (pretty y) = 4.
Proof.
  intros Hy.
  assert (forallb (λ y, String.length (pretty y) =? 4)
                  (seq 1000 (9 * 1000)) = true)
    as Hall by (vm_compute; reflexivity).
  rewrite forallb_forall in Hall.
  apply Nat.eqb_eq, Hall, in_seq. lia.
Qed.
End years.

Section planning.
Implicit Types (w : world) (p src dst filepath : Path) (md : Metadata).

Lemma planned_dir_parts rules path md base_dir :
  ∃ l, parts (planned_dir rules path md base_dir)
       = l ++ (if rule_year rules then [pretty (year md)] else [])
           ++ (if rule_file_type rules then [type_folder md] else []).
Proof.
  unfold planned_dir.
  set (sub := (if rule_year rules then _ else _) ++ _).
  destruct base_dir as [base|]; cbn [parts is_absolute].
  - destruct (is_absolute (PurePath.of_string path)); cbn [parts].
    + by exists (parts (PurePath.of_string path)).
    + exists (parts base ++ parts (PurePath.of_string path)).
      by rewrite (assoc_L (++)).
  - by exists (parts (PurePath.of_string path)).
Qed.

(** What a successful [sort_file] has done. *)
Lemma sort_file_spec w filepath config base_dir category final w' :
  wf_tree (tree w) → wf_path filepath →
  sort_file filepath config base_dir w = (Return (category, final), w') →
  ∃ st rules path,
    Fs.node_at w filepath = Some (File st)
    ∧ category = match_category (metadata_of_stat filepath st) (routing config)
    ∧ dict_get (routing config) category = Some rules
    ∧ rule_path rules = Some path
    ∧ safe_move filepath
        (planned_dir rules path (metadata_of_stat filepath st) base_dir) w
      = (Return final, w')
    ∧ PurePath.parent final
      = planned_dir rules path (metadata_of_stat filepath st) base_dir
    ∧ Fs.node_at w' final = Some (File st).
Proof.
  intros Hwf Hpath Hsort.
  pose proof (wf_path_name_mem _ Hpath) as Hmem.
  destruct (Fs.is_file w filepath) eqn:Hfile.
  2:{ by rewrite sort_file_not_file in Hsort. }
  apply is_file_node in Hfile as [st Hst].
  rewrite (sort_file_file _ _ _ _ _ Hst) in Hsort. simpl in Hsort.
  destruct (dict_get _ _) as [rules|] eqn:Hrules; [|done].
  destruct (rule_path rules) as [path|] eqn:Hrpath; [|done].
  rewrite sort_file_dest_dir_planned in Hsort by by apply type_folder_valid.
  destruct (safe_move _ _ w) as [[final'|e|] w''] eqn:Hmove; [|done..].
  injection Hsort as <- <- <-.
  pose proof (safe_move_spec _ _ _ _ _ Hwf Hmem Hmove)
    as (_ & _ & _ & _ & _ & _ & Hat & _ & w1 & Hmk & Hch).
  destruct (chosen_parent _ _ _ _ _ Hmem Hmk Hch) as [Hparent _].
  exists st, rules, path. split_and!; try done. by rewrite Hat.
Qed.
End planning.

(** C7. A file that [sort_file] routes is a regular file; its category is the
    one [match_category] selects; the destination directory starts from the
    configured path of that category, continues with a subfolder named by the
    creation year when the rule's year flag is set (four digits for the years
    1000 to 9999), then with a subfolder named by the upper-case extension
    without its dot, or UNKNOWN for a file without extension, when the
    file_type flag is set, and is resolved against the base directory when it
    is relative and a base was supplied. With the year flag and a file of 2023
    the directory ends in 2023; with both flags and the extension .jpg it ends
    in 2023/JPG. *)
Theorem sort_file_destination (w : world) (filepath : Path) (config : config)
    (base_dir : option Path) (category : string) (final : Path) (w' : world) :
  wf_tree (tree w) → wf_path filepath →
  sort_file filepath config base_dir w = (Return (category, final), w') →
  ∃ st rules path,
    let md := metadata_of_stat filepath st in
    Fs.node_at w filepath = Some (File st)
    ∧ category = match_category md (routing config)
    ∧ dict_get (routing config) category = Some rules
    ∧ rule_path rules = Some path
    ∧ PurePath.parent final = planned_dir rules path md base_dir
    ∧ Fs.node_at w' final = Some (File st)
    ∧ ((1000 ≤ Z.of_nat (year md) ≤ 9999)%Z →
       String.length (pretty (year md)) = 4)
    ∧ (extension md = "" → type_folder md = "UNKNOWN")
    ∧ (extension md = ".jpg" → type_folder md = "JPG")
    ∧ (rule_year rules = true → rule_file_type rules = false →
       year md = 2023 →
       ∃ l, parts (PurePath.parent final) = l ++ ["2023"])
    ∧ (rule_year rules = true → rule_file_type rules = true →
       year md = 2023 → extension md = ".jpg" →
       ∃ l, parts (PurePath.parent final) = l ++ ["2023"; "JPG"]).
Proof.
  intros Hwf Hpath Hsort.
  destruct (sort_file_spec _ _ _ _ _ _ _ Hwf Hpath Hsort)
    as (st & rules & path & Hst & Hcat & Hrules & Hrpath & _ & Hparent & Hat).
  exists st, rules, path. cbv zeta. split_and!; try done.
  - apply year_four_digits.
  - intros Hext. unfold type_folder. by rewrite Hext.
  - intros Hext. unfold type_folder. by rewrite Hext.
  - intros Hy Ht Hyear. rewrite Hparent.
    destruct (planned_dir_parts rules path (metadata_of_stat filepath st)
                base_dir) as [l ->].
    rewrite Hy, Ht, Hyear. by exists l.
  - intros Hy Ht Hyear Hext. rewrite Hparent.
    destruct (planned_dir_parts rules path (metadata_of_stat filepath st)
                base_dir) as [l ->].
    rewrite Hy, Ht, Hyear. unfold type_folder. rewrite Hext. by exists l.
Qed.

Lemma sort_file_destination_witness :
  ∃ l, parts (PurePath.of_string "/dest/img/2023/JPG") = l ++ ["2023"; "JPG"].
Proof.
  destruct (sort_file_destination inbox (PurePath.of_string "/in/photo.JPG")
              pictures None "Images"
              (PurePath.of_string "/dest/img/2023/JPG/photo.JPG")
              (sort_file (PurePath.of_string "/in/photo.JPG") pictures None
                         inbox).2)
    as (st & rules & path & Hst & _ & Hrules & _ & Hparent & _ & _ & _ & _
        & _ & Hboth).
  - compute_done.
  - compute_done.
  - vm_compute. reflexivity.
  - injection Hst as <-. injection Hrules as <-.
    exact (Hboth eq_refl eq_refl eq_refl eq_refl).
Defined.

(** C10. A file whose parent directory already is the destination directory
    is not left where it is: the candidate path is the file itself, so the
    collision loop takes over and [safe_move] renames the file, inside its
    directory, to [<stem>_<n><suffix>] for the least [n >= 1] whose name is
    free. A sync pass therefore renames a file that already lies in the
    directory planned for it, and it does not count it as re-routed. *)
Theorem safe_move_renames_in_place (w : world) (src dest_dir : Path) :
  wf_tree (tree w) → wf_path src → parts src ≠ [] →
  Fs.is_file w src = true →
  Fs.key w dest_dir = Fs.key w (PurePath.parent src) →
  ∃ n w',
    let dest := dest_dir /: candidate src n in
    1 ≤ n
    ∧ safe_move src dest_dir w = (Return dest, w')
    ∧ Fs.exists_ w dest = false
    ∧ (∀ m, 1 ≤ m < n → Fs.exists_ w (dest_dir /: candidate src m) = true)
    ∧ Fs.key w dest = Fs.key w (PurePath.parent src) ++ [candidate src n]
    ∧ candidate src n ≠ PurePath.name src
    ∧ Fs.node_at w' dest = Fs.node_at w src
    ∧ Fs.node_at w' src = None
    ∧ (∀ config moved st rules path,
         Fs.node_at w src = Some (File st) →
         dict_get (routing config)
           (match_category (metadata_of_stat src st) (routing config))
         = Some rules →
         rule_path rules = Some path →
         sort_file_dest_dir rules path (metadata_of_stat src st) None
         = dest_dir →
         dest_dir = PurePath.parent src →
         Manual.resort_file config src moved w = (Return moved, w')
         ∧ log w' = log w ++ [Call_move src dest]).
Proof.
  intros Hwf Hsrc Hne Hfile Hdir.
  destruct (safe_move_in_place_spec w src dest_dir Hwf Hsrc Hne Hfile Hdir)
    as (n & w' & Hn & Hmove & Hfree & Hbusy & Hkey & Hat & Hgone & Hlog & _).
  exists n, w'. simpl. split_and!; try done.
  - apply candidate_ne_name.
  - intros config moved st rules path Hst Hrules Hrpath Hplan Hparent.
    split; [|done].
    unfold Manual.resort_file, try_except.
    unfold bind at 1, mbind at 1, prog_bind at 1.
    rewrite (sort_file_file _ _ _ _ _ Hst). simpl.
    rewrite Hrules, Hrpath, Hplan, Hmove.
    rewrite truediv_valid
      by (apply candidate_valid; by apply wf_path_name_mem).
    rewrite parent_snoc.
    rewrite bool_decide_false; [done|].
    intros Hneq. apply Hneq. rewrite <-Hparent. by destruct dest_dir.
Qed.

Lemma safe_move_renames_in_place_witness :
  ∃ n w',
    1 ≤ n
    ∧ safe_move (PurePath.of_string "/dest/misc/notes.txt")
                (PurePath.of_string "/dest/misc") sorted_already
      = (Return (PurePath.of_string "/dest/misc"
                 /: candidate (PurePath.of_string "/dest/misc/notes.txt") n),
         w').
Proof.
  destruct (safe_move_renames_in_place sorted_already
              (PurePath.of_string "/dest/misc/notes.txt")
              (PurePath.of_string "/dest/misc"))
    as (n & w' & Hn & Hmove & _).
  - compute_done.
  - compute_done.
  - vm_compute. discriminate.
  - vm_compute. reflexivity.
  - vm_compute. reflexivity.
  - by exists n, w'.
Defined.

Section logs.
Implicit Types (w : world) (p src dst filepath : Path).

Lemma rename_log src dst w r w' :
  Os.rename src dst w = (r, w') → log w' = log w.
Proof.
  unfold Os.rename. prog_unfold. simpl.
  repeat (case_match || case_decide || case_bool_decide);
    by intros ?; simplify_eq.
Qed.

Lemma mkdir_log p w r w' : Os.mkdir p w = (r, w') → log w' = log w.
Proof. intros H. by destruct (mkdir_spec _ _ _ _ H) as (_ & _ & ? & _). Qed.

Lemma shutil_move_log src dst w r w' :
  Os.shutil_move src dst w = (r, w') →
  log w' = log w ++ [Call_move src dst].
Proof.
  unfold Os.shutil_move, Os.path_is_dir, Os.path_exists, try_except.
  prog_unfold. simpl.
  set (w0 := mkWorld (tree w) (cwd w) (stdin w) (log w ++ [Call_move src dst])).
  assert (log w0 = log w ++ [Call_move src dst]) as Hl0 by done.
  clearbody w0.
  repeat first
    [ match goal with
      | |- context [Os.rename ?s ?d ?x] =>
          let E := fresh "E" in
          destruct (Os.rename s d x) as [[[]|?|] ?] eqn:E;
          apply rename_log in E
      | |- context [Os.mkdir ?p ?x] =>
          let E := fresh "E" in
          destruct (Os.mkdir p x) as [[[]|?|] ?] eqn:E;
          apply mkdir_log in E
      end
    | case_bool_decide
    | case_match ];
    simpl; intros ?; simplify_eq; congruence.
Qed.

Lemma safe_move_log src dest_dir w r w' :
  safe_move src dest_dir w = (r, w') →
  log w' = log w ∨ ∃ dest, log w' = log w ++ [Call_move src dest].
Proof.
  unfold safe_move, bind, mbind, prog_bind.
  destruct (Os.mkdir dest_dir w) as [[[]|e|] w1] eqn:Em;
    pose proof (mkdir_log _ _ _ _ Em) as Hl1;
    [|intros ?; simplify_eq; by left..].
  unfold Os.path_exists, reads.
  assert (∀ dest,
    match Os.shutil_move src dest w1 with
    | (Return _, w2) => (Return dest, w2)
    | (Raise e, w2) => (Raise e, w2)
    | (Diverge, w2) => (Diverge, w2)
    end = (r, w') →
    log w' = log w ∨ ∃ dest, log w' = log w ++ [Call_move src dest]) as Hmv.
  { intros dest. destruct (Os.shutil_move src dest w1) as [r2 w2] eqn:E.
    pose proof (shutil_move_log _ _ _ _ _ E) as Hl2.
    intros Hr. right. exists dest.
    destruct r2 as [[]|e|]; simplify_eq; congruence. }
  destruct (Fs.exists_ w1 _).
  - destruct (collision_loop _ _ _ _ _ w1) as [[dest|e|] w1'] eqn:El;
      pose proof (collision_loop_spec _ _ _ _ _ _ _ _ El) as [-> Hloop].
    + specialize (Hmv dest).
      by destruct (Os.shutil_move src dest w1) as [[[]|?|] ?].
    + done.
    + intros ?; simplify_eq. by left.
  - unfold mret, prog_ret. specialize (Hmv (dest_dir /: PurePath.name src)).
    by destruct (Os.shutil_move src _ w1) as [[[]|?|] ?].
Qed.

Lemma sort_file_log filepath config base_dir w r w' :
  sort_file filepath config base_dir w = (r, w') →
  log w' = log w
  ∨ Fs.is_file w filepath = true
    ∧ ∃ dest, log w' = log w ++ [Call_move filepath dest].
Proof.
  destruct (Fs.is_file w filepath) eqn:Hfile.
  2:{ rewrite sort_file_not_file by done. intros ?; simplify_eq. by left. }
  apply is_file_node in Hfile as [st Hst].
  rewrite (sort_file_file _ _ _ _ _ Hst). simpl.
  destruct (dict_get _ _) as [rules|]; [|intros ?; simplify_eq; by left].
  destruct (rule_path rules) as [path|]; [|intros ?; simplify_eq; by left].
  destruct (safe_move _ _ w) as [r2 w2] eqn:Hmove.
  pose proof (safe_move_log _ _ _ _ _ Hmove) as Hl.
  intros Hr.
  assert (w' = w2) as -> by (destruct r2; by simplify_eq).
  destruct Hl as [?|?]; [by left|right]. by split.
Qed.
End logs.

Section watcher.
Implicit Types (w : world) (p src dst : Path).

Lemma logged_since_app w w' l :
  log w' = log w ++ l → logged_since w w' = l.
Proof. unfold logged_since. intros ->. by rewrite drop_app_length. Qed.

(** The events [_process] logs once the file has passed the first checks and
    the delay has elapsed in the world [ws]. *)
Lemma process_settled config p ws r w' :
  (if negb (Fs.exists_ ws p) then mret ()
   else try_except
          (let* (category, dest) := sort_file p config None in
           let msg := PurePath.name p +:+ "  →  [" +:+ category +:+ "]" in
           emit (Print_sorted (PurePath.name p) category dest);;
           Auto._notify "Sortify — File Sorted" msg)
          (λ exc, emit (Print_failed (PurePath.name p) exc))) ws = (r, w') →
  (∀ src dst, Call_move src dst ∈ logged_since ws w' →
              src = p ∧ Fs.is_file ws p = true)
  ∧ (Fs.is_file ws p = false → tree w' = tree ws).
Proof.
  destruct (Fs.exists_ ws p); simpl.
  2:{ unfold mret, prog_ret. intros ?; simplify_eq. split; [|done].
      intros src dst.
      rewrite (logged_since_app _ _ []) by by rewrite app_nil_r.
      by intros ?%elem_of_nil. }
  unfold try_except, Auto._notify.
  unfold bind at 1, mbind at 1, prog_bind at 1.
  destruct (sort_file p config None ws) as [[[category dest]|e|] w2] eqn:Hs;
    pose proof (sort_file_log _ _ _ _ _ _ Hs) as Hl; prog_unfold; simpl;
    intros ?; simplify_eq; simpl.
  - split.
    + intros src dst. destruct Hl as [Hl|[Hf [d Hl]]].
      * erewrite logged_since_app; [|simpl; rewrite Hl, <-(assoc_L (++)); done].
        simpl. rewrite !elem_of_cons, elem_of_nil. intuition congruence.
      * erewrite logged_since_app;
          [|simpl; rewrite Hl, <-!(assoc_L (++)); done].
        simpl. rewrite !elem_of_cons, elem_of_nil. intuition congruence.
    + intros Hnf. by rewrite sort_file_not_file in Hs.
  - split.
    + intros src dst. destruct Hl as [Hl|[Hf [d Hl]]].
      * erewrite logged_since_app; [|simpl; rewrite Hl; done].
        rewrite !elem_of_cons, elem_of_nil. intuition congruence.
      * erewrite logged_since_app;
          [|simpl; rewrite Hl, <-!(assoc_L (++)); done].
        simpl. rewrite !elem_of_cons, elem_of_nil. intuition congruence.
    + intros Hnf. rewrite sort_file_not_file in Hs by done. by simplify_eq.
  - split.
    + intros src dst. destruct Hl as [Hl|[Hf [d Hl]]].
      * erewrite logged_since_app; [|rewrite Hl, app_nil_r; done].
        by intros ?%elem_of_nil.
      * erewrite logged_since_app; [|done].
        rewrite !elem_of_cons, elem_of_nil. intuition congruence.
    + intros Hnf. by rewrite sort_file_not_file in Hs.
Qed.

Lemma process_spec env config filepath w r w' :
  Auto._process env config filepath w = (r, w') →
  let p := PurePath.of_string filepath in
  (Fs.is_file w p = false ∨ hidden (PurePath.name p) = true →
   r = Return () ∧ w' = w)
  ∧ (∀ src dst, Call_move src dst ∈ logged_since w w' →
       src = p ∧ Fs.is_file w p = true ∧ hidden (PurePath.name p) = false
       ∧ Fs.is_file (after_sleep env w) p = true)
  ∧ (Fs.is_file w p = true → hidden (PurePath.name p) = false →
     Fs.is_file (after_sleep env w) p = false →
     tree w' = env (tree w)).
Proof.
  unfold Auto._process, Os.path_is_file, Os.path_exists, Os.sleep.
  unfold bind at 1, mbind at 1, prog_bind at 1, reads. cbv zeta.
  set (p := PurePath.of_string filepath).
  assert (logged_since w w = []) as Hnil.
  { unfold logged_since. by rewrite drop_all. }
  destruct (Fs.is_file w p) eqn:Hfile; simpl.
  2:{ unfold mret, prog_ret. intros ?; simplify_eq. split_and!; try done.
      intros src dst. rewrite Hnil. by intros ?%elem_of_nil. }
  fold (hidden (PurePath.name p)).
  destruct (hidden (PurePath.name p)) eqn:Hhid.
  { unfold mret, prog_ret. intros ?; simplify_eq. split_and!; try done.
    intros src dst. rewrite Hnil. by intros ?%elem_of_nil. }
  unfold mbind at 1, prog_bind at 1.
  fold (after_sleep env w). set (ws := after_sleep env w).
  unfold bind at 1, mbind at 1, prog_bind at 1.
  intros Hrun.
  destruct (process_settled config p ws r w' Hrun) as [Hmoves Htree].
  split_and!.
  - by intros [?|?].
  - intros src dst Hin. destruct (Hmoves src dst Hin) as [-> ?]. done.
  - intros _ _ Hnf. by rewrite Htree.
Qed.
End watcher.

(** C6. Whatever event the watcher is handed, a move is attempted only for a
    file-created event or a file-moved-in event, only for the path of that
    event, and only if the path is a regular file once the settle delay has
    elapsed and its name starts neither with a dot nor with a tilde. An event
    for a hidden or temporary name is dropped before the delay and leaves the
    world as it was; an event whose path is not a regular file after the delay
    attempts no move. The watcher never touches [.tmp_partial]. *)
Theorem watcher_moves_only_settled_files
    (env : gmap (list string) node → gmap (list string) node)
    (config : config) (event : Auto.fs_event) (w : world)
    (r : outcome ()) (w' : world) :
  Auto.dispatch env config event w = (r, w') →
  (∀ src dst, Call_move src dst ∈ logged_since w w' →
     ∃ filepath,
       (event = Auto.FileCreatedEvent filepath
        ∨ ∃ old, event = Auto.FileMovedEvent old filepath)
       ∧ src = PurePath.of_string filepath
       ∧ Fs.is_file (after_sleep env w) src = true
       ∧ Str.startswith "." (PurePath.name src) = false
       ∧ Str.startswith "~" (PurePath.name src) = false)
  ∧ (∀ filepath,
       event = Auto.FileCreatedEvent filepath
       ∨ (∃ old, event = Auto.FileMovedEvent old filepath) →
       let p := PurePath.of_string filepath in
       (hidden (PurePath.name p) = true → r = Return () ∧ w' = w)
       ∧ (Fs.is_file (after_sleep env w) p = false →
          ∀ src dst, Call_move src dst ∉ logged_since w w'))
  ∧ (∀ w0, Auto.dispatch env config
                 (Auto.FileCreatedEvent "/watched/.tmp_partial") w0
           = (Return (), w0)).
Proof.
  intros Hrun.
  assert (∀ filepath,
    event = Auto.FileCreatedEvent filepath
    ∨ (∃ old, event = Auto.FileMovedEvent old filepath) →
    Auto._process env config filepath w = (r, w')) as Hproc.
  { intros filepath [->|[old ->]]; exact Hrun. }
  assert (logged_since w w = []) as Hnil.
  { unfold logged_since. by rewrite drop_all. }
  split_and!.
  - intros src dst Hin.
    assert (∃ filepath,
      event = Auto.FileCreatedEvent filepath
      ∨ (∃ old, event = Auto.FileMovedEvent old filepath)) as [filepath Hev].
    { destruct event; try (by eexists; left); try (by eexists; right; eexists);
        unfold Auto.dispatch, Auto.on_created, Auto.on_moved, mret, prog_ret
          in Hrun; simplify_eq; rewrite Hnil in Hin; by apply elem_of_nil in Hin. }
    exists filepath. split; [done|].
    destruct (process_spec _ _ _ _ _ _ (Hproc _ Hev)) as (_ & Hmoves & _).
    destruct (Hmoves _ _ Hin) as (-> & _ & Hhid & Hfile).
    unfold hidden in Hhid. apply orb_false_iff in Hhid as [? ?]. done.
  - intros filepath Hev p.
    destruct (process_spec _ _ _ _ _ _ (Hproc _ Hev)) as (Hdrop & Hmoves & _).
    split.
    + intros Hhid. apply Hdrop. by right.
    + intros Hnf src dst Hin. destruct (Hmoves _ _ Hin) as (_ & _ & _ & Hf).
      fold p in Hf. congruence.
  - intros w0. unfold Auto.dispatch, Auto.on_created, Auto._process,
      Os.path_is_file.
    unfold bind at 1, mbind at 1, prog_bind at 1, reads.
    by destruct (Fs.is_file w0 _).
Qed.

Lemma watcher_moves_only_settled_files_witness :
  Fs.is_file (after_sleep (λ t, t) inbox) (PurePath.of_string "/in/photo.JPG")
  = true.
Proof.
  destruct (watcher_moves_only_settled_files (λ t, t) pictures
              (Auto.FileCreatedEvent "/in/photo.JPG") inbox _ _
              (surjective_pairing _)) as (Hmoves & _).
  destruct (Hmoves (PurePath.of_string "/in/photo.JPG")
              (PurePath.of_string "/dest/img/2023/JPG/photo.JPG"))
    as (filepath & [[= <-]|[old [=]]] & _ & Hfile & _).
  - vm_compute. apply list_elem_of_here.
  - exact Hfile.
Defined.

(** C2, as stated, fails: the entries of the configured list are compared as
    they are written, so [.JPG] in the list does not match the file
    [photo.jpg], which [.jpg] in the list does. *)
Lemma case_blind_gate_fails : ¬ case_blind_gate.
Proof.
  intros Hclaim.
  specialize (Hclaim "photo.jpg" "photo.jpg" [".jpg"] [".JPG"]
                (mkStat 1 10 None 2023) eq_refl eq_refl).
  vm_compute in Hclaim. discriminate.
Qed.

(** C2, amended. For a rule with a non-empty extension list, the match
    requires the lower-cased extension of the file to be a member of the list
    as written (exact comparison, dot included): the result does not depend on
    the letter case of the file's extension; an entry that holds an upper-case
    letter is never matched; a category that classification selects has a rule
    that passed this gate; and when the lower-cased extension is not a member
    the rule fails whatever its size bounds. *)
Theorem extension_gate_exact (filepath : Path) (st : stat_result)
    (rules : rule) (exts : list string) :
  rule_extensions rules = Some exts → exts ≠ [] →
  let md := metadata_of_stat filepath st in
  extension md = Str.lower (PurePath.suffix filepath)
  ∧ (_rule_matches md rules = true →
     Str.lower (PurePath.suffix filepath) ∈ exts)
  ∧ (Str.lower (PurePath.suffix filepath) ∉ exts →
     ∀ lo hi, _rule_matches md (with_bounds lo hi rules) = false)
  ∧ (∀ filepath2,
       Str.lower (PurePath.suffix filepath2)
       = Str.lower (PurePath.suffix filepath) →
       _rule_matches (metadata_of_stat filepath2 st) rules
       = _rule_matches md rules)
  ∧ (∀ e, e ∈ exts → Str.lower e ≠ e → extension md ≠ e)
  ∧ (∀ routing category,
       match_category md routing = category →
       category = "Others"
       ∨ ∃ r, (category, r) ∈ routing ∧ _rule_matches md r = true
              ∧ ∀ exts', rule_extensions r = Some exts' → exts' ≠ [] →
                         Str.lower (PurePath.suffix filepath) ∈ exts').
Proof.
  intros Hexts Hne md. split_and!.
  - done.
  - intros Hm. apply rule_matches_accepts in Hm as (Hgate & _). eauto.
  - intros Hnot lo hi. unfold _rule_matches. simpl. rewrite Hexts. simpl.
    rewrite bool_decide_true by done.
    by rewrite bool_decide_false by done.
  - intros filepath2 Heq. unfold _rule_matches. simpl. by rewrite Heq.
  - intros e _ Hcase Heq. apply Hcase. rewrite <-Heq. simpl.
    apply lower_idemp.
  - intros routing category <-.
    destruct (match_category_inv md routing)
      as [(before & r & after & Heq & _ & Hacc & _)|[? _]]; [|by left].
    right. exists r. split_and!.
    + rewrite Heq at 2. apply elem_of_app. right. apply list_elem_of_here.
    + by apply rule_matches_accepts.
    + intros exts' He Hne'. destruct Hacc as (Hgate & _). eauto.
Qed.

Lemma extension_gate_exact_witness :
  Str.lower (PurePath.suffix (PurePath.of_string "photo.JPG"))
  ∈ [".jpg"; ".png"].
Proof.
  refine (proj1 (proj2 (extension_gate_exact (PurePath.of_string "photo.JPG")
                          (mkStat 1 10 None 2023)
                          (extensions_rule [".jpg"; ".png"])
                          [".jpg"; ".png"] _ _)) _).
  - reflexivity.
  - discriminate.
  - reflexivity.
Defined.

Section custom_target.
Implicit Types (w : world) (p src dst filepath : Path) (md : Metadata).

Lemma is_dir_weaken w w' p :
  cwd w' = cwd w → tree w ⊆ tree w' →
  Fs.is_dir w p = true → Fs.is_dir w' p = true.
Proof.
  unfold Fs.is_dir, Fs.node_at. intros Hc Hsub.
  rewrite (key_cwd _ _ _ Hc).
  destruct (Fs.lookup_key (tree w) _) as [[|]|] eqn:E; try done.
  by rewrite (lookup_key_weaken _ _ _ _ Hsub E).
Qed.

(** The loop that prepares the chosen root. *)
Lemma create_category_folders_spec custom_target (routing : dict rule) w r w' :
  for_each routing
    (λ '(category_name, _) _, Os.mkdir (custom_target /: category_name))
    () w = (r, w') →
  cwd w' = cwd w ∧ stdin w' = stdin w ∧ log w' = log w
  ∧ tree w ⊆ tree w'
  ∧ (wf_tree (tree w) → wf_tree (tree w'))
  ∧ (∀ k n, tree w' !! k = Some n →
            tree w !! k = Some n
            ∨ n = Dir ∧ ∃ c, c ∈ routing.*1
                             ∧ k `prefix_of` Fs.key w (custom_target /: c))
  ∧ (r = Return () →
     ∀ c, c ∈ routing.*1 → Fs.is_dir w' (custom_target /: c) = true)
  ∧ r ≠ Diverge.
Proof.
  revert w. induction routing as [|[c rules] routing IH]; intros w; simpl.
  - unfold mret, prog_ret. intros ?; simplify_eq.
    split_and!; try done; [by left|]. intros _ c Hc. by apply elem_of_nil in Hc.
  - unfold bind at 1, mbind at 1, prog_bind at 1.
    destruct (Os.mkdir (custom_target /: c) w) as [[[]|e|] w1] eqn:Em;
      pose proof (mkdir_spec _ _ _ _ Em) as (Hc1 & Hs1 & Hl1 & Hsub & Hnew & Hm);
      destruct Hm as [(? & Hdir & Hwf1)|[? ->]]; simplify_eq.
    + intros Hrest.
      destruct (IH _ Hrest) as (Hc2 & Hs2 & Hl2 & Hsub2 & Hwf2 & Hnew2 & Hd2 & Hnd).
      split_and!; try congruence; [by etrans|by auto| |].
      * intros k n Hk. destruct (Hnew2 k n Hk) as [Hold|(-> & c' & Hc' & Hpre)].
        -- destruct (Hnew k n Hold) as [?|[-> Hpre]]; [by left|].
           right. split; [done|]. exists c. split; [|done].
           apply list_elem_of_here.
        -- right. split; [done|]. exists c'. split.
           ++ by apply list_elem_of_further.
           ++ by rewrite <-(key_cwd w w1 _ Hc1).
      * intros -> c' [->|Hc']%elem_of_cons.
        -- by apply (is_dir_weaken w1).
        -- by apply Hd2.
    + intros ?; simplify_eq. split_and!; try done; by left.
Qed.





End custom_target.

Section custom_target_moves.
Implicit Types (w : world) (p src dst filepath : Path) (md : Metadata).



End custom_target_moves.

(** C4. In default routing the move of a directory entry is not guarded: the
    folder [/t] holds the directory [a] and the file [b.txt], and a regular
    file lies at the path configured for [Folders]. The move of [a] raises
    [FileExistsError], which ends the whole run: nothing is reported and
    [b.txt], the next entry, is left where it was. Without an entry for
    [Folders] in the configuration the run ends the same way with a
    [KeyError]. *)
Theorem directory_failure_ends_the_batch :
  let run :=
    Manual.interactive_sort (PurePath.of_string "/t") blocked_folders
                            folder_then_file in
  let run' :=
    Manual.interactive_sort (PurePath.of_string "/t") no_folders
                            folder_then_file in
  run.1 = Raise FileExistsError
  ∧ log run.2 = []
  ∧ Fs.is_file run.2 (PurePath.of_string "/t/b.txt") = true
  ∧ Fs.is_dir run.2 (PurePath.of_string "/t/a") = true
  ∧ run'.1 = Raise (KeyError "No 'Folders' category defined in config.json")
  ∧ log run'.2 = []
  ∧ Fs.is_file run'.2 (PurePath.of_string "/t/b.txt") = true.
Proof. cbv zeta. split_and!; reflexivity. Qed.

(** C5. A second sync run can report a re-routed file. The file [a.] lies in
    [/d/misc/UNKNOWN], where the rule of [Others] files it by type. The
    first run renames it, in its directory, to [a._1] and reports nothing
    re-routed; for the second run the file has the extension [._1], so it is
    moved to [/d/misc/_1] and reported as re-routed. *)
Theorem second_sync_reroutes :
  let first := Manual.sync_sort by_type trailing_dot in
  let second := Manual.sync_sort by_type first.2 in
  first.1 = Return () ∧ second.1 = Return ()
  ∧ log first.2
    = [Print_found 1;
       Call_move (PurePath.of_string "/d/misc/UNKNOWN/a.")
                 (PurePath.of_string "/d/misc/UNKNOWN/a._1");
       Print_done 0]
  ∧ logged_since first.2 second.2
    = [Print_found 1;
       Call_move (PurePath.of_string "/d/misc/UNKNOWN/a._1")
                 (PurePath.of_string "/d/misc/_1/a._1");
       Print_rerouted "a._1" "Others" (PurePath.of_string "/d/misc/_1/a._1");
       Print_removed (PurePath.of_string "/d/misc/UNKNOWN");
       Print_done 1].
Proof. cbv zeta. split_and!; reflexivity. Qed.

(** C8. Reverting into the folder that was sorted moves nothing. The files
    [b.txt] and [c] of [/t] are sorted into [/t/Docs] and [/t/Others]; the
    revert with destination [/t] then stops its walk at the first directory,
    which is the destination, reports zero items and leaves both files in
    their category folders. *)
Theorem revert_into_sorted_folder_moves_nothing :
  let sorted :=
    Manual.interactive_sort (PurePath.of_string "/t") relative_routes
                            unsorted in
  let reverted :=
    Manual.interactive_sort (PurePath.of_string "/t") relative_routes
                            sorted.2 in
  sorted.1 = Return () ∧ reverted.1 = Return ()
  ∧ Fs.is_file sorted.2 (PurePath.of_string "/t/Docs/b.txt") = true
  ∧ Fs.is_file sorted.2 (PurePath.of_string "/t/Others/c") = true
  ∧ logged_since sorted.2 reverted.2 = [Print_done 0]
  ∧ tree reverted.2 = tree sorted.2
  ∧ Fs.is_file reverted.2 (PurePath.of_string "/t/b.txt") = false
  ∧ Fs.is_file reverted.2 (PurePath.of_string "/t/c") = false.
Proof. cbv zeta. split_and!; reflexivity. Qed.

(** * The tree after a move *)

Section renaming.
Implicit Types (w : world) (p src dst : Path) (t : gmap (list string) node).

Lemma removelast_prefix (k : list string) : removelast k `prefix_of` k.
Proof.
  destruct k as [|x k _] using rev_ind; [done|].
  rewrite removelast_last. by exists [x].
Qed.

Lemma snoc_not_prefix (l : list string) x : ¬ (l ++ [x]) `prefix_of` l.
Proof.
  intros H%prefix_length. rewrite length_app in H. simpl in H. lia.
Qed.

(** Below a regular file there is nothing. *)
Lemma wf_file_leaf t ks st k n :
  wf_tree t → t !! ks = Some (File st) → t !! k = Some n →
  ks `prefix_of` k → k = ks.
Proof.
  intros Hwf Hs Hk Hp. destruct (decide (k = ks)) as [|Hne]; [done|].
  assert (ks ≠ k) as Hne' by congruence.
  pose proof (wf_ancestor _ _ _ _ Hwf Hk Hp Hne') as Ha.
  destruct (Hwf _ _ Hs) as [Hnil _].
  unfold Fs.lookup_key in Ha. rewrite decide_False in Ha by done. congruence.
Qed.

(** What a rename that succeeds has found and done. *)
Lemma rename_Return src dst w w' :
  wf_tree (tree w) → Os.rename src dst w = (Return (), w') →
  (Fs.key w src = Fs.key w dst ∧ w' = w)
  ∨ (Fs.key w src ≠ Fs.key w dst
     ∧ Fs.key w src ≠ [] ∧ Fs.key w dst ≠ []
     ∧ w' = mkWorld (Fs.rename_tree (Fs.key w src) (Fs.key w dst) (tree w))
                    (cwd w) (stdin w) (log w)
     ∧ is_Some (tree w !! Fs.key w src)
     ∧ Fs.lookup_key (tree w) (removelast (Fs.key w dst)) = Some Dir
     ∧ (∀ k n, tree w !! k = Some n → Fs.key w dst `prefix_of` k →
               k = Fs.key w dst)
     ∧ (tree w !! Fs.key w src = Some Dir →
        ¬ Fs.key w src `prefix_of` Fs.key w dst)).
Proof.
  intros Hwf. unfold Os.rename. prog_unfold. simpl.
  set (ks := Fs.key w src). set (kd := Fs.key w dst).
  destruct (Fs.lookup_key (tree w) ks) as [ns|] eqn:Es;
    [|by intros ?; simplify_eq].
  case_decide as Heq.
  { intros ?; simplify_eq. by left. }
  case_bool_decide as Hroot; [by intros ?; simplify_eq|].
  assert (ks ≠ [] ∧ kd ≠ []) as [Hks Hkd] by tauto.
  case_bool_decide as Hparent; simpl; [|by intros ?; simplify_eq].
  assert (tree w !! ks = Some ns) as Hin.
  { unfold Fs.lookup_key in Es. by rewrite decide_False in Es. }
  assert (Fs.lookup_key (tree w) kd ≠ Some Dir →
          ∀ k n, tree w !! k = Some n → kd `prefix_of` k → k = kd)
    as Hleaf.
  { intros Hno k n Hk Hp. destruct (decide (k = kd)); [done|].
    assert (kd ≠ k) as Hne by congruence.
    pose proof (wf_ancestor _ _ _ _ Hwf Hk Hp Hne) as Ha. congruence. }
  destruct ns as [st|], (Fs.lookup_key (tree w) kd) as [[st'|]|] eqn:Ed;
    try (by intros ?; simplify_eq).
  - intros ?; simplify_eq. right.
    split_and!; [done|done|done|done|by eauto|done| |congruence].
    by apply Hleaf.
  - intros ?; simplify_eq. right.
    split_and!; [done|done|done|done|by eauto|done| |congruence].
    by apply Hleaf.
  - case_bool_decide as Hinto; [by intros ?; simplify_eq|].
    case_bool_decide as Hc; [|by intros ?; simplify_eq].
    intros ?; simplify_eq. right.
    split_and!; [done|done|done|done|by eauto|done| |done].
    intros k n Hk Hp. by eapply children_nil.
  - case_bool_decide as Hinto; [by intros ?; simplify_eq|].
    intros ?; simplify_eq. right.
    split_and!; [done|done|done|done|by eauto|done| |done].
    by apply Hleaf.
Qed.

(** The tree stays well formed when an entry takes a free place in a
    directory. *)
Lemma rename_tree_wf ks kd t :
  wf_tree t → ks ≠ [] → kd ≠ [] → is_Some (t !! ks) →
  Fs.lookup_key t (removelast kd) = Some Dir →
  (t !! ks = Some Dir → ¬ ks `prefix_of` kd) →
  wf_tree (Fs.rename_tree ks kd t).
Proof.
  intros Hwf Hks Hkd [ns Hs] Hparent Hinto.
  assert (¬ ks `prefix_of` removelast kd) as Hnp.
  { intros Hp. destruct ns as [st|].
    - destruct (decide (removelast kd = [])) as [Hnil|Hne].
      { rewrite Hnil in Hp. by apply prefix_nil_inv in Hp. }
      unfold Fs.lookup_key in Hparent. rewrite decide_False in Hparent by done.
      pose proof (wf_file_leaf _ _ _ _ _ Hwf Hs Hparent Hp) as Heq.
      congruence.
    - apply (Hinto Hs). etrans; [done|apply removelast_prefix]. }
  intros k n Hk. destruct (decide (kd `prefix_of` k)) as [[r ->]|Hnd].
  - rewrite lookup_rename_to in Hk. split; [by destruct kd|].
    destruct r as [|x r _] using rev_ind.
    + rewrite app_nil_r. unfold Fs.lookup_key in *. case_decide; [done|].
      rewrite lookup_rename_other; [done|done|].
      destruct kd as [|y l _] using rev_ind; [done|].
      rewrite removelast_last. apply snoc_not_prefix.
    + rewrite (assoc_L (++)), removelast_last.
      destruct (Hwf _ _ Hk) as [_ Hp].
      rewrite (assoc_L (++)), removelast_last in Hp.
      unfold Fs.lookup_key in *.
      rewrite decide_False in Hp by by destruct ks.
      rewrite decide_False by by destruct kd.
      by rewrite lookup_rename_to.
  - destruct (decide (ks `prefix_of` k)) as [Hp|Hns].
    { by rewrite lookup_rename_from in Hk. }
    rewrite lookup_rename_other in Hk by done.
    destruct (Hwf _ _ Hk) as [Hne Hp]. split; [done|].
    unfold Fs.lookup_key in *. case_decide; [done|].
    rewrite lookup_rename_other; [done| |].
    + intros H'. apply Hns. etrans; [done|apply removelast_prefix].
    + intros H'. apply Hnd. etrans; [done|apply removelast_prefix].
Qed.

Lemma rename_wf src dst w r w' :
  wf_tree (tree w) → Os.rename src dst w = (r, w') → wf_tree (tree w').
Proof.
  intros Hwf Hr. pose proof (rename_spec _ _ _ _ _ Hwf Hr) as (_ & _ & _ & H).
  destruct r as [[]|e|]; [| |done].
  - destruct (rename_Return _ _ _ _ Hwf Hr)
      as [[_ ->]|(_ & Hks & Hkd & -> & Hs & Hp & _ & Hinto)]; [done|].
    simpl. by apply rename_tree_wf.
  - by destruct H as [-> _].
Qed.

Lemma mkdir_wf p w r w' :
  wf_tree (tree w) → Os.mkdir p w = (r, w') → wf_tree (tree w').
Proof.
  intros Hwf Hm.
  pose proof (mkdir_spec _ _ _ _ Hm) as (_ & _ & _ & _ & _ & H).
  destruct H as [(_ & _ & H)|[_ ->]]; auto.
Qed.

Lemma shutil_move_wf src dst w r w' :
  wf_tree (tree w) → Os.shutil_move src dst w = (r, w') → wf_tree (tree w').
Proof.
  intros Hwf. unfold Os.shutil_move, Os.path_is_dir, Os.path_exists,
    try_except.
  prog_unfold. simpl.
  set (w0 := mkWorld (tree w) (cwd w) (stdin w) (log w ++ [Call_move src dst])).
  assert (wf_tree (tree w0)) as Hwf0 by done. clearbody w0.
  repeat first
    [ match goal with
      | |- context [Os.rename ?s ?d ?x] =>
          let E := fresh "E" in
          destruct (Os.rename s d x) as [[[]|?|] ?] eqn:E;
          (apply rename_wf in E; [|done])
      | |- context [Os.mkdir ?p ?x] =>
          let E := fresh "E" in
          destruct (Os.mkdir p x) as [[[]|?|] ?] eqn:E;
          (apply mkdir_wf in E; [|done])
      end
    | case_bool_decide
    | case_match ];
    simpl; intros ?; simplify_eq; eauto using rename_wf, mkdir_wf.
Qed.

(** [safe_move] keeps the tree well formed, whatever its outcome. *)
Lemma safe_move_wf src dest_dir w r w' :
  wf_tree (tree w) → safe_move src dest_dir w = (r, w') → wf_tree (tree w').
Proof.
  intros Hwf. unfold safe_move, bind, mbind, prog_bind.
  destruct (Os.mkdir dest_dir w) as [[[]|e|] w1] eqn:Em;
    pose proof (mkdir_wf _ _ _ _ Hwf Em) as Hwf1;
    [|by intros ?; simplify_eq..].
  unfold Os.path_exists, reads, mret, prog_ret.
  destruct (Fs.exists_ w1 _).
  - destruct (collision_loop _ _ _ _ _ w1) as [[dest|e|] w2] eqn:El;
      pose proof (collision_loop_spec _ _ _ _ _ _ _ _ El) as [-> _];
      [|by intros ?; simplify_eq..].
    destruct (Os.shutil_move src dest w1) as [[[]|e|] w3] eqn:Es;
      apply shutil_move_wf in Es; try done; by intros ?; simplify_eq.
  - destruct (Os.shutil_move src _ w1) as [[[]|e|] w3] eqn:Es;
      apply shutil_move_wf in Es; try done; by intros ?; simplify_eq.
Qed.
End renaming.

Section exact.
Implicit Types (w : world) (p src dst : Path) (t : gmap (list string) node).

Lemma path_eta p : mkPath (is_absolute p) (parts p) = p.
Proof. by destruct p. Qed.

Lemma parent_truediv p s : valid_name s → PurePath.parent (p /: s) = p.
Proof.
  intros Hs. rewrite truediv_valid by done. rewrite parent_snoc.
  apply path_eta.
Qed.

Lemma is_dir_lookup w p :
  Fs.is_dir w p = true ↔ Fs.lookup_key (tree w) (Fs.key w p) = Some Dir.
Proof.
  unfold Fs.is_dir, Fs.node_at.
  destruct (Fs.lookup_key _ _) as [[|]|]; split; done.
Qed.

(** [shutil.move] of a path that does not exist. *)
Lemma shutil_move_missing src dst w :
  Fs.exists_ w src = false → Fs.exists_ w dst = false →
  Os.shutil_move src dst w
  = (Raise FileNotFoundError,
     mkWorld (tree w) (cwd w) (stdin w) (log w ++ [Call_move src dst])).
Proof.
  intros [Hks Hs]%exists_false [Hkd Hd]%exists_false.
  unfold Os.shutil_move, Os.path_is_dir, Os.path_exists, try_except,
    Os.rename.
  prog_unfold. simpl.
  set (w0 := mkWorld (tree w) (cwd w) (stdin w) (log w ++ [Call_move src dst])).
  change (Fs.key w0 ?p) with (Fs.key w p).
  assert (Fs.is_dir w0 dst = false) as ->.
  { unfold Fs.is_dir, Fs.node_at. simpl.
    change (Fs.key w0 dst) with (Fs.key w dst).
    unfold Fs.lookup_key. rewrite decide_False by done. by rewrite Hd. }
  simpl. change (Fs.key w0 src) with (Fs.key w src).
  assert (Fs.lookup_key (tree w) (Fs.key w src) = None) as ->.
  { unfold Fs.lookup_key. by rewrite decide_False. }
  simpl.
  assert (Fs.is_dir w0 src = false) as ->; [|done].
  unfold Fs.is_dir, Fs.node_at. simpl.
  change (Fs.key w0 src) with (Fs.key w src).
  unfold Fs.lookup_key. rewrite decide_False by done. by rewrite Hs.
Qed.

(** [shutil.move] that succeeds towards a free name in a directory. *)
Lemma shutil_move_Return src dst w w' :
  wf_tree (tree w) → Fs.exists_ w dst = false →
  Fs.is_dir w (PurePath.parent dst) = true →
  Os.shutil_move src dst w = (Return (), w') →
  w' = mkWorld (Fs.rename_tree (Fs.key w src) (Fs.key w dst) (tree w))
               (cwd w) (stdin w) (log w ++ [Call_move src dst])
  ∧ Fs.key w src ≠ [] ∧ Fs.key w dst ≠ []
  ∧ is_Some (tree w !! Fs.key w src)
  ∧ Fs.lookup_key (tree w) (removelast (Fs.key w dst)) = Some Dir
  ∧ (tree w !! Fs.key w src = Some Dir →
     ¬ Fs.key w src `prefix_of` Fs.key w dst).
Proof.
  intros Hwf Hex Hparent. pose proof Hex as [Hkd Hnone]%exists_false.
  unfold Os.shutil_move, Os.path_is_dir, Os.path_exists, try_except.
  prog_unfold. simpl.
  set (w0 := mkWorld (tree w) (cwd w) (stdin w) (log w ++ [Call_move src dst])).
  assert (Fs.is_dir w0 dst = false) as ->.
  { unfold Fs.is_dir, Fs.node_at. simpl.
    change (Fs.key w0 dst) with (Fs.key w dst).
    unfold Fs.lookup_key. rewrite decide_False by done. by rewrite Hnone. }
  simpl.
  destruct (Os.rename src dst w0) as [[[]|e|] w1] eqn:Er;
    pose proof (rename_spec src dst w0 _ _ Hwf Er) as (_ & _ & _ & Hr);
    [| |done].
  - intros ?; simplify_eq.
    destruct (rename_Return src dst w0 w' Hwf Er)
      as [[Heq _]|(_ & Hks & _ & -> & Hs & Hp & _ & Hinto)].
    + exfalso. destruct Hr as ([n Hn] & _).
      change (Fs.key w0 ?p) with (Fs.key w p) in *.
      rewrite Heq in Hn. unfold Fs.lookup_key in Hn.
      rewrite decide_False in Hn by done. simpl in Hn. congruence.
    + done.
  - destruct Hr as [-> Hos]. rewrite Hos. simpl.
    destruct (Fs.is_dir w0 src); [|by intros ?; simplify_eq].
    case_bool_decide; [by intros ?; simplify_eq|].
    rewrite (mkdir_existing _ w0) by done. rewrite Er.
    by intros ?; simplify_eq.
Qed.

(** The name [safe_move] gives to what it moves. *)
Lemma chosen_valid src dest_dir dest w w1 :
  Str.mem "/" (PurePath.name src) = false →
  Os.mkdir dest_dir w = (Return (), w1) →
  chosen src dest_dir dest w1 →
  ∃ s, valid_name s ∧ dest = dest_dir /: s.
Proof.
  intros Hname Hmk [Hfree Hch].
  pose proof (mkdir_spec _ _ _ _ Hmk) as (_ & _ & _ & _ & _ & Hm).
  destruct Hm as [(_ & Hdir & _)|[? _]]; [|done].
  destruct Hch as [->|(n & Hn & -> & _)].
  - exists (PurePath.name src). split; [|done].
    assert (∀ s, parts (PurePath.of_string s) = [] →
                 PurePath.name src ≠ s) as Hno.
    { intros s Hs Heq. rewrite Heq in Hfree. revert Hfree.
      unfold Fs.exists_, Fs.is_dir, Fs.node_at in *.
      replace (Fs.key w1 (dest_dir /: s)) with (Fs.key w1 dest_dir).
      - destruct (Fs.lookup_key _ _); [|done]. intros H.
        apply bool_decide_eq_false in H. destruct H. eauto.
      - unfold Fs.key, PurePath.truediv, PurePath.joinpath.
        rewrite Heq in Hname.
        unfold PurePath.of_string in *. rewrite startswith_slash by done.
        simpl in *. rewrite Hs. by rewrite app_nil_r. }
    split_and!; [by apply (Hno "")|by apply (Hno ".")|done].
  - exists (candidate src n). split; [by apply candidate_valid|done].
Qed.

(** The tree a successful [safe_move] leaves. *)
Lemma safe_move_tree src dest_dir w dest w' :
  wf_tree (tree w) → Str.mem "/" (PurePath.name src) = false →
  safe_move src dest_dir w = (Return dest, w') →
  ∃ w1 s,
    Os.mkdir dest_dir w = (Return (), w1)
    ∧ chosen src dest_dir dest w1
    ∧ valid_name s ∧ dest = dest_dir /: s
    ∧ Fs.key w dest = Fs.key w dest_dir ++ [s]
    ∧ tree w' = Fs.rename_tree (Fs.key w src) (Fs.key w dest) (tree w1)
    ∧ wf_tree (tree w1)
    ∧ Fs.key w src ≠ []
    ∧ is_Some (tree w1 !! Fs.key w src)
    ∧ tree w1 !! Fs.key w dest = None
    ∧ Fs.lookup_key (tree w1) (Fs.key w dest_dir) = Some Dir
    ∧ (tree w1 !! Fs.key w src = Some Dir →
       ¬ Fs.key w src `prefix_of` Fs.key w dest).
Proof.
  intros Hwf Hname Hmove.
  pose proof (safe_move_spec _ _ _ _ _ Hwf Hname Hmove)
    as (_ & _ & _ & _ & _ & _ & _ & _ & w1 & Hmk & Hch).
  destruct (chosen_valid _ _ _ _ _ Hname Hmk Hch) as (s & Hs & ->).
  pose proof (mkdir_spec _ _ _ _ Hmk) as (Hc1 & _ & _ & _ & _ & Hm).
  destruct Hm as [(_ & Hdir & Hwf1)|[? _]]; [|done].
  specialize (Hwf1 Hwf).
  assert (Os.shutil_move src (dest_dir /: s) w1 = (Return (), w')) as Hsh.
  { revert Hmove. unfold safe_move, bind, mbind, prog_bind. rewrite Hmk.
    unfold Os.path_exists, reads, mret, prog_ret.
    assert (∀ d,
      (match Os.shutil_move src d w1 with
       | (Return _, w2) => (Return d, w2)
       | (Raise e, w2) => (Raise e, w2)
       | (Diverge, w2) => (Diverge, w2)
       end) = (Return (dest_dir /: s), w') →
      Os.shutil_move src (dest_dir /: s) w1 = (Return (), w')) as Hstep.
    { intros d.
      destruct (Os.shutil_move src d w1) as [[[]|e|] w2] eqn:E;
        intros ?; by simplify_eq. }
    destruct (Fs.exists_ w1 _).
    - destruct (collision_loop _ _ _ _ _ w1) as [[d|e|] w2] eqn:El;
        pose proof (collision_loop_spec _ _ _ _ _ _ _ _ El) as [-> _];
        [|done..].
      apply Hstep.
    - apply Hstep. }
  pose proof Hch as [Hfree _].
  apply shutil_move_Return in Hsh as (-> & Hks & Hkd & Hsome & Hp & Hinto);
    [|done|done|by rewrite parent_truediv].
  rewrite !(key_cwd w w1) in * by done.
  exists w1, s. split_and!; try done.
  - by apply key_truediv_valid.
  - apply exists_false in Hfree as [_ Hn].
    by rewrite (key_cwd w w1) in Hn.
  - apply is_dir_lookup in Hdir. by rewrite (key_cwd w w1) in Hdir.
Qed.
End exact.

Section contents.
Implicit Types (w : world) (p src dst : Path) (t : gmap (list string) node).

Lemma pair_eta_l {A B} (x : A * B) (a : A) : x.1 = a → x = (a, x.2).
Proof. destruct x. simpl. by intros ->. Qed.

Lemma prefix_snoc_inv (l k : list string) x :
  l `prefix_of` k ++ [x] → l ≠ k ++ [x] → l `prefix_of` k.
Proof.
  intros [r Hr] Hne. destruct r as [|y r _] using rev_ind.
  { rewrite app_nil_r in Hr. congruence. }
  rewrite (assoc_L (++)) in Hr. apply app_inj_tail in Hr as [-> _].
  by exists r.
Qed.

(** The source of a successful move and its destination lie apart. *)
Lemma moved_apart t ks kdir s :
  wf_tree t → ks ≠ [] → is_Some (t !! ks) →
  t !! (kdir ++ [s]) = None →
  Fs.lookup_key t kdir = Some Dir →
  (t !! ks = Some Dir → ¬ ks `prefix_of` kdir ++ [s]) →
  ¬ ks `prefix_of` kdir ++ [s] ∧ ¬ kdir ++ [s] `prefix_of` ks.
Proof.
  intros Hwf Hks [ns Hs] Hfree Hdir Hinto. split.
  - intros Hp. destruct ns as [st|]; [|by apply Hinto].
    assert (ks ≠ kdir ++ [s]) as Hne by (intros ->; congruence).
    apply prefix_snoc_inv in Hp; [|done].
    destruct (decide (kdir = [])) as [->|Hnil].
    { by apply prefix_nil_inv in Hp. }
    unfold Fs.lookup_key in Hdir. rewrite decide_False in Hdir by done.
    pose proof (wf_file_leaf _ _ _ _ _ Hwf Hs Hdir Hp). congruence.
  - intros Hp.
    assert (kdir ++ [s] ≠ ks) as Hne by (intros <-; congruence).
    pose proof (wf_ancestor _ _ _ _ Hwf Hs Hp Hne) as Ha.
    unfold Fs.lookup_key in Ha.
    rewrite decide_False in Ha by by destruct kdir. congruence.
Qed.

(** A regular file that takes a free place: the tree loses one entry and
    gains one. *)
Lemma rename_tree_file t ks kd st :
  wf_tree t → t !! ks = Some (File st) → t !! kd = None → kd ≠ [] →
  Fs.rename_tree ks kd t = <[kd := File st]> (delete ks t).
Proof.
  intros Hwf Hs Hd Hkd. apply map_eq. intros k.
  assert (∀ k n, t !! k = Some n → ¬ kd `prefix_of` k) as Hbelow.
  { intros k' n Hk Hp.
    assert (kd ≠ k') as Hne by (intros <-; congruence).
    pose proof (wf_ancestor _ _ _ _ Hwf Hk Hp Hne) as Ha.
    unfold Fs.lookup_key in Ha. rewrite decide_False in Ha by done.
    congruence. }
  assert (∀ k, ks `prefix_of` k → k ≠ ks → t !! k = None) as Hleaf.
  { intros k' Hp Hne. destruct (t !! k') as [n|] eqn:Hk; [|done].
    by destruct (Hne (wf_file_leaf _ _ _ _ _ Hwf Hs Hk Hp)). }
  destruct (decide (k = kd)) as [->|Hne].
  { rewrite lookup_insert_eq. rewrite <-(app_nil_r kd) at 1.
    by rewrite lookup_rename_to, app_nil_r. }
  rewrite lookup_insert_ne by done.
  destruct (decide (kd `prefix_of` k)) as [[r ->]|Hnd].
  - rewrite lookup_rename_to.
    assert (r ≠ []) as Hr by (intros ->; by rewrite app_nil_r in Hne).
    rewrite Hleaf; [|by exists r|].
    2:{ intros Heq. apply Hr. apply (inj (app ks)). by rewrite app_nil_r. }
    destruct (decide (kd ++ r = ks)) as [->|Hns].
    { by rewrite lookup_delete_eq. }
    rewrite lookup_delete_ne by done.
    destruct (t !! (kd ++ r)) as [n|] eqn:Hk; [|done].
    destruct (Hbelow _ _ Hk). by exists r.
  - destruct (decide (ks `prefix_of` k)) as [Hp|Hns].
    + rewrite lookup_rename_from by done.
      destruct (decide (k = ks)) as [->|Hks].
      { by rewrite lookup_delete_eq. }
      rewrite lookup_delete_ne by done. by rewrite Hleaf.
    + rewrite lookup_rename_other by done.
      rewrite lookup_delete_ne; [done|]. by intros <-.
Qed.

(** What the creation of the destination directory leaves of the source. *)
Lemma mkdir_keeps_source w dest_dir w1 ks s :
  wf_tree (tree w1) →
  Os.mkdir dest_dir w = (Return (), w1) →
  is_Some (tree w1 !! ks) →
  (tree w1 !! ks = Some Dir → ¬ ks `prefix_of` Fs.key w dest_dir ++ [s]) →
  ∀ rel, tree w1 !! (ks ++ rel) = tree w !! (ks ++ rel).
Proof.
  intros Hwf1 Hmk [ns Hs] Hinto rel.
  pose proof (mkdir_spec _ _ _ _ Hmk) as (_ & _ & _ & Hsub & Hnew & _).
  destruct (tree w1 !! (ks ++ rel)) as [n|] eqn:Hk.
  - destruct (Hnew _ _ Hk) as [?|[-> Hp]]; [done|]. exfalso.
    assert (ks `prefix_of` Fs.key w dest_dir) as Hp'.
    { etrans; [|done]. by exists rel. }
    destruct ns as [st|].
    + pose proof (wf_file_leaf _ _ _ _ _ Hwf1 Hs Hk) as Heq.
      rewrite Heq in Hk by by exists rel. congruence.
    + apply (Hinto Hs). by apply prefix_app_r.
  - symmetry. by eapply lookup_weaken_None.
Qed.
End contents.

(** Where the moved entries are afterwards. *)
Lemma safe_move_contents (w : world) (src dest_dir dest : Path)
    (w' : world) :
  wf_tree (tree w) → wf_path src →
  safe_move src dest_dir w = (Return dest, w') →
  (∀ rel, tree w' !! (Fs.key w dest ++ rel) = tree w !! (Fs.key w src ++ rel))
  ∧ (∀ k, Fs.key w src `prefix_of` k → tree w' !! k = None)
  ∧ wf_tree (tree w').
Proof.
  intros Hwf Hsrc Hmove.
  pose proof (wf_path_name_mem _ Hsrc) as Hmem.
  pose proof (safe_move_wf _ _ _ _ _ Hwf Hmove) as Hwf'.
  destruct (safe_move_tree _ _ _ _ _ Hwf Hmem Hmove)
    as (w1 & s & Hmk & _ & Hs & -> & Hkey & Htree & Hwf1 & Hks & Hsome & Hfree
        & Hdir & Hinto).
  rewrite Hkey in *.
  destruct (moved_apart _ _ _ _ Hwf1 Hks Hsome Hfree Hdir Hinto)
    as [Hsd Hds].
  split_and!; [| |done].
  - intros rel. rewrite Htree, lookup_rename_to.
    by eapply mkdir_keeps_source.
  - intros k Hp. rewrite Htree. apply lookup_rename_from; [done|].
    intros Hp'.
    destruct (prefix_weak_total _ _ _ Hp Hp'); done.
Qed.

(** X1. What [safe_move] has moved is found under the destination exactly
    as it was under the source, entry for entry at every depth: a directory
    travels with everything it holds. Nothing is left at the source or below
    it; outside the destination nothing appears but the directories that
    lead to the destination directory; and every entry of the tree still
    lies in a directory. *)
Theorem safe_move_keeps_contents (w : world) (src dest_dir dest : Path)
    (w' : world) :
  wf_tree (tree w) → wf_path src →
  safe_move src dest_dir w = (Return dest, w') →
  (∀ rel, tree w' !! (Fs.key w dest ++ rel) = tree w !! (Fs.key w src ++ rel))
  ∧ (∀ k, Fs.key w src `prefix_of` k → tree w' !! k = None)
  ∧ (∀ k n, tree w' !! k = Some n → ¬ Fs.key w dest `prefix_of` k →
            tree w !! k = Some n
            ∨ n = Dir ∧ k `prefix_of` Fs.key w dest_dir)
  ∧ wf_tree (tree w').
Proof.
  intros Hwf Hsrc Hmove.
  destruct (safe_move_contents _ _ _ _ _ Hwf Hsrc Hmove)
    as (Hunder & Hgone & Hwf').
  split_and!; [done|done| |done].
  intros k n Hk Hnd.
  pose proof (wf_path_name_mem _ Hsrc) as Hmem.
  destruct (safe_move_tree _ _ _ _ _ Hwf Hmem Hmove)
    as (w1 & s & Hmk & _ & _ & _ & _ & Htree & _).
  pose proof (mkdir_spec _ _ _ _ Hmk) as (_ & _ & _ & _ & Hnew & _).
  destruct (decide (Fs.key w src `prefix_of` k)) as [Hp|Hns].
  { rewrite Hgone in Hk by done. done. }
  rewrite Htree, lookup_rename_other in Hk by done.
  by apply Hnew.
Qed.

Lemma safe_move_keeps_contents_witness :
  tree (safe_move (PurePath.of_string "/in/album")
                  (PurePath.of_string "/dest") album).2
    !! ["dest"; "album"; "p.jpg"]
  = Some (File (mkStat 5 300 None 2022)).
Proof.
  refine (eq_trans
            (proj1 (safe_move_keeps_contents album
                      (PurePath.of_string "/in/album")
                      (PurePath.of_string "/dest")
                      (PurePath.of_string "/dest/album")
                      (safe_move (PurePath.of_string "/in/album")
                                 (PurePath.of_string "/dest") album).2
                      _ _ _) ["p.jpg"]) _).
  - compute_done.
  - compute_done.
  - apply pair_eta_l. reflexivity.
  - reflexivity.
Defined.

Section outcomes.
Implicit Types (w : world) (p src dst : Path) (t : gmap (list string) node).

(** A regular file moved into an existing directory in which its name is
    free. *)
Lemma safe_move_file_exact w src dest_dir st :
  wf_tree (tree w) → valid_name (PurePath.name src) →
  Fs.node_at w src = Some (File st) → Fs.is_dir w dest_dir = true →
  Fs.exists_ w (dest_dir /: PurePath.name src) = false →
  safe_move src dest_dir w
  = (Return (dest_dir /: PurePath.name src),
     mkWorld (<[Fs.key w dest_dir ++ [PurePath.name src] := File st]>
                (delete (Fs.key w src) (tree w)))
             (cwd w) (stdin w)
             (log w ++ [Call_move src (dest_dir /: PurePath.name src)])).
Proof.
  intros Hwf Hname Hst Hdir Hfree.
  unfold safe_move, bind, mbind, prog_bind.
  rewrite (mkdir_existing _ _ Hwf Hdir).
  unfold Os.path_exists, reads, mret, prog_ret. rewrite Hfree.
  destruct (shutil_move_file_ok src (dest_dir /: PurePath.name src) w st)
    as [w' Hmv]; [done|done| |].
  { rewrite key_truediv_valid, removelast_last by done.
    by apply is_dir_lookup. }
  rewrite Hmv.
  apply shutil_move_Return in Hmv as (-> & Hks & _); [|done|done|].
  2:{ by rewrite parent_truediv. }
  rewrite key_truediv_valid by done.
  rewrite (rename_tree_file _ _ _ st); try done.
  - unfold Fs.node_at, Fs.lookup_key in Hst.
    by rewrite decide_False in Hst.
  - apply exists_false in Hfree as [_ Hn].
    by rewrite key_truediv_valid in Hn.
  - by destruct (Fs.key w dest_dir).
Qed.
End outcomes.

(** X2. The move of a source that does not exist, no regular file lying
    on the way to it, fails with [FileNotFoundError], and only after the
    destination directory has been created: the directory, with the parents
    it needed, stays behind, the tree is otherwise as it was, and one call
    of [shutil.move] has been made. *)
Theorem safe_move_missing_source (w : world) (src dest_dir : Path)
    (w1 : world) :
  wf_tree (tree w) → wf_path src →
  Fs.exists_ w src = false →
  clear_way (tree w) (Fs.key w src) →
  ¬ Fs.key w src `prefix_of` Fs.key w dest_dir →
  Os.mkdir dest_dir w = (Return (), w1) →
  ∃ dest,
    chosen src dest_dir dest w1
    ∧ safe_move src dest_dir w
      = (Raise FileNotFoundError,
         mkWorld (tree w1) (cwd w) (stdin w) (log w ++ [Call_move src dest]))
    ∧ Fs.is_dir w1 dest_dir = true.
Proof.
  intros Hwf Hsrc Hmiss _ Hnp Hmk.
  pose proof (wf_path_name_mem _ Hsrc) as Hmem.
  pose proof (mkdir_spec _ _ _ _ Hmk) as (Hc1 & Hs1 & Hl1 & Hsub & Hnew & Hm).
  destruct Hm as [(_ & Hdir & _)|[? _]]; [|done].
  assert (Fs.exists_ w1 src = false) as Hmiss1.
  { apply exists_false in Hmiss as [Hks Hn]. apply exists_false.
    rewrite (key_cwd w w1) by done. split; [done|].
    destruct (tree w1 !! Fs.key w src) as [n|] eqn:E; [|done].
    destruct (Hnew _ _ E) as [?|[_ ?]]; [congruence|done]. }
  assert (∀ dest, Fs.exists_ w1 dest = false →
    Os.shutil_move src dest w1
    = (Raise FileNotFoundError,
       mkWorld (tree w1) (cwd w) (stdin w) (log w ++ [Call_move src dest])))
    as Hmv.
  { intros dest Hfree. rewrite shutil_move_missing by done.
    by rewrite Hc1, Hs1, Hl1. }
  unfold safe_move, bind, mbind, prog_bind. rewrite Hmk.
  unfold Os.path_exists, reads, mret, prog_ret.
  destruct (Fs.exists_ w1 (dest_dir /: PurePath.name src)) eqn:Ex.
  - destruct (collision_loop _ _ _ _ _ w1) as [[dest|e|] w2] eqn:El;
      pose proof (collision_loop_spec _ _ _ _ _ _ _ _ El) as [-> Hloop];
      [|done|by destruct (candidates_exhaust w1 dest_dir src Hmem)].
    destruct Hloop as (n & Hn & -> & Hfree & Hbusy).
    eexists. split_and!; [|by rewrite Hmv|done].
    split; [done|]. right. exists n. split_and!; [lia|done|done|done].
  - eexists. split_and!; [|by rewrite Hmv|done].
    split; [done|by left].
Qed.

Lemma safe_move_missing_source_witness :
  (safe_move (PurePath.of_string "/in/ghost.txt")
             (PurePath.of_string "/out") album).1
  = Raise FileNotFoundError
  ∧ Fs.is_dir (Os.mkdir (PurePath.of_string "/out") album).2
              (PurePath.of_string "/out") = true.
Proof.
  destruct (safe_move_missing_source album
              (PurePath.of_string "/in/ghost.txt")
              (PurePath.of_string "/out")
              (Os.mkdir (PurePath.of_string "/out") album).2)
    as (dest & _ & Heq & Hdir).
  - compute_done.
  - compute_done.
  - reflexivity.
  - compute_done.
  - compute_done.
  - apply pair_eta_l. reflexivity.
  - split; [by rewrite Heq|done].
Defined.

(** The two moves on the tree, which carries what [stat] reports along
    with the file. *)
Lemma move_there_and_back (w : world) (src dest_dir : Path)
    (st : stat_result) :
  wf_tree (tree w) → wf_path src → parts src ≠ [] →
  Fs.node_at w src = Some (File st) →
  Fs.is_dir w dest_dir = true →
  Fs.exists_ w (dest_dir /: PurePath.name src) = false →
  let dest := dest_dir /: PurePath.name src in
  ∃ w1 w2,
    safe_move src dest_dir w = (Return dest, w1)
    ∧ safe_move dest (PurePath.parent src) w1 = (Return src, w2)
    ∧ Fs.node_at w1 dest = Some (File st)
    ∧ Fs.node_at w1 src = None
    ∧ tree w2 = tree w ∧ cwd w2 = cwd w ∧ stdin w2 = stdin w
    ∧ log w2 = log w ++ [Call_move src dest; Call_move dest src].
Proof.
  intros Hwf Hsrc Hne Hst Hdir Hfree dest.
  pose proof (name_valid src Hsrc Hne) as Hname.
  pose proof (safe_move_file_exact w src dest_dir st Hwf Hname Hst Hdir Hfree)
    as Hm1.
  pose proof (safe_move_wf _ _ _ _ _ Hwf Hm1) as Hwf1.
  set (kd := Fs.key w dest_dir ++ [PurePath.name src]) in *.
  set (ks := Fs.key w src) in *.
  set (w1 := mkWorld (<[kd := File st]> (delete ks (tree w))) (cwd w)
                     (stdin w) (log w ++ [Call_move src dest])) in *.
  assert (ks ≠ [] ∧ tree w !! ks = Some (File st)) as [Hks Hin].
  { unfold Fs.node_at, Fs.lookup_key in Hst. by case_decide. }
  assert (tree w !! kd = None) as Hnd.
  { apply exists_false in Hfree as [_ Hn].
    by rewrite key_truediv_valid in Hn. }
  assert (ks ≠ kd) as Hsd by (intros Heq; congruence).
  assert (PurePath.name dest = PurePath.name src) as Hnm.
  { unfold dest. rewrite truediv_valid by done. apply name_snoc. }
  assert (Fs.key w1 dest = kd) as Hkd.
  { unfold dest. by rewrite key_truediv_valid. }
  assert (Fs.key w1 (PurePath.parent src) ++ [PurePath.name src] = ks)
    as Hkp.
  { symmetry. by apply (key_parent w). }
  assert (PurePath.parent src /: PurePath.name src = src) as Hback.
  { rewrite truediv_valid by done.
    rewrite <-parts_snoc by done. by destruct src. }
  assert (Fs.node_at w1 dest = Some (File st)) as Hat1.
  { unfold Fs.node_at, Fs.lookup_key. rewrite Hkd.
    rewrite decide_False by by destruct (Fs.key w dest_dir).
    simpl. by rewrite lookup_insert_eq. }
  assert (Fs.is_dir w1 (PurePath.parent src) = true) as Hpd.
  { apply is_dir_lookup.
    destruct (Hwf _ _ Hin) as [_ Hp]. unfold ks in Hp.
    change (Fs.key w1 ?p) with (Fs.key w p).
    rewrite (key_parent w src Hne), removelast_last in Hp.
    unfold Fs.lookup_key in *. case_decide; [done|]. simpl.
    rewrite lookup_insert_ne, lookup_delete_ne; [done| |].
    - unfold ks. rewrite (key_parent w src Hne). intros Heq.
      apply (prefix_snoc_not (Fs.key w (PurePath.parent src))
                             (PurePath.name src)).
      by rewrite Heq.
    - intros Heq. rewrite <-Heq in Hp. congruence. }
  assert (tree w1 !! ks = None) as Hgone.
  { simpl. by rewrite lookup_insert_ne, lookup_delete_eq. }
  assert (Fs.exists_ w1 src = false) as Hex1.
  { apply exists_false. by split. }
  assert (Fs.node_at w1 src = None) as Hat0.
  { unfold Fs.node_at, Fs.lookup_key. change (Fs.key w1 src) with ks.
    by rewrite decide_False. }
  pose proof (safe_move_file_exact w1 dest (PurePath.parent src) st Hwf1)
    as Hm2.
  rewrite Hnm, Hback, Hkp, Hkd in Hm2. specialize (Hm2 Hname Hat1 Hpd Hex1).
  exists w1. eexists. split_and!; [done|exact Hm2|done|done|..]; simpl.
  - rewrite delete_insert_eq.
    rewrite (delete_id (delete ks (tree w)))
      by by rewrite lookup_delete_ne.
    rewrite insert_delete_eq. by apply insert_id.
  - done.
  - done.
  - by rewrite <-(assoc_L (++)).
Qed.

(** X3. A regular file moved into an existing directory in which its name
    is free, and then moved back into the directory it came from, is where
    it was: both moves succeed under the file's own name; the file is the
    same, with its size and its time of birth, the time of its last change
    apart, which the system sets at every renaming; and every other entry
    of the tree is as it was at the beginning. *)
Theorem move_and_move_back (w : world) (src dest_dir : Path)
    (st : stat_result) :
  wf_tree (tree w) → wf_path src → parts src ≠ [] →
  Fs.node_at w src = Some (File st) →
  Fs.is_dir w dest_dir = true →
  Fs.exists_ w (dest_dir /: PurePath.name src) = false →
  let dest := dest_dir /: PurePath.name src in
  ∃ w1 w2,
    safe_move src dest_dir w = (Return dest, w1)
    ∧ safe_move dest (PurePath.parent src) w1 = (Return src, w2)
    ∧ (∃ st1, Fs.node_at w1 dest = Some (File st1) ∧ same_but_ctime st st1)
    ∧ Fs.node_at w1 src = None
    ∧ (∃ st2, tree w2 = <[Fs.key w src := File st2]> (tree w)
              ∧ same_but_ctime st st2)
    ∧ cwd w2 = cwd w ∧ stdin w2 = stdin w
    ∧ log w2 = log w ++ [Call_move src dest; Call_move dest src].
Proof.
  intros Hwf Hsrc Hne Hst Hdir Hfree dest.
  destruct (move_there_and_back w src dest_dir st Hwf Hsrc Hne Hst Hdir Hfree)
    as (w1 & w2 & H1 & H2 & Hat & Hgone & Htree & Hc & Hs & Hl).
  exists w1, w2. split_and!; try done.
  - exists st. by split.
  - exists st. split; [|done]. rewrite Htree. symmetry. apply insert_id.
    unfold Fs.node_at, Fs.lookup_key in Hst. by case_decide.
Qed.

Lemma move_and_move_back_witness :
  ∃ w1 w2,
    safe_move (PurePath.of_string "/in/album/p.jpg")
              (PurePath.of_string "/dest") album
    = (Return (PurePath.of_string "/dest/p.jpg"), w1)
    ∧ safe_move (PurePath.of_string "/dest/p.jpg")
                (PurePath.of_string "/in/album") w1
      = (Return (PurePath.of_string "/in/album/p.jpg"), w2)
    ∧ ∃ st2, tree w2 = <[["in"; "album"; "p.jpg"] := File st2]> (tree album).
Proof.
  destruct (move_and_move_back album (PurePath.of_string "/in/album/p.jpg")
              (PurePath.of_string "/dest") (mkStat 5 300 None 2022))
    as (w1 & w2 & H1 & H2 & _ & _ & (st2 & H3 & _) & _).
  - compute_done.
  - compute_done.
  - discriminate.
  - reflexivity.
  - reflexivity.
  - reflexivity.
  - exists w1, w2. split_and!; [exact H1|exact H2|]. exists st2. exact H3.
Defined.

(** * The move comes about *)

Section success.
Implicit Types (w : world) (p src dst dest_dir : Path)
  (t : gmap (list string) node).

(** A file or a directory moves to a free name in an existing directory,
    a directory into itself apart. *)
Lemma shutil_move_ok src dst w n :
  Fs.key w src ≠ [] →
  tree w !! Fs.key w src = Some n →
  Fs.exists_ w dst = false →
  Fs.lookup_key (tree w) (removelast (Fs.key w dst)) = Some Dir →
  (n = Dir → ¬ Fs.key w src `prefix_of` Fs.key w dst) →
  ∃ w', Os.shutil_move src dst w = (Return (), w').
Proof.
  intros Hks Hsrc [Hkd Hnone]%exists_false Hparent Hinto.
  unfold Os.shutil_move, Os.path_is_dir, Os.path_exists, try_except,
    Os.rename.
  prog_unfold. simpl.
  set (w0 := mkWorld (tree w) (cwd w) (stdin w) (log w ++ [Call_move src dst])).
  change (Fs.key w0 ?p) with (Fs.key w p).
  assert (Fs.is_dir w0 dst = false) as ->.
  { unfold Fs.is_dir, Fs.node_at. simpl.
    change (Fs.key w0 dst) with (Fs.key w dst).
    unfold Fs.lookup_key. rewrite decide_False by done. by rewrite Hnone. }
  simpl. change (Fs.key w0 src) with (Fs.key w src).
  change (Fs.key w0 dst) with (Fs.key w dst).
  unfold Fs.lookup_key at 1. rewrite decide_False by done. rewrite Hsrc.
  rewrite decide_False by (intros Heq; rewrite Heq in Hsrc; congruence).
  rewrite bool_decide_false by tauto.
  rewrite bool_decide_true by done. simpl.
  assert (Fs.lookup_key (tree w) (Fs.key w dst) = None) as Hl
    by by apply lookup_key_None.
  destruct n as [st|]; rewrite Hl; [by eauto|].
  rewrite bool_decide_false by by apply Hinto. by eauto.
Qed.

(** [safe_move], once the destination directory is there: the name is
    chosen, and the move is made under it. *)
Lemma safe_move_steps src dest_dir w w1 :
  Str.mem "/" (PurePath.name src) = false →
  Os.mkdir dest_dir w = (Return (), w1) →
  ∃ dest,
    chosen src dest_dir dest w1
    ∧ safe_move src dest_dir w
      = match Os.shutil_move src dest w1 with
        | (Return _, w2) => (Return dest, w2)
        | (Raise e, w2) => (Raise e, w2)
        | (Diverge, w2) => (Diverge, w2)
        end.
Proof.
  intros Hname Hmk. unfold safe_move, bind, mbind, prog_bind.
  rewrite Hmk. unfold Os.path_exists, reads, mret, prog_ret.
  destruct (Fs.exists_ w1 (dest_dir /: PurePath.name src)) eqn:Ex.
  - destruct (collision_loop _ _ _ _ _ w1) as [[dest|e|] w1'] eqn:El;
      pose proof (collision_loop_spec _ _ _ _ _ _ _ _ El) as [-> Hloop].
    + destruct Hloop as (n & Hn & -> & Hfree & Hbusy).
      exists (dest_dir /: candidate src n). split.
      * split; [done|]. right. exists n. split_and!; [lia|done|done|done].
      * by destruct (Os.shutil_move _ _ w1) as [[[]|e|] w2].
    + done.
    + by destruct (candidates_exhaust w1 dest_dir src Hname).
  - exists (dest_dir /: PurePath.name src). split.
    + split; [done|by left].
    + by destruct (Os.shutil_move _ _ w1) as [[[]|e|] w2].
Qed.

(** A source that exists is moved, whether it is a file or a directory,
    whenever the destination directory can be created and is not the
    source directory itself or inside it. *)
Lemma safe_move_succeeds src dest_dir w w1 :
  wf_tree (tree w) → Str.mem "/" (PurePath.name src) = false →
  Fs.key w src ≠ [] → Fs.exists_ w src = true →
  Os.mkdir dest_dir w = (Return (), w1) →
  (Fs.is_dir w src = true →
   ¬ Fs.key w src `prefix_of` Fs.key w dest_dir) →
  ∃ dest w', safe_move src dest_dir w = (Return dest, w').
Proof.
  intros Hwf Hname Hks Hex Hmk Hinto.
  destruct (safe_move_steps _ _ _ _ Hname Hmk) as (dest & Hch & ->).
  destruct (chosen_valid _ _ _ _ _ Hname Hmk Hch) as (s & Hs & ->).
  pose proof (mkdir_spec _ _ _ _ Hmk) as (Hc1 & _ & _ & Hsub & _ & Hm).
  destruct Hm as [(_ & Hdir & _)|[? _]]; [|done].
  destruct (exists_true _ _ Hex Hks) as [n Hn].
  destruct (shutil_move_ok src (dest_dir /: s) w1 n) as [w' Hmv].
  - by rewrite (key_cwd w w1).
  - rewrite (key_cwd w w1) by done. by eapply lookup_weaken.
  - apply Hch.
  - rewrite key_truediv_valid, removelast_last by done.
    by apply is_dir_lookup.
  - intros -> Hpre.
    rewrite key_truediv_valid, !(key_cwd w w1) in Hpre by done.
    assert (Fs.is_dir w src = true) as Hd.
    { unfold Fs.is_dir, Fs.node_at, Fs.lookup_key.
      rewrite decide_False by done. by rewrite Hn. }
    destruct (decide (Fs.key w src = Fs.key w dest_dir ++ [s])) as [Heq|Hne].
    + destruct Hch as [[_ Hfree]%exists_false _].
      rewrite key_truediv_valid, (key_cwd w w1) in Hfree by done.
      rewrite <-Heq in Hfree.
      by rewrite (lookup_weaken _ _ _ _ Hn Hsub) in Hfree.
    + apply (Hinto Hd). by apply prefix_snoc_inv in Hpre.
  - exists (dest_dir /: s), w'. by rewrite Hmv.
Qed.

End success.

(** C3. [safe_move] never overwrites: it terminates; every entry that is not
    the source or below it is still there afterwards, unchanged, whether the
    move succeeds or fails; on success the destination is a path that did not
    exist, and it now holds what the source held. The destination is the
    source's name inside the destination directory when that name is free
    there, and otherwise [<stem>_<n><suffix>] for the least [n >= 1] whose
    name is free. Files and directories are treated alike, and the move
    comes about: a source that exists, a file or a directory, is moved
    whenever the destination directory can be created and is not the source
    directory itself or inside it, however many of the names are taken. Of
    two files named [a.txt] moved into one directory the second becomes
    [a_1.txt]; where [a.txt], [a_1.txt] and [a_2.txt] are taken the file
    becomes [a_3.txt], and where [album] and [album_1] are taken the
    directory [album] becomes [album_2], with what it holds. *)
Theorem safe_move_never_overwrites (w : world) (src dest_dir : Path)
    (r : outcome Path) (w' : world) :
  wf_tree (tree w) → wf_path src →
  safe_move src dest_dir w = (r, w') →
  r ≠ Diverge
  ∧ (∀ k n, tree w !! k = Some n →
            ¬ Fs.key w src `prefix_of` k ∨ (∀ d, r ≠ Return d) →
            tree w' !! k = Some n)
  ∧ (∀ dest, r = Return dest →
       Fs.exists_ w dest = false
       ∧ is_Some (Fs.node_at w src)
       ∧ Fs.node_at w' dest = Fs.node_at w src
       ∧ ∃ w1, Os.mkdir dest_dir w = (Return (), w1)
               ∧ chosen src dest_dir dest w1)
  ∧ (let d := PurePath.of_string "/dest" in
     let m1 := safe_move (PurePath.of_string "/in1/a.txt") d two_sources in
     let m2 := safe_move (PurePath.of_string "/in2/a.txt") d m1.2 in
     m1.1 = Return (PurePath.of_string "/dest/a.txt")
     ∧ m2.1 = Return (PurePath.of_string "/dest/a_1.txt")
     ∧ Fs.node_at m2.2 (PurePath.of_string "/dest/a.txt")
       = Some (File (mkStat 1 100 None 2023))
     ∧ Fs.node_at m2.2 (PurePath.of_string "/dest/a_1.txt")
       = Some (File (mkStat 2 200 None 2024)))
  ∧ (∀ w1,
       parts src ≠ [] → Fs.exists_ w src = true →
       Os.mkdir dest_dir w = (Return (), w1) →
       (Fs.is_dir w src = true →
        ¬ Fs.key w src `prefix_of` Fs.key w dest_dir) →
       ∃ dest, r = Return dest)
  ∧ (let d := PurePath.of_string "/dest" in
     let m1 := safe_move (PurePath.of_string "/in/a.txt") d crowded in
     let m2 := safe_move (PurePath.of_string "/in/album") d m1.2 in
     m1.1 = Return (PurePath.of_string "/dest/a_3.txt")
     ∧ m2.1 = Return (PurePath.of_string "/dest/album_2")
     ∧ Fs.node_at m2.2 (PurePath.of_string "/dest/a_3.txt")
       = Some (File (mkStat 10 1000 None 2024))
     ∧ Fs.node_at m2.2 (PurePath.of_string "/dest/album_2/p.jpg")
       = Some (File (mkStat 11 300 None 2022))
     ∧ Fs.node_at m2.2 (PurePath.of_string "/dest/a.txt")
       = Some (File (mkStat 1 100 None 2021))
     ∧ Fs.node_at m2.2 (PurePath.of_string "/dest/a_1.txt")
       = Some (File (mkStat 2 200 None 2021))
     ∧ Fs.node_at m2.2 (PurePath.of_string "/dest/a_2.txt") = Some Dir
     ∧ Fs.node_at m2.2 (PurePath.of_string "/dest/album/q.jpg")
       = Some (File (mkStat 3 50 None 2020))
     ∧ Fs.node_at m2.2 (PurePath.of_string "/dest/album_1")
       = Some (File (mkStat 4 60 None 2020))
     ∧ Fs.exists_ m2.2 (PurePath.of_string "/in/a.txt") = false
     ∧ Fs.exists_ m2.2 (PurePath.of_string "/in/album") = false).
Proof.
  intros Hwf Hsrc Hmove.
  pose proof (wf_path_name_mem _ Hsrc) as Hname.
  pose proof (safe_move_spec _ _ _ _ _ Hwf Hname Hmove)
    as (_ & _ & Hpres & Hr).
  split_and!.
  - by destruct r.
  - exact Hpres.
  - intros dest ->. destruct Hr as (_ & ? & ? & ? & _ & ?). by split_and!.
  - vm_compute. by split_and!.
  - intros w1 Hparts Hex Hmk Hinto.
    destruct (safe_move_succeeds src dest_dir w w1) as (dest & w2 & Hrun);
      [done|done| |done|done|done|].
    + unfold Fs.key. intros Hnil. by apply app_eq_nil in Hnil as [_ ?].
    + exists dest. congruence.
  - vm_compute. by split_and!.
Qed.

Lemma safe_move_never_overwrites_witness :
  let d := PurePath.of_string "/dest" in
  let src := PurePath.of_string "/in1/a.txt" in
  (safe_move src d two_sources).1 ≠ Diverge.
Proof.
  intros d src.
  refine (proj1 (safe_move_never_overwrites two_sources src d _ _ _ _ _)).
  - compute_done.
  - compute_done.
  - apply surjective_pairing.
Defined.




Section folders.
Implicit Types (w : world) (p src dst folderpath : Path).

(** [sort_folder] on a directory, step by step. *)
Lemma sort_folder_dir folderpath config base_dir w :
  Fs.is_dir w folderpath = true →
  sort_folder folderpath config base_dir w =
    match dict_get (routing config) "Folders" with
    | None =>
        (Raise (KeyError "No 'Folders' category defined in config.json"), w)
    | Some rules =>
        match rule_path rules with
        | None => (Raise (KeyError "path"), w)
        | Some path =>
            match safe_move folderpath
                    (match base_dir with
                     | Some base =>
                         PurePath.joinpath base (PurePath.of_string path)
                     | None => PurePath.of_string path
                     end) w with
            | (Return final, w') => (Return ("Folders", final), w')
            | (Raise e, w') => (Raise e, w')
            | (Diverge, w') => (Diverge, w')
            end
        end
    end.
Proof.
  intros H. unfold sort_folder, Os.path_is_dir.
  unfold bind at 1, mbind at 1, prog_bind at 1, reads.
  rewrite H. simpl.
  destruct (dict_get _ _) as [rules|]; [|done].
  unfold bind, mbind, prog_bind, getitem.
  destruct (rule_path rules) as [path|]; [|done]. simpl.
  destruct base_dir as [base|]; simpl.
  - destruct (Str.startswith "/" path) eqn:E; simpl.
    + unfold PurePath.joinpath. simpl. rewrite E.
      by destruct (safe_move _ _ w) as [[final|e|] w'].
    + by destruct (safe_move _ _ w) as [[final|e|] w'].
  - by destruct (safe_move _ _ w) as [[final|e|] w'].
Qed.
End folders.

(** X4. [sort_file] refuses before it touches anything: a path that is not
    a regular file gives [ValueError]; a file whose category has no entry in
    the routing gives [KeyError] with the name of the category, which is
    [Others] for a file no rule accepts; an entry without a path gives
    [KeyError] for [path]. In each case the world is left as it was: no
    directory is created and no move is attempted. *)
Theorem sort_file_refuses (w : world) (filepath : Path) (config : config)
    (base_dir : option Path) :
  (Fs.is_file w filepath = false →
   sort_file filepath config base_dir w
   = (Raise (ValueError "Not a file"), w))
  ∧ (∀ st,
       Fs.node_at w filepath = Some (File st) →
       let md := metadata_of_stat filepath st in
       let category := match_category md (routing config) in
       (dict_get (routing config) category = None →
        sort_file filepath config base_dir w = (Raise (KeyError category), w))
       ∧ (Forall (skipped md) (routing config) →
          dict_get (routing config) "Others" = None →
          sort_file filepath config base_dir w
          = (Raise (KeyError "Others"), w))
       ∧ (∀ rules,
            dict_get (routing config) category = Some rules →
            rule_path rules = None →
            sort_file filepath config base_dir w
            = (Raise (KeyError "path"), w))).
Proof.
  split; [apply sort_file_not_file|].
  intros st Hst md category.
  pose proof (sort_file_file filepath config base_dir w st Hst) as Heq.
  cbv zeta in Heq. fold md in Heq. fold category in Heq.
  split_and!.
  - intros Hnone. by rewrite Heq, Hnone.
  - intros Hskip Hnone.
    assert (category = "Others") as Hc by by apply match_category_skipped.
    by rewrite Heq, Hc, Hnone.
  - intros rules Hrules Hpath. by rewrite Heq, Hrules, Hpath.
Qed.

(** X5. [sort_folder] moves a directory intact. A path that is not a
    directory gives [ValueError] and a routing without [Folders] gives
    [KeyError], the world being left as it was. On success the category is
    [Folders]; the directory lies in the folder configured for [Folders],
    resolved against the base directory when it is relative; everything it
    held is below it at the same relative place; nothing is left at the old
    place; the year and type flags of the rule play no part. *)
Theorem sort_folder_moves_intact (w : world) (folderpath : Path)
    (config : config) (base_dir : option Path) :
  wf_tree (tree w) → wf_path folderpath →
  (Fs.is_dir w folderpath = false →
   sort_folder folderpath config base_dir w
   = (Raise (ValueError "Not a directory"), w))
  ∧ (Fs.is_dir w folderpath = true →
     dict_get (routing config) "Folders" = None →
     sort_folder folderpath config base_dir w
     = (Raise (KeyError "No 'Folders' category defined in config.json"), w))
  ∧ (∀ category final w',
       sort_folder folderpath config base_dir w
       = (Return (category, final), w') →
       category = "Folders"
       ∧ ∃ rules path,
           dict_get (routing config) "Folders" = Some rules
           ∧ rule_path rules = Some path
           ∧ PurePath.parent final
             = match base_dir with
               | Some base => PurePath.joinpath base (PurePath.of_string path)
               | None => PurePath.of_string path
               end
           ∧ Fs.node_at w' final = Some Dir
           ∧ (∀ rel, tree w' !! (Fs.key w final ++ rel)
                     = tree w !! (Fs.key w folderpath ++ rel))
           ∧ (∀ k, Fs.key w folderpath `prefix_of` k → tree w' !! k = None)).
Proof.
  intros Hwf Hpath. split_and!.
  - intros Hno. unfold sort_folder, Os.path_is_dir. prog_unfold.
    by rewrite Hno.
  - intros Hdir Hnone. by rewrite sort_folder_dir, Hnone.
  - intros category final w' Hrun.
    destruct (Fs.is_dir w folderpath) eqn:Hdir.
    2:{ revert Hrun. unfold sort_folder, Os.path_is_dir. prog_unfold.
        by rewrite Hdir. }
    rewrite sort_folder_dir in Hrun by done.
    destruct (dict_get _ _) as [rules|] eqn:Hrules; [|done].
    destruct (rule_path rules) as [path|] eqn:Hrpath; [|done].
    destruct (safe_move _ _ w) as [[final'|e|] w''] eqn:Hmove; [|done..].
    injection Hrun as <- <- <-. split; [done|].
    exists rules, path.
    pose proof (wf_path_name_mem _ Hpath) as Hmem.
    destruct (safe_move_contents _ _ _ _ _ Hwf Hpath Hmove)
      as (Hunder & Hgone & _).
    pose proof (safe_move_spec _ _ _ _ _ Hwf Hmem Hmove)
      as (_ & _ & _ & _ & _ & _ & Hat & _ & w1 & Hmk & Hch).
    destruct (chosen_parent _ _ _ _ _ Hmem Hmk Hch) as [Hparent _].
    split_and!; try done.
    rewrite Hat. apply is_dir_lookup in Hdir. exact Hdir.
Qed.

Lemma sort_folder_moves_intact_witness :
  (sort_folder (PurePath.of_string "/in/album") blocked_folders None
               album).1
  = Return ("Folders", PurePath.of_string "/dest/dirs/album")
  ∧ PurePath.parent (PurePath.of_string "/dest/dirs/album")
    = PurePath.of_string "/dest/dirs".
Proof.
  destruct (sort_folder_moves_intact album (PurePath.of_string "/in/album")
              blocked_folders None)
    as (_ & _ & Hok).
  - compute_done.
  - compute_done.
  - destruct (Hok "Folders" (PurePath.of_string "/dest/dirs/album")
                (sort_folder (PurePath.of_string "/in/album") blocked_folders
                             None album).2)
      as (_ & rules & path & Hrules & Hrpath & Hparent & _).
    + apply pair_eta_l. reflexivity.
    + split; [reflexivity|].
      injection Hrules as <-. injection Hrpath as <-. exact Hparent.
Defined.

(** * The walks *)

Section listing.
Implicit Types (w : world) (p top : Path) (t : gmap (list string) node).

Lemma children_spec t d x n :
  (x, n) ∈ Fs.children t d ↔ t !! (d ++ [x]) = Some n.
Proof.
  split; [|apply children_elem]. unfold Fs.children. intros H.
  apply list_elem_of_omap in H as ([k m] & Hin & Hm). simpl in Hm.
  destruct (Fs.strip_prefix d k) as [[|y [|]]|] eqn:E; try done.
  injection Hm as -> ->. apply strip_prefix_Some in E as ->.
  by apply elem_of_map_to_list in Hin.
Qed.

Lemma dir_names_spec t d x :
  x ∈ Manual.dir_names (Fs.children t d) ↔ t !! (d ++ [x]) = Some Dir.
Proof.
  unfold Manual.dir_names. rewrite list_elem_of_fmap. split.
  - intros ([y n] & -> & [Hd Hin]%list_elem_of_filter). simpl in *.
    apply children_spec in Hin. by destruct n.
  - intros H. exists (x, Dir). split; [done|].
    apply list_elem_of_filter. split; [done|by apply children_spec].
Qed.

Lemma nondir_names_spec t d x :
  x ∈ Manual.nondir_names (Fs.children t d)
  ↔ ∃ st, t !! (d ++ [x]) = Some (File st).
Proof.
  unfold Manual.nondir_names. rewrite list_elem_of_fmap. split.
  - intros ([y n] & -> & [Hd Hin]%list_elem_of_filter). simpl in *.
    apply children_spec in Hin. destruct n; [by eauto|done].
  - intros [st H]. exists (x, File st). split; [done|].
    apply list_elem_of_filter. split; [done|by apply children_spec].
Qed.

(** An entry lies no deeper than the tree has entries. *)
Lemma wf_key_length t k n : wf_tree t → t !! k = Some n → length k ≤ size t.
Proof.
  intros Hwf Hk.
  set (f := λ i, take i k). set (ms := seq 1 (length k)).
  assert (NoDup (f <$> ms)) as Hnd.
  { apply NoDup_fmap_2_strong; [|apply NoDup_seq].
    intros i j Hi%elem_of_seq Hj%elem_of_seq Hf.
    apply (f_equal length) in Hf. unfold f in Hf.
    rewrite !length_take in Hf. lia. }
  assert (list_to_set (f <$> ms) ⊆ dom t) as Hsub.
  { intros k' Hk'. apply elem_of_list_to_set, list_elem_of_fmap in Hk'.
    destruct Hk' as (i & -> & Hi%elem_of_seq). apply elem_of_dom.
    destruct (decide (take i k = k)) as [Heq|Hne]; [unfold f; rewrite Heq; by eauto|].
    pose proof (wf_ancestor t k n (take i k) Hwf Hk) as Ha.
    unfold Fs.lookup_key in Ha. rewrite decide_False in Ha.
    - unfold f. rewrite Ha; [by eauto|apply prefix_take|done].
    - intros Hnil. apply (f_equal length) in Hnil.
      rewrite length_take in Hnil. simpl in Hnil. lia. }
  apply subseteq_size in Hsub.
  rewrite size_list_to_set, size_dom, length_fmap in Hsub by done.
  unfold ms in Hsub. by rewrite length_seq in Hsub.
Qed.

Lemma child_valid t d x n :
  wf_names t → t !! (d ++ [x]) = Some n → valid_name x.
Proof.
  intros Hn Hk. specialize (Hn _ _ Hk). simpl in Hn.
  by apply Forall_app in Hn as [_ [? _]%Forall_cons].
Qed.

Lemma scandir_Some w top es :
  Fs.scandir w top = Some es →
  Fs.is_dir w top = true ∧ es = Fs.children (tree w) (Fs.key w top).
Proof.
  unfold Fs.scandir. destruct (Fs.is_dir w top); [|done].
  by intros [= <-].
Qed.

Lemma scandir_None w top k n :
  wf_tree (tree w) → Fs.scandir w top = None →
  tree w !! k = Some n → Fs.key w top `prefix_of` k → k = Fs.key w top.
Proof.
  intros Hwf Hs Hk Hp. destruct (decide (k = Fs.key w top)) as [|Hne]; [done|].
  assert (Fs.key w top ≠ k) as Hne' by congruence.
  pose proof (wf_ancestor _ _ _ _ Hwf Hk Hp Hne') as Ha.
  apply is_dir_lookup in Ha. unfold Fs.scandir in Hs. by rewrite Ha in Hs.
Qed.

(** The files a walk collects below the subdirectories [ds] of [top]. *)
Lemma collect_children fuel top w (ds : list string) :
  (∀ d, d ∈ ds → ∀ acc, ∃ found,
     Manual.os_walk fuel (top /: d)
       (λ root _dirs filenames files,
          mret (_dirs, files ++ ((λ fn, root /: fn) <$> filenames)))
       acc w = (Return (acc ++ found), w)
     ∧ ∀ p, p ∈ found ↔ file_below w (top /: d) p) →
  ∀ acc, ∃ found,
    for_each ds
      (λ d s, Manual.os_walk fuel (top /: d)
                (λ root _dirs filenames files,
                   mret (_dirs, files ++ ((λ fn, root /: fn) <$> filenames)))
                s)
      acc w = (Return (acc ++ found), w)
    ∧ ∀ p, p ∈ found ↔ ∃ d, d ∈ ds ∧ file_below w (top /: d) p.
Proof.
  induction ds as [|d ds IH]; intros Hc acc.
  - exists []. simpl. rewrite app_nil_r. split; [done|].
    intros p. split; [by intros ?%elem_of_nil|].
    by intros (d & ?%elem_of_nil & _).
  - destruct (Hc d ltac:(left) acc) as (f1 & Hw1 & Hf1).
    destruct (IH (λ d' Hd', Hc d' (list_elem_of_further _ _ _ Hd'))
                 (acc ++ f1)) as (f2 & Hw2 & Hf2).
    exists (f1 ++ f2). split.
    + simpl. unfold bind, mbind, prog_bind. rewrite Hw1, Hw2.
      by rewrite (assoc_L (++)).
    + intros p. rewrite elem_of_app, Hf1, Hf2. split.
      * intros [H|(d' & Hd' & H)]; [exists d|exists d']; split; try done;
          [left|by right].
      * intros (d' & [->|Hd']%elem_of_cons & H); [by left|right; by eauto].
Qed.

(** One level of the walk, given what the walk finds below each
    subdirectory. *)
Lemma collect_level fuel top acc w :
  wf_tree (tree w) → wf_names (tree w) →
  (∀ d, tree w !! (Fs.key w top ++ [d]) = Some Dir → ∀ acc, ∃ found,
     Manual.os_walk fuel (top /: d)
       (λ root _dirs filenames files,
          mret (_dirs, files ++ ((λ fn, root /: fn) <$> filenames)))
       acc w = (Return (acc ++ found), w)
     ∧ ∀ p, p ∈ found ↔ file_below w (top /: d) p) →
  ∃ found,
    Manual.os_walk (S fuel) top
      (λ root _dirs filenames files,
         mret (_dirs, files ++ ((λ fn, root /: fn) <$> filenames)))
      acc w = (Return (acc ++ found), w)
    ∧ ∀ p, p ∈ found ↔ file_below w top p.
Proof.
  intros Hwf Hnames Hsub. cbn [Manual.os_walk].
  unfold bind at 1, mbind at 1, prog_bind at 1, reads at 1.
  destruct (Fs.scandir w top) as [es|] eqn:Hscan.
  2:{ exists []. rewrite app_nil_r. split; [done|].
      intros p. split; [by intros ?%elem_of_nil|].
      intros (rel & st & Hrel & _ & Hk). exfalso.
      apply Hrel. apply (inj (app (Fs.key w top))). rewrite app_nil_r.
      eapply (scandir_None w top); [done|done|done|by exists rel]. }
  apply scandir_Some in Hscan as [Hdir ->].
  unfold bind at 1, mbind at 1, prog_bind at 1, mret at 1, prog_ret at 1.
  set (here := (λ fn, top /: fn)
                 <$> Manual.nondir_names
                       (Fs.children (tree w) (Fs.key w top))).
  destruct (collect_children fuel top w
              (Manual.dir_names (Fs.children (tree w) (Fs.key w top))))
    with (acc := acc ++ here) as (fc & Hrun & Hfc).
  { intros d Hd%dir_names_spec. by apply Hsub. }
  exists (here ++ fc). split; [by rewrite Hrun, (assoc_L (++))|].
  intros p. rewrite elem_of_app, Hfc. unfold here.
  rewrite list_elem_of_fmap. split.
  - intros [(fn & -> & [st Hfn]%nondir_names_spec)
           |(d & Hd%dir_names_spec & rel & st & Hrel & -> & Hk)].
    + exists [fn], st. split; [done|]. split; [|done].
      rewrite truediv_valid; [done|]. by eapply child_valid.
    + pose proof (child_valid _ _ _ _ Hnames Hd) as Hv.
      exists (d :: rel), st. split; [done|].
      rewrite truediv_valid by done.
      rewrite key_truediv_valid in Hk by done. simpl.
      rewrite <-!(assoc_L (++)) in *. by split.
  - intros (rel & st & Hrel & -> & Hk).
    destruct rel as [|x rel]; [done|].
    destruct (decide (rel = [])) as [->|Hne].
    + left. exists x. split.
      * rewrite truediv_valid; [done|]. by eapply child_valid.
      * apply nondir_names_spec. by eauto.
    + right. exists x.
      assert (tree w !! (Fs.key w top ++ [x]) = Some Dir) as Hd.
      { pose proof (wf_ancestor _ _ _ (Fs.key w top ++ [x]) Hwf Hk) as Ha.
        unfold Fs.lookup_key in Ha.
        rewrite decide_False in Ha by by destruct (Fs.key w top).
        apply Ha.
        - exists rel. by rewrite <-(assoc_L (++)).
        - intros Heq. apply (inj (app _)) in Heq. congruence. }
      split; [by apply dir_names_spec|].
      pose proof (child_valid _ _ _ _ Hnames Hd) as Hv.
      exists rel, st. split; [done|].
      rewrite key_truediv_valid by done.
      rewrite truediv_valid by done. simpl.
      rewrite <-!(assoc_L (++)). by split.
Qed.

Lemma collect_walk f :
  ∀ top acc w,
    wf_tree (tree w) → wf_names (tree w) →
    (∀ k n, tree w !! k = Some n → Fs.key w top `prefix_of` k →
            length k ≤ length (Fs.key w top) + f) →
    ∃ found,
      Manual.os_walk (S f) top
        (λ root _dirs filenames files,
           mret (_dirs, files ++ ((λ fn, root /: fn) <$> filenames)))
        acc w = (Return (acc ++ found), w)
      ∧ ∀ p, p ∈ found ↔ file_below w top p.
Proof.
  induction f as [|f IH]; intros top acc w Hwf Hnames Hbound;
    apply collect_level; try done; intros d Hd acc'.
  - specialize (Hbound _ _ Hd (prefix_app_r _ _ _ (reflexivity _))).
    rewrite length_app in Hbound. simpl in Hbound. lia.
  - apply IH; [done|done|].
    intros k n Hk Hp.
    rewrite (key_truediv_valid _ _ _ (child_valid _ _ _ _ Hnames Hd)) in *.
    rewrite length_app. simpl.
    assert (Fs.key w top `prefix_of` k) as Hp'.
    { etrans; [|done]. by apply prefix_app_r. }
    specialize (Hbound _ _ Hk Hp'). lia.
Qed.
End listing.

(** X6. [_collect_all_files] lists exactly the regular files that lie
    below the directory, at whatever depth, each under the path a walk from
    the directory gives it; it lists nothing for a path that is not a
    directory; it always returns, and it leaves the world as it was. *)
Theorem collect_all_files_exact (w : world) (directory : Path) :
  wf_tree (tree w) → wf_names (tree w) →
  ∃ files,
    Manual._collect_all_files directory w = (Return files, w)
    ∧ (∀ p, p ∈ files ↔ file_below w directory p)
    ∧ (∀ p, p ∈ files →
            Fs.is_file w p = true
            ∧ Fs.key w directory `prefix_of` Fs.key w p
            ∧ Fs.key w p ≠ Fs.key w directory)
    ∧ (Fs.is_dir w directory = false → files = []).
Proof.
  intros Hwf Hnames.
  destruct (collect_walk (size (tree w)) directory [] w Hwf Hnames)
    as (files & Hrun & Hiff).
  { intros k n Hk _. pose proof (wf_key_length _ _ _ Hwf Hk). lia. }
  exists files. split_and!.
  - unfold Manual._collect_all_files, Manual.depth_bound.
    unfold bind at 1, mbind at 1, prog_bind at 1, reads at 1.
    exact Hrun.
  - done.
  - intros p (rel & st & Hrel & -> & Hk)%Hiff.
    assert (Fs.key w (mkPath (is_absolute directory)
                             (parts directory ++ rel))
            = Fs.key w directory ++ rel) as Hkey.
    { unfold Fs.key. simpl. by rewrite (assoc_L (++)). }
    rewrite Hkey. split_and!.
    + unfold Fs.is_file, Fs.node_at, Fs.lookup_key. rewrite Hkey.
      rewrite decide_False; [by rewrite Hk|].
      intros [_ ?]%app_eq_nil. done.
    + by exists rel.
    + intros Heq. apply Hrel. apply (inj (app (Fs.key w directory))).
      by rewrite app_nil_r.
  - intros Hno. destruct files as [|p files]; [done|]. exfalso.
    destruct (proj1 (Hiff p) ltac:(left)) as (rel & st & Hrel & _ & Hk).
    assert (Fs.key w directory ≠ Fs.key w directory ++ rel) as Hne.
    { intros Heq. apply Hrel. apply (inj (app (Fs.key w directory))).
      by rewrite app_nil_r. }
    pose proof (wf_ancestor _ _ _ (Fs.key w directory) Hwf Hk
                  (prefix_app_r _ _ _ (reflexivity _)) Hne) as Ha.
    apply is_dir_lookup in Ha. congruence.
Qed.

Lemma collect_all_files_exact_witness :
  ∃ files,
    Manual._collect_all_files (PurePath.of_string "/in") album
    = (Return files, album)
    ∧ PurePath.of_string "/in/album/p.jpg" ∈ files.
Proof.
  destruct (collect_all_files_exact album (PurePath.of_string "/in"))
    as (files & Hrun & Hiff & _).
  - compute_done.
  - compute_done.
  - exists files. split; [exact Hrun|]. apply Hiff.
    exists ["album"; "p.jpg"], (mkStat 5 300 None 2022).
    split_and!; [discriminate|reflexivity|reflexivity].
Defined.

(** * Pruning *)

(** The body of the loop of [_remove_empty_dirs] over [dirs]. *)
Local Abbreviation remove_if_empty root :=
  (λ (d : string) (_ : ()),
     let dp := root /: d in
     try_except_OSError
       (let* es := Os.iterdir dp in
        if bool_decide (es = []) then
          Os.rmdir dp;;
          emit (Print_removed dp)
        else mret ())).

Local Abbreviation prune_body :=
  (λ (root : Path) (dirs _files : list string),
     for_each dirs (remove_if_empty root) ()).

Section pruning.
Implicit Types (w : world) (p top dp : Path) (t : gmap (list string) node).

Lemma for_each_cons {A S} (x : A) (l : list A) (body : A → S → prog S)
    (s : S) w (s1 : S) w1 :
  body x s w = (Return s1, w1) →
  for_each (x :: l) body s w = for_each l body s1 w1.
Proof.
  intros H. cbn [for_each]. unfold bind, mbind, prog_bind. by rewrite H.
Qed.

Lemma os_walk_bottomup_S fuel top
    (body : Path → list string → list string → prog unit) w :
  Manual.os_walk_bottomup (S fuel) top body w
  = match Fs.scandir w top with
    | None => (Return (), w)
    | Some es =>
        match for_each (Manual.dir_names es)
                (λ d _, Manual.os_walk_bottomup fuel (top /: d) body) () w
        with
        | (Return _, w1) =>
            body top (Manual.dir_names es) (Manual.nondir_names es) w1
        | (Raise e, w1) => (Raise e, w1)
        | (Diverge, w1) => (Diverge, w1)
        end
    end.
Proof.
  cbn [Manual.os_walk_bottomup].
  unfold bind at 1, mbind at 1, prog_bind at 1, reads at 1.
  destruct (Fs.scandir w top) as [es|]; [|done].
  unfold mbind, prog_bind.
  by destruct (for_each _ _ _ w) as [[[]|e|] w1].
Qed.

Lemma quiet_refl w : quiet w w.
Proof.
  split_and!; [done|done|]. exists []. by rewrite app_nil_r.
Qed.

Lemma quiet_trans w1 w2 w3 : quiet w1 w2 → quiet w2 w3 → quiet w1 w3.
Proof.
  intros (Hc1 & Hs1 & l1 & Hl1 & Hr1) (Hc2 & Hs2 & l2 & Hl2 & Hr2).
  split_and!; [congruence|congruence|].
  exists (l1 ++ l2). split; [|by apply Forall_app].
  by rewrite Hl2, Hl1, (assoc_L (++)).
Qed.

(** Taking away an entry that has nothing below it. *)
Lemma delete_leaf_wf t k :
  wf_tree t →
  (∀ k' n, t !! k' = Some n → k `prefix_of` k' → k' = k) →
  wf_tree (delete k t).
Proof.
  intros Hwf Hleaf k' n [Hne Hk']%lookup_delete_Some.
  destruct (Hwf _ _ Hk') as [Hnil Hp]. split; [done|].
  unfold Fs.lookup_key in *.
  destruct (decide (removelast k' = [])) as [|Hr]; [done|].
  rewrite lookup_delete_ne; [done|].
  intros ->. apply Hne. symmetry. apply (Hleaf _ _ Hk').
  apply removelast_prefix.
Qed.

(** One turn of the loop: the directory is removed when it is empty, and
    nothing happens otherwise, whatever [dp] is. *)
Lemma remove_if_empty_spec root d w :
  wf_tree (tree w) →
  let dp := root /: d in
  (remove_if_empty root d () w = (Return (), w)
   ∧ (tree w !! Fs.key w dp = Some Dir →
      Fs.children (tree w) (Fs.key w dp) ≠ []))
  ∨ (tree w !! Fs.key w dp = Some Dir
     ∧ Fs.children (tree w) (Fs.key w dp) = []
     ∧ remove_if_empty root d () w
       = (Return (),
          mkWorld (delete (Fs.key w dp) (tree w)) (cwd w) (stdin w)
                  (log w ++ [Print_removed dp]))).
Proof.
  intros Hwf dp.
  unfold try_except_OSError, Os.iterdir, Os.rmdir, Os.path_exists.
  prog_unfold. unfold Fs.scandir, Fs.is_dir, Fs.exists_, Fs.node_at.
  fold dp.
  destruct (Fs.lookup_key (tree w) (Fs.key w dp)) as [[st|]|] eqn:E; simpl.
  - left. split; [by destruct (bool_decide _)|]. unfold Fs.lookup_key in E.
    case_decide; congruence.
  - destruct (Fs.children (tree w) (Fs.key w dp)) as [|c cs] eqn:Ec; simpl.
    + rewrite E. destruct (decide (Fs.key w dp = [])) as [Hnil|Hne].
      * left. split; [done|]. intros Hk.
        rewrite Hnil in Hk. by destruct (Hwf _ _ Hk).
      * right. unfold Fs.lookup_key in E. rewrite decide_False in E by done.
        rewrite Ec. simpl. done.
    + left. split; [done|]. done.
  - left. split; [by destruct (bool_decide _)|].
    unfold Fs.lookup_key in E. case_decide; congruence.
Qed.

Lemma sibling (kt k : list string) d d' :
  kt ++ [d] `prefix_of` k → kt ++ [d'] `prefix_of` k → d = d'.
Proof.
  intros [r ->] [r' Hr]. rewrite <-!(assoc_L (++)) in Hr.
  apply (inj (app kt)) in Hr. simpl in Hr. congruence.
Qed.

Lemma child_not_below (kt : list string) d d' :
  ¬ strictly_below (kt ++ [d]) (kt ++ [d']).
Proof.
  intros [Hp Hne]. apply Hne.
  pose proof (sibling kt (kt ++ [d']) d d' Hp (reflexivity _)).
  congruence.
Qed.

Lemma grandchild_not_child (kt : list string) d x d' :
  (kt ++ [d]) ++ [x] ≠ kt ++ [d'].
Proof.
  intros H%(f_equal length). rewrite !length_app in H. simpl in H. lia.
Qed.

(** The loop that removes the empty ones among the subdirectories [ds]. *)
Lemma emptied_loop top (ds : list string) :
  Forall valid_name ds →
  ∀ w, wf_tree (tree w) →
    ∃ w', for_each ds (remove_if_empty top) () w = (Return (), w')
          ∧ quiet w w'
          ∧ emptied (Fs.key w top) ds (tree w) (tree w').
Proof.
  induction 1 as [|d ds Hd _ IH]; intros w Hwf.
  { exists w. split_and!; [done|apply quiet_refl|].
    split_and!; try done. intros d ?%elem_of_nil. done. }
  pose proof (remove_if_empty_spec top d w Hwf) as Hstep.
  cbv zeta in Hstep. rewrite (key_truediv_valid _ _ _ Hd) in Hstep.
  set (kt := Fs.key w top) in *.
  destruct Hstep as [[Hrun Hfull]|(Hdir & Hempty & Hrun)].
  - destruct (IH w Hwf) as (w' & Hrest & Hq & Hsub & Hfiles & Hframe & Hwf'
                            & Hne).
    fold kt in Hframe, Hne.
    exists w'. split_and!; [|done|].
    { by rewrite (for_each_cons d ds (remove_if_empty top) () w () w Hrun). }
    split_and!; try done.
    + intros k Hk. apply Hframe. intros d' Hd'. apply Hk. by right.
    + intros d' [->|Hd']%elem_of_cons; [|by apply Hne].
      intros Hin.
      assert (tree w !! (kt ++ [d]) = Some Dir) as Hin0
        by by eapply lookup_weaken.
      specialize (Hfull Hin0).
      destruct (Fs.children (tree w) (kt ++ [d])) as [|[x n] cs] eqn:Ec;
        [done|].
      exists x, n. rewrite Hframe.
      * apply children_spec. rewrite Ec. by left.
      * intros d' _. apply grandchild_not_child.
  - set (w1 := mkWorld (delete (kt ++ [d]) (tree w)) (cwd w) (stdin w)
                       (log w ++ [Print_removed (top /: d)])) in *.
    assert (wf_tree (tree w1)) as Hwf1.
    { apply delete_leaf_wf; [done|].
      intros k' n Hk' Hp. by eapply children_nil. }
    destruct (IH w1 Hwf1) as (w' & Hrest & Hq & Hsub & Hfiles & Hframe & Hwf'
                              & Hne).
    change (Fs.key w1 top) with kt in *.
    exists w'. split_and!.
    { by rewrite (for_each_cons d ds (remove_if_empty top) () w () w1 Hrun). }
    { apply (quiet_trans w w1); [|done].
      split_and!; [done|done|]. exists [Print_removed (top /: d)].
      split; [done|]. apply Forall_singleton. by eexists. }
    split_and!; try done.
    + etrans; [done|]. apply delete_subseteq.
    + intros k st Hk. apply Hfiles. simpl.
      rewrite lookup_delete_ne; [done|]. intros <-. congruence.
    + intros k Hk. rewrite Hframe.
      * simpl. apply lookup_delete_ne. intros <-.
        by apply (Hk d ltac:(left)).
      * intros d' Hd'. apply Hk. by right.
    + intros d' [->|Hd']%elem_of_cons; [|by apply Hne].
      intros Hin. exfalso.
      pose proof (lookup_weaken _ _ _ _ Hin Hsub) as Hin1. simpl in Hin1.
      by rewrite lookup_delete_eq in Hin1.
Qed.

(** The walks below the subdirectories [ds], given what the walk below one
    subdirectory does. *)
Lemma pruned_under_loop fuel top w (ds : list string) :
  (∀ d w0,
     wf_tree (tree w0) → tree w0 ⊆ tree w → cwd w0 = cwd w →
     tree w0 !! (Fs.key w top ++ [d]) = Some Dir →
     ∃ w1, Manual.os_walk_bottomup fuel (top /: d) prune_body w0
           = (Return (), w1)
           ∧ quiet w0 w1
           ∧ pruned (Fs.key w top ++ [d]) (tree w0) (tree w1)) →
  ∀ w0,
    wf_tree (tree w0) → tree w0 ⊆ tree w → cwd w0 = cwd w →
    (∀ d, d ∈ ds → tree w0 !! (Fs.key w top ++ [d]) = Some Dir) →
    ∃ w1, for_each ds
            (λ d _, Manual.os_walk_bottomup fuel (top /: d) prune_body)
            () w0 = (Return (), w1)
          ∧ quiet w0 w1
          ∧ pruned_under (Fs.key w top) ds (tree w0) (tree w1).
Proof.
  intros Hchild. set (kt := Fs.key w top) in *.
  induction ds as [|d ds IH]; intros w0 Hwf0 Hsub0 Hc0 Hdirs.
  { exists w0. split_and!; [done|apply quiet_refl|].
    split_and!; try done. intros d ?%elem_of_nil. done. }
  destruct (Hchild d w0 Hwf0 Hsub0 Hc0 (Hdirs d ltac:(left)))
    as (wa & Hrun_a & Hq_a & Hsub_a & Hfiles_a & Hframe_a & Hwf_a & Hne_a).
  destruct (IH wa) as (wb & Hrun_b & Hq_b & Hsub_b & Hfiles_b & Hframe_b
                       & Hwf_b & Hne_b).
  { done. }
  { by etrans. }
  { destruct Hq_a as (? & _). congruence. }
  { intros d' Hd'. rewrite Hframe_a; [apply Hdirs; by right|].
    apply child_not_below. }
  exists wb. split_and!.
  { by rewrite (for_each_cons d ds
                  (λ d _, Manual.os_walk_bottomup fuel (top /: d) prune_body)
                  () w0 () wa Hrun_a). }
  { by apply (quiet_trans w0 wa). }
  split_and!; try done.
  - by etrans.
  - intros k st Hk. by apply Hfiles_b, Hfiles_a.
  - intros k Hk. rewrite Hframe_b, Hframe_a; [done| |].
    + apply Hk. by left.
    + intros d' Hd'. apply Hk. by right.
  - intros d' Hd'. destruct (decide (d' ∈ ds)) as [Hin|Hout];
      [by apply Hne_b|].
    apply elem_of_cons in Hd' as [->|?]; [|done].
    intros k Hk Hdir.
    assert (tree wa !! k = Some Dir) as Hdir_a by by eapply lookup_weaken.
    destruct (Hne_a k Hk Hdir_a) as (x & n & Hx).
    exists x, n. rewrite Hframe_b; [done|].
    intros d'' Hd'' [Hp _]. apply Hout.
    destruct Hk as [Hpk _].
    assert (kt ++ [d] `prefix_of` k ++ [x]) as Hp1 by by apply prefix_app_r.
    by rewrite (sibling kt (k ++ [x]) d d'' Hp1 Hp).
Qed.
Lemma wf_names_weaken t t' : t' ⊆ t → wf_names t → wf_names t'.
Proof. intros Hsub Hn k n Hk. apply (Hn k n). by eapply lookup_weaken. Qed.

(** One level of the bottom-up walk, given what the walk does below each
    subdirectory. *)
Lemma prune_level fuel top w :
  wf_tree (tree w) → wf_names (tree w) →
  (∀ d w0,
     wf_tree (tree w0) → tree w0 ⊆ tree w → cwd w0 = cwd w →
     tree w0 !! (Fs.key w top ++ [d]) = Some Dir →
     ∃ w1, Manual.os_walk_bottomup fuel (top /: d) prune_body w0
           = (Return (), w1)
           ∧ quiet w0 w1
           ∧ pruned (Fs.key w top ++ [d]) (tree w0) (tree w1)) →
  ∃ w', Manual.os_walk_bottomup (S fuel) top prune_body w = (Return (), w')
        ∧ quiet w w'
        ∧ pruned (Fs.key w top) (tree w) (tree w').
Proof.
  intros Hwf Hnames Hchild. rewrite os_walk_bottomup_S.
  set (kt := Fs.key w top) in *.
  destruct (Fs.scandir w top) as [es|] eqn:Hscan.
  2:{ exists w. split_and!; [done|apply quiet_refl|].
      split_and!; try done.
      intros k [Hp Hne] Hk. destruct Hne.
      by eapply (scandir_None w top). }
  apply scandir_Some in Hscan as [Hdir ->]. fold kt.
  set (ds := Manual.dir_names (Fs.children (tree w) kt)).
  assert (∀ d, d ∈ ds → tree w !! (kt ++ [d]) = Some Dir) as Hds.
  { intros d Hd. by apply dir_names_spec. }
  assert (Forall valid_name ds) as Hvalid.
  { apply Forall_forall. intros d Hd. eapply child_valid; [done|].
    by apply Hds. }
  destruct (pruned_under_loop fuel top w ds Hchild w)
    as (w1 & Hrun1 & Hq1 & Hsub1 & Hfiles1 & Hframe1 & Hwf1 & Hne1);
    [done|done|done|done|].
  fold kt in Hframe1, Hne1.
  destruct (emptied_loop top ds Hvalid w1 Hwf1)
    as (w2 & Hrun2 & Hq2 & Hsub2 & Hfiles2 & Hframe2 & Hwf2 & Hne2).
  assert (Fs.key w1 top = kt) as Hk1.
  { apply key_cwd. by destruct Hq1 as (? & _). }
  rewrite Hk1 in Hframe2, Hne2.
  exists w2. split_and!.
  { rewrite Hrun1. exact Hrun2. }
  { by apply (quiet_trans w w1). }
  split_and!; try done.
  - by etrans.
  - intros k st Hk. by apply Hfiles2, Hfiles1.
  - intros k Hk. rewrite Hframe2, Hframe1; [done| |].
    + intros d _ [Hp Hne]. apply Hk. split.
      * etrans; [|done]. by apply prefix_app_r.
      * intros ->. by apply (prefix_snoc_not kt d).
    + intros d _ ->. apply Hk. split; [by apply prefix_app_r|].
      intros Heq. apply (prefix_snoc_not kt d). by rewrite Heq.
  - intros k [[r ->] Hne] Hkdir.
    destruct r as [|d r]; [by rewrite app_nil_r in Hne|].
    assert (tree w !! (kt ++ [d]) = Some Dir) as Hd.
    { assert (tree w !! (kt ++ d :: r) = Some Dir) as Hk0.
      { eapply lookup_weaken; [|exact Hsub1].
        eapply lookup_weaken; [exact Hkdir|exact Hsub2]. }
      destruct (decide (r = [])) as [->|Hr]; [done|].
      pose proof (wf_ancestor _ _ _ (kt ++ [d]) Hwf Hk0) as Ha.
      unfold Fs.lookup_key in Ha.
      rewrite decide_False in Ha by by destruct kt.
      apply Ha.
      - exists r. by rewrite <-(assoc_L (++)).
      - intros Heq. apply (inj (app kt)) in Heq. congruence. }
    assert (d ∈ ds) as Hin by by apply dir_names_spec.
    destruct (decide (r = [])) as [->|Hr].
    { by apply Hne2. }
    assert (strictly_below (kt ++ [d]) (kt ++ d :: r)) as Hbelow.
    { split.
      - exists r. by rewrite <-(assoc_L (++)).
      - intros Heq. apply (inj (app kt)) in Heq. congruence. }
    assert (tree w1 !! (kt ++ d :: r) = Some Dir) as Hdir1
      by (eapply lookup_weaken; [exact Hkdir|exact Hsub2]).
    destruct (Hne1 d Hin _ Hbelow Hdir1) as (x & n & Hx).
    exists x, n. rewrite Hframe2; [done|].
    intros d' _ Heq%(f_equal length).
    rewrite !length_app in Heq. simpl in Heq.
    destruct r; [done|]. simpl in Heq. lia.
Qed.

Lemma prune_walk f :
  ∀ top w,
    wf_tree (tree w) → wf_names (tree w) →
    (∀ k n, tree w !! k = Some n → Fs.key w top `prefix_of` k →
            length k ≤ length (Fs.key w top) + f) →
    ∃ w', Manual.os_walk_bottomup (S f) top prune_body w = (Return (), w')
          ∧ quiet w w'
          ∧ pruned (Fs.key w top) (tree w) (tree w').
Proof.
  induction f as [|f IH]; intros top w Hwf Hnames Hbound;
    apply prune_level; try done; intros d w0 Hwf0 Hsub0 Hc0 Hd0.
  - pose proof (lookup_weaken _ _ _ _ Hd0 Hsub0) as Hd.
    specialize (Hbound _ _ Hd (prefix_app_r _ _ _ (reflexivity _))).
    rewrite length_app in Hbound. simpl in Hbound. lia.
  - pose proof (lookup_weaken _ _ _ _ Hd0 Hsub0) as Hd.
    pose proof (child_valid _ _ _ _ Hnames Hd) as Hv.
    assert (Fs.key w0 (top /: d) = Fs.key w top ++ [d]) as Hkey.
    { rewrite (key_cwd w w0) by done. by apply key_truediv_valid. }
    rewrite <-Hkey. apply IH.
    + done.
    + by eapply wf_names_weaken.
    + intros k n Hk Hp. rewrite Hkey in *.
      rewrite length_app. simpl.
      assert (Fs.key w top `prefix_of` k) as Hp'.
      { etrans; [|done]. by apply prefix_app_r. }
      pose proof (lookup_weaken _ _ _ _ Hk Hsub0) as Hk'.
      specialize (Hbound _ _ Hk' Hp'). lia.
Qed.
(** A tree without empty directories is left as it is. *)
Lemma pruned_fixpoint kt t t' :
  wf_tree t → no_empty_below kt t → pruned kt t t' → t' = t.
Proof.
  intros Hwf Hfull (Hsub & Hfiles & Hframe & Hwf' & _).
  assert (∀ m k n, S (size t) - length k ≤ m → strictly_below kt k →
                   t !! k = Some n → t' !! k = Some n) as Hkept.
  { induction m as [|m IH]; intros k n Hm Hk Hin.
    { pose proof (wf_key_length _ _ _ Hwf Hin). lia. }
    destruct n as [st|]; [by apply Hfiles|].
    destruct (Hfull k Hk Hin) as (x & n' & Hx).
    assert (strictly_below kt (k ++ [x])) as Hk'.
    { destruct Hk as [Hp Hne]. split; [by apply prefix_app_r|].
      intros Heq. rewrite <-Heq in Hp.
      by apply (prefix_snoc_not k x). }
    assert (t' !! (k ++ [x]) = Some n') as Hx'.
    { apply IH; [|done|done]. rewrite length_app. simpl. lia. }
    destruct (Hwf' _ _ Hx') as [_ Hp]. rewrite removelast_last in Hp.
    unfold Fs.lookup_key in Hp. rewrite decide_False in Hp; [done|].
    intros ->. destruct Hk as [Hp' Hne]. apply Hne.
    by apply prefix_nil_inv in Hp'. }
  apply map_eq. intros k.
  destruct (decide (strictly_below kt k)) as [Hk|Hk]; [|by apply Hframe].
  destruct (t !! k) as [n|] eqn:Hin.
  - by apply (Hkept (S (size t))); [lia|..].
  - by eapply lookup_weaken_None.
Qed.

Lemma remove_empty_dirs_run directory w :
  wf_tree (tree w) → wf_names (tree w) →
  ∃ w', Manual._remove_empty_dirs directory w = (Return (), w')
        ∧ quiet w w'
        ∧ pruned (Fs.key w directory) (tree w) (tree w').
Proof.
  intros Hwf Hnames.
  unfold Manual._remove_empty_dirs, Manual.depth_bound.
  unfold bind at 1, mbind at 1, prog_bind at 1, reads at 1.
  apply prune_walk; [done|done|].
  intros k n Hk _. pose proof (wf_key_length _ _ _ Hwf Hk). lia.
Qed.
End pruning.

(** X7. [_remove_empty_dirs] always returns, and it never takes a regular
    file away: every file of the tree is where it was. Entries are only
    removed, only strictly below the directory it was given, which itself
    stays, and each of them is a directory below which no file lay. Nothing
    but the reports of the removals is written, and every entry still lies
    in a directory. *)
Theorem remove_empty_dirs_spares_files (w : world) (directory : Path) :
  wf_tree (tree w) → wf_names (tree w) →
  ∃ w',
    Manual._remove_empty_dirs directory w = (Return (), w')
    ∧ cwd w' = cwd w ∧ stdin w' = stdin w
    ∧ tree w' ⊆ tree w
    ∧ (∀ k st, tree w !! k = Some (File st) → tree w' !! k = Some (File st))
    ∧ (∀ k, ¬ strictly_below (Fs.key w directory) k →
            tree w' !! k = tree w !! k)
    ∧ (∀ k n, tree w !! k = Some n → tree w' !! k = None →
              n = Dir
              ∧ ∀ k' st, tree w !! k' = Some (File st) → ¬ k `prefix_of` k')
    ∧ Forall is_removal (logged_since w w')
    ∧ wf_tree (tree w').
Proof.
  intros Hwf Hnames.
  destruct (remove_empty_dirs_run directory w Hwf Hnames)
    as (w' & Hrun & (Hc & Hs & l & Hl & Hrem)
        & Hsub & Hfiles & Hframe & Hwf' & _).
  exists w'. split_and!; try done.
  - intros k n Hk Hgone. split.
    + destruct n as [st|]; [|done].
      rewrite (Hfiles _ _ Hk) in Hgone. done.
    + intros k' st Hk' Hp.
      pose proof (Hfiles _ _ Hk') as Hkept.
      destruct (decide (k = k')) as [->|Hne]; [congruence|].
      pose proof (wf_ancestor _ _ _ _ Hwf' Hkept Hp Hne) as Ha.
      unfold Fs.lookup_key in Ha.
      destruct (Hwf _ _ Hk) as [Hnil _].
      rewrite decide_False in Ha by done. congruence.
  - by rewrite (logged_since_app _ _ _ Hl).
Qed.

Lemma remove_empty_dirs_spares_files_witness :
  ∃ w',
    Manual._remove_empty_dirs (PurePath.of_string "/d") hollow
    = (Return (), w')
    ∧ tree w' !! ["d"; "c"; "f.txt"] = Some (File (mkStat 9 12 None 2020)).
Proof.
  destruct (remove_empty_dirs_spares_files hollow (PurePath.of_string "/d"))
    as (w' & Hrun & _ & _ & _ & Hfiles & _).
  - compute_done.
  - compute_done.
  - exists w'. split; [exact Hrun|]. apply Hfiles. reflexivity.
Defined.

(** X8. [_remove_empty_dirs] leaves no empty directory below the directory
    it was given: a directory that is still there afterwards holds an
    entry, so that a chain of directories that held nothing but each other
    is removed as a whole. A second run finds nothing to remove and leaves
    the tree as the first run left it. *)
Theorem remove_empty_dirs_leaves_none (w : world) (directory : Path) :
  wf_tree (tree w) → wf_names (tree w) →
  ∃ w' w'',
    Manual._remove_empty_dirs directory w = (Return (), w')
    ∧ (∀ k, strictly_below (Fs.key w directory) k →
            tree w' !! k = Some Dir → Fs.children (tree w') k ≠ [])
    ∧ Manual._remove_empty_dirs directory w' = (Return (), w'')
    ∧ tree w'' = tree w'.
Proof.
  intros Hwf Hnames.
  destruct (remove_empty_dirs_run directory w Hwf Hnames)
    as (w' & Hrun & (Hc & _) & Hsub & _ & _ & Hwf' & Hfull).
  pose proof (wf_names_weaken _ _ Hsub Hnames) as Hnames'.
  destruct (remove_empty_dirs_run directory w' Hwf' Hnames')
    as (w'' & Hrun' & _ & Hpruned).
  rewrite (key_cwd w w') in Hpruned by done.
  exists w', w''. split_and!; [exact Hrun| |exact Hrun'|].
  - intros k Hk Hdir Hnone.
    destruct (Hfull k Hk Hdir) as (x & n & Hx).
    apply children_elem in Hx. rewrite Hnone in Hx.
    by apply elem_of_nil in Hx.
  - by eapply pruned_fixpoint.
Qed.

Lemma remove_empty_dirs_leaves_none_witness :
  ∃ w' w'',
    Manual._remove_empty_dirs (PurePath.of_string "/d") hollow
    = (Return (), w')
    ∧ Manual._remove_empty_dirs (PurePath.of_string "/d") w'
      = (Return (), w'')
    ∧ tree w'' = tree w'.
Proof.
  destruct (remove_empty_dirs_leaves_none hollow (PurePath.of_string "/d"))
    as (w' & w'' & Hrun & _ & Hrun' & Heq).
  - compute_done.
  - compute_done.
  - exists w', w''. split_and!; [exact Hrun|exact Hrun'|exact Heq].
Defined.

(** * Outcomes *)

Section totality.
Implicit Types (w : world) (p src dst filepath : Path).

Lemma rename_total src dst w r w' :
  Os.rename src dst w = (r, w') → r ≠ Diverge.
Proof.
  unfold Os.rename. prog_unfold. simpl.
  repeat (case_match || case_decide || case_bool_decide);
    by intros ?; simplify_eq.
Qed.

Lemma mkdir_total p w r w' : Os.mkdir p w = (r, w') → r ≠ Diverge.
Proof.
  intros H. pose proof (mkdir_spec _ _ _ _ H) as (_ & _ & _ & _ & _ & Hr).
  destruct Hr as [[-> _]|[-> _]]; done.
Qed.

Lemma shutil_move_total src dst w r w' :
  Os.shutil_move src dst w = (r, w') → r ≠ Diverge.
Proof.
  unfold Os.shutil_move, Os.path_is_dir, Os.path_exists, try_except.
  prog_unfold. simpl.
  set (w0 := mkWorld (tree w) (cwd w) (stdin w) (log w ++ [Call_move src dst])).
  clearbody w0.
  repeat first
    [ match goal with
      | |- context [Os.rename ?s ?d ?x] =>
          let E := fresh "E" in
          destruct (Os.rename s d x) as [[[]|?|] ?] eqn:E;
          apply rename_total in E
      | |- context [Os.mkdir ?p ?x] =>
          let E := fresh "E" in
          destruct (Os.mkdir p x) as [[[]|?|] ?] eqn:E;
          apply mkdir_total in E
      end
    | case_bool_decide
    | case_match ];
    simpl; intros ?; simplify_eq; eauto using rename_total, mkdir_total.
Qed.

(** [safe_move] runs to an end: the loop that looks for a free name
    finds one. *)
Lemma safe_move_total src dest_dir w r w' :
  Str.mem "/" (PurePath.name src) = false →
  safe_move src dest_dir w = (r, w') → r ≠ Diverge.
Proof.
  intros Hname. unfold safe_move, bind, mbind, prog_bind.
  destruct (Os.mkdir dest_dir w) as [[[]|e|] w1] eqn:Em;
    pose proof (mkdir_total _ _ _ _ Em) as Hm;
    [|by intros ?; simplify_eq..].
  unfold Os.path_exists, reads, mret, prog_ret.
  destruct (Fs.exists_ w1 _).
  - destruct (collision_loop _ _ _ _ _ w1) as [[dest|e|] w2] eqn:El;
      pose proof (collision_loop_spec _ _ _ _ _ _ _ _ El) as [-> Hloop];
      [|done|by destruct (candidates_exhaust w1 dest_dir src Hname)].
    destruct (Os.shutil_move src dest w1) as [[[]|e|] w3] eqn:Es;
      apply shutil_move_total in Es; try done; by intros ?; simplify_eq.
  - destruct (Os.shutil_move src _ w1) as [[[]|e|] w3] eqn:Es;
      apply shutil_move_total in Es; try done; by intros ?; simplify_eq.
Qed.

Lemma sort_file_total filepath config base_dir w r w' :
  wf_path filepath →
  sort_file filepath config base_dir w = (r, w') → r ≠ Diverge.
Proof.
  intros Hpath. pose proof (wf_path_name_mem _ Hpath) as Hmem.
  destruct (Fs.is_file w filepath) eqn:Hfile.
  2:{ rewrite sort_file_not_file by done. by intros ?; simplify_eq. }
  apply is_file_node in Hfile as [st Hst].
  rewrite (sort_file_file _ _ _ _ _ Hst). simpl.
  destruct (dict_get _ _) as [rules|]; [|by intros ?; simplify_eq].
  destruct (rule_path rules) as [path|]; [|by intros ?; simplify_eq].
  destruct (safe_move _ _ w) as [[d|e|] w2] eqn:Hmove;
    apply safe_move_total in Hmove; try done; by intros ?; simplify_eq.
Qed.
End totality.

Section reports.
Implicit Types (w : world) (p src dst filepath f : Path).

Lemma rename_env src dst w r w' :
  Os.rename src dst w = (r, w') → cwd w' = cwd w ∧ stdin w' = stdin w.
Proof.
  unfold Os.rename. prog_unfold. simpl.
  repeat (case_match || case_decide || case_bool_decide);
    by intros ?; simplify_eq.
Qed.

Lemma mkdir_env p w r w' :
  Os.mkdir p w = (r, w') → cwd w' = cwd w ∧ stdin w' = stdin w.
Proof.
  intros H. by pose proof (mkdir_spec _ _ _ _ H) as (? & ? & _).
Qed.

Lemma shutil_move_env src dst w r w' :
  Os.shutil_move src dst w = (r, w') → cwd w' = cwd w ∧ stdin w' = stdin w.
Proof.
  unfold Os.shutil_move, Os.path_is_dir, Os.path_exists, try_except.
  prog_unfold. simpl.
  set (w0 := mkWorld (tree w) (cwd w) (stdin w) (log w ++ [Call_move src dst])).
  assert (cwd w0 = cwd w ∧ stdin w0 = stdin w) as [Hc0 Hs0] by done.
  clearbody w0.
  repeat first
    [ match goal with
      | |- context [Os.rename ?s ?d ?x] =>
          let E := fresh "E" in
          destruct (Os.rename s d x) as [[[]|?|] ?] eqn:E;
          apply rename_env in E as [? ?]
      | |- context [Os.mkdir ?p ?x] =>
          let E := fresh "E" in
          destruct (Os.mkdir p x) as [[[]|?|] ?] eqn:E;
          apply mkdir_env in E as [? ?]
      end
    | case_bool_decide
    | case_match ];
    simpl; intros ?; simplify_eq;
    repeat match goal with
           | H : Os.rename _ _ _ = _ |- _ => apply rename_env in H as [? ?]
           | H : Os.mkdir _ _ = _ |- _ => apply mkdir_env in H as [? ?]
           end;
    split; congruence.
Qed.

(** What [safe_move] writes and what it leaves of the rest of the world. *)
Lemma safe_move_report src dest_dir w r w' :
  safe_move src dest_dir w = (r, w') →
  cwd w' = cwd w ∧ stdin w' = stdin w
  ∧ match r with
    | Return dest => log w' = log w ++ [Call_move src dest]
    | _ => log w' = log w ∨ ∃ dest, log w' = log w ++ [Call_move src dest]
    end.
Proof.
  unfold safe_move, bind, mbind, prog_bind.
  destruct (Os.mkdir dest_dir w) as [[[]|e|] w1] eqn:Em;
    pose proof (mkdir_log _ _ _ _ Em) as Hl1;
    pose proof (mkdir_env _ _ _ _ Em) as [Hc1 Hs1];
    [|intros ?; simplify_eq; split_and!; try done; by left..].
  unfold Os.path_exists, reads, mret, prog_ret.
  assert (∀ dest,
    match Os.shutil_move src dest w1 with
    | (Return _, w2) => (Return dest, w2)
    | (Raise e, w2) => (Raise e, w2)
    | (Diverge, w2) => (Diverge, w2)
    end = (r, w') →
    cwd w' = cwd w ∧ stdin w' = stdin w
    ∧ match r with
      | Return dest => log w' = log w ++ [Call_move src dest]
      | _ => log w' = log w ∨ ∃ dest, log w' = log w ++ [Call_move src dest]
      end) as Hmv.
  { intros dest. destruct (Os.shutil_move src dest w1) as [r2 w2] eqn:E.
    pose proof (shutil_move_log _ _ _ _ _ E) as Hl2.
    pose proof (shutil_move_env _ _ _ _ _ E) as [Hc2 Hs2].
    intros Hr.
    destruct r2 as [[]|e|]; simplify_eq;
      (split_and!; [congruence|congruence|]); [congruence|right..];
      exists dest; congruence. }
  destruct (Fs.exists_ w1 _).
  - destruct (collision_loop _ _ _ _ _ w1) as [[dest|e|] w1'] eqn:El;
      pose proof (collision_loop_spec _ _ _ _ _ _ _ _ El) as [-> Hloop].
    + apply Hmv.
    + done.
    + intros ?; simplify_eq. split_and!; try done. by left.
  - apply Hmv.
Qed.

Lemma sort_file_report filepath config base_dir w r w' :
  sort_file filepath config base_dir w = (r, w') →
  cwd w' = cwd w ∧ stdin w' = stdin w
  ∧ match r with
    | Return (_, dest) => log w' = log w ++ [Call_move filepath dest]
    | _ => log w' = log w
           ∨ ∃ dest, log w' = log w ++ [Call_move filepath dest]
    end.
Proof.
  destruct (Fs.is_file w filepath) eqn:Hfile.
  2:{ rewrite sort_file_not_file by done. intros ?; simplify_eq.
      split_and!; try done. by left. }
  apply is_file_node in Hfile as [st Hst].
  rewrite (sort_file_file _ _ _ _ _ Hst). simpl.
  destruct (dict_get _ _) as [rules|];
    [|intros ?; simplify_eq; split_and!; try done; by left].
  destruct (rule_path rules) as [path|];
    [|intros ?; simplify_eq; split_and!; try done; by left].
  destruct (safe_move _ _ w) as [r2 w2] eqn:Hmove.
  pose proof (safe_move_report _ _ _ _ _ Hmove) as (Hc & Hs & Hl).
  intros Hr. destruct r2 as [d|e|]; by simplify_eq.
Qed.
End reports.

(** X9. [_sort_single_file] never raises and always returns, in default
    routing and in custom-target routing alike: it returns 1 after one move
    that it reports, and 0 after a failure that it reports, the failure
    having come before any move was attempted or from the one move that
    was. The working directory and the pending input are left alone. *)
Theorem sort_single_file_reports (w : world) (filepath : Path)
    (config : config) (custom_target base_dir : option Path)
    (r : outcome nat) (w' : world) :
  wf_path filepath →
  Manual._sort_single_file filepath config custom_target base_dir w
  = (r, w') →
  cwd w' = cwd w ∧ stdin w' = stdin w
  ∧ ((r = Return 1
      ∧ ∃ category dest,
          logged_since w w'
          = [Call_move filepath dest;
             Print_sorted (PurePath.name filepath) category dest])
     ∨ (r = Return 0
        ∧ ∃ e,
            logged_since w w' = [Print_failed (PurePath.name filepath) e]
            ∨ ∃ dest,
                logged_since w w'
                = [Call_move filepath dest;
                   Print_failed (PurePath.name filepath) e])).
Proof.
  intros Hpath. pose proof (wf_path_name_mem _ Hpath) as Hmem.
  unfold Manual._sort_single_file, try_except.
  destruct custom_target as [custom_target|].
  - assert ((∃ md, get_file_metadata filepath w = (Return md, w))
            ∨ get_file_metadata filepath w = (Raise FileNotFoundError, w))
      as [[md Hmd]|Hmd].
    { unfold get_file_metadata, Os.stat. prog_unfold.
      destruct (Fs.node_at w filepath) as [[st|]|]; eauto. }
    + unfold bind at 1, mbind at 1, prog_bind at 1.
      rewrite Hmd. cbv zeta. unfold bind, mbind, prog_bind.
      destruct (safe_move _ _ w) as [[dest|e|] w1] eqn:Hmove;
        pose proof (safe_move_report _ _ _ _ _ Hmove) as (Hc & Hs & Hl);
        pose proof (safe_move_total _ _ _ _ _ Hmem Hmove) as Ht; [| |done];
        prog_unfold; simpl; intros ?; simplify_eq;
        (split_and!; [done|done|]).
      * left. split; [done|]. eexists _, dest.
        apply logged_since_app. simpl. by rewrite Hl, <-(assoc_L (++)).
      * right. split; [done|]. exists e. destruct Hl as [Hl|[dest Hl]].
        -- left. apply logged_since_app. simpl. by rewrite Hl.
        -- right. exists dest. apply logged_since_app. simpl.
           by rewrite Hl, <-(assoc_L (++)).
    + unfold bind at 1, mbind at 1, prog_bind at 1.
      rewrite Hmd. prog_unfold. simpl. intros ?; simplify_eq.
      split_and!; try done. right. split; [done|].
      exists FileNotFoundError. left. by apply logged_since_app.
  - unfold bind at 1, mbind at 1, prog_bind at 1.
    destruct (sort_file filepath config base_dir w)
      as [[[category dest]|e|] w1] eqn:Hsort;
      pose proof (sort_file_report _ _ _ _ _ _ Hsort) as (Hc & Hs & Hl);
      pose proof (sort_file_total _ _ _ _ _ _ Hpath Hsort) as Ht; [| |done];
      prog_unfold; simpl; intros ?; simplify_eq;
      (split_and!; [done|done|]).
    + left. split; [done|]. exists category, dest.
      apply logged_since_app. simpl. by rewrite Hl, <-(assoc_L (++)).
    + right. split; [done|]. exists e. destruct Hl as [Hl|[dest Hl]].
      * left. apply logged_since_app. simpl. by rewrite Hl.
      * right. exists dest. apply logged_since_app. simpl.
        by rewrite Hl, <-(assoc_L (++)).
Qed.

Lemma sort_single_file_reports_witness :
  ((Manual._sort_single_file (PurePath.of_string "/in/photo.JPG") pictures
      None None inbox).1 = Return 1
   ∨ (Manual._sort_single_file (PurePath.of_string "/in/photo.JPG") pictures
        None None inbox).1 = Return 0).
Proof.
  destruct (sort_single_file_reports inbox
              (PurePath.of_string "/in/photo.JPG") pictures None None
              (Manual._sort_single_file (PurePath.of_string "/in/photo.JPG")
                 pictures None None inbox).1
              (Manual._sort_single_file (PurePath.of_string "/in/photo.JPG")
                 pictures None None inbox).2)
    as (_ & _ & [[Hr _]|[Hr _]]).
  - compute_done.
  - apply surjective_pairing.
  - left. exact Hr.
  - right. exact Hr.
Defined.

(** X10. The body of the sync loop never raises and always returns. It
    counts a file, and prints it as re-routed, exactly when the parent of
    the destination differs from the parent of the file as the two paths
    are spelled, which is the comparison the code makes: a move that leaves
    the spelled parent the same is made but neither counted nor printed, and
    two spellings of one directory count as different. Between paths spelled
    alike, both absolute or both relative, the parents differ as spelled
    exactly when they are different directories. A failure is printed and
    not counted. *)
Theorem resort_file_counts (w : world) (config : config) (f : Path)
    (moved : nat) (r : outcome nat) (w' : world) :
  wf_path f →
  Manual.resort_file config f moved w = (r, w') →
  cwd w' = cwd w ∧ stdin w' = stdin w
  ∧ ((r = Return (moved + 1)
      ∧ ∃ category dest,
          PurePath.parent dest ≠ PurePath.parent f
          ∧ logged_since w w'
            = [Call_move f dest;
               Print_rerouted (PurePath.name f) category dest])
     ∨ (r = Return moved
        ∧ ∃ dest,
            PurePath.parent dest = PurePath.parent f
            ∧ logged_since w w' = [Call_move f dest])
     ∨ (r = Return moved
        ∧ ∃ e,
            logged_since w w' = [Print_failed (PurePath.name f) e]
            ∨ ∃ dest,
                logged_since w w'
                = [Call_move f dest; Print_failed (PurePath.name f) e]))
  ∧ (∀ dest,
       is_absolute dest = is_absolute f →
       PurePath.parent dest ≠ PurePath.parent f
       ↔ Fs.key w (PurePath.parent dest) ≠ Fs.key w (PurePath.parent f)).
Proof.
  intros Hpath Hrun.
  assert (∀ dest,
    is_absolute dest = is_absolute f →
    PurePath.parent dest ≠ PurePath.parent f
    ↔ Fs.key w (PurePath.parent dest) ≠ Fs.key w (PurePath.parent f))
    as Hspelled.
  { intros dest Habs. unfold PurePath.parent, Fs.key. simpl. rewrite Habs.
    split; intros Hne Heq; apply Hne.
    - apply (inj (app _)) in Heq. by rewrite Heq.
    - by injection Heq as ->. }
  revert Hrun. unfold Manual.resort_file, try_except.
  unfold bind at 1, mbind at 1, prog_bind at 1.
  destruct (sort_file f config None w)
    as [[[category dest]|e|] w1] eqn:Hsort;
    pose proof (sort_file_report _ _ _ _ _ _ Hsort) as (Hc & Hs & Hl);
    pose proof (sort_file_total _ _ _ _ _ _ Hpath Hsort) as Ht; [| |done].
  - case_bool_decide as Hparent; prog_unfold; simpl; intros ?; simplify_eq;
      (split_and!; [done|done| |done]).
    + left. split; [done|]. exists category, dest. split; [done|].
      apply logged_since_app. simpl. by rewrite Hl, <-(assoc_L (++)).
    + right. left. split; [done|]. exists dest. split.
      * unfold PurePath.parent. congruence.
      * by apply logged_since_app.
  - prog_unfold; simpl; intros ?; simplify_eq;
      (split_and!; [done|done| |done]).
    right. right. split; [done|]. exists e. destruct Hl as [Hl|[dest Hl]].
    + left. apply logged_since_app. simpl. by rewrite Hl.
    + right. exists dest. apply logged_since_app. simpl.
      by rewrite Hl, <-(assoc_L (++)).
Qed.

Lemma resort_file_counts_witness :
  (Manual.resort_file pictures (PurePath.of_string "/in/photo.JPG") 0
                      inbox).1
  = Return 1
  ∨ (Manual.resort_file pictures (PurePath.of_string "/in/photo.JPG") 0
                        inbox).1
    = Return 0.
Proof.
  destruct (resort_file_counts inbox pictures
              (PurePath.of_string "/in/photo.JPG") 0
              (Manual.resort_file pictures
                 (PurePath.of_string "/in/photo.JPG") 0 inbox).1
              (Manual.resort_file pictures
                 (PurePath.of_string "/in/photo.JPG") 0 inbox).2)
    as (_ & _ & [[Hr _]|[[Hr _]|[Hr _]]] & _).
  - compute_done.
  - apply surjective_pairing.
  - left. exact Hr.
  - right. exact Hr.
  - right. exact Hr.
Defined.

(** X11. The watcher outlives every event: the handler returns normally,
    whatever the event, the configuration and the state of the file system
    before and after the delay. It writes nothing, or one move with its
    report and its notification, or the report of an error, with the one
    move that failed before it when there was one. Events other than the
    creation of a file and the arrival of a file leave the world as it
    was. *)
Theorem watcher_outlives_every_event
    (env : gmap (list string) node → gmap (list string) node)
    (config : config) (event : Auto.fs_event) (w : world)
    (r : outcome ()) (w' : world) :
  Auto.dispatch env config event w = (r, w') →
  r = Return ()
  ∧ cwd w' = cwd w ∧ stdin w' = stdin w
  ∧ (logged_since w w' = []
     ∨ (∃ p category dest,
          logged_since w w'
          = [Call_move p dest;
             Print_sorted (PurePath.name p) category dest;
             Notify (PurePath.name p +:+ "  →  [" +:+ category +:+ "]")])
     ∨ (∃ p e,
          logged_since w w' = [Print_failed (PurePath.name p) e]
          ∨ ∃ dest,
              logged_since w w'
              = [Call_move p dest; Print_failed (PurePath.name p) e]))
  ∧ match event with
    | Auto.FileCreatedEvent _ | Auto.FileMovedEvent _ _ => True
    | _ => w' = w
    end.
Proof.
  assert (logged_since w w = []) as Hnil.
  { unfold logged_since. by rewrite drop_all. }
  assert (∀ filepath,
    Auto._process env config filepath w = (r, w') →
    r = Return ()
    ∧ cwd w' = cwd w ∧ stdin w' = stdin w
    ∧ (logged_since w w' = []
       ∨ (∃ p category dest,
            logged_since w w'
            = [Call_move p dest;
               Print_sorted (PurePath.name p) category dest;
               Notify (PurePath.name p +:+ "  →  [" +:+ category +:+ "]")])
       ∨ (∃ p e,
            logged_since w w' = [Print_failed (PurePath.name p) e]
            ∨ ∃ dest,
                logged_since w w'
                = [Call_move p dest; Print_failed (PurePath.name p) e])))
    as Hprocess.
  { intros filepath.
    unfold Auto._process, Os.path_is_file, Os.path_exists, Os.sleep.
    unfold bind at 1, mbind at 1, prog_bind at 1, reads. cbv zeta.
    set (p := PurePath.of_string filepath).
    destruct (Fs.is_file w p); simpl.
    2:{ unfold mret, prog_ret. intros ?; simplify_eq.
        split_and!; try done. by left. }
    destruct (_ || _); simpl.
    { unfold mret, prog_ret. intros ?; simplify_eq.
      split_and!; try done. by left. }
    unfold mbind at 1, prog_bind at 1.
    unfold bind at 1, mbind at 1, prog_bind at 1.
    set (ws := mkWorld (env (tree w)) (cwd w) (stdin w) (log w)).
    destruct (Fs.exists_ ws p); simpl.
    2:{ unfold mret, prog_ret. intros ?; simplify_eq.
        split_and!; try done. left. apply logged_since_app. simpl.
        by rewrite app_nil_r. }
    unfold try_except, Auto._notify.
    unfold bind at 1, mbind at 1, prog_bind at 1.
    destruct (sort_file p config None ws)
      as [[[category dest]|e|] w1] eqn:Hsort;
      pose proof (sort_file_report _ _ _ _ _ _ Hsort) as (Hc & Hs & Hl);
      pose proof (sort_file_total _ _ _ _ _ _ (of_string_wf filepath) Hsort)
        as Ht; [| |done];
      prog_unfold; simpl; intros ?; simplify_eq;
      (split_and!; [done|done|done|]).
    - right. left. exists p, category, dest.
      apply logged_since_app. simpl. rewrite Hl. simpl.
      by rewrite <-!(assoc_L (++)).
    - right. right. exists p, e. destruct Hl as [Hl|[dest Hl]].
      + left. apply logged_since_app. simpl. by rewrite Hl.
      + right. exists dest. apply logged_since_app. simpl. rewrite Hl.
        simpl. by rewrite <-!(assoc_L (++)). }
  destruct event; simpl; unfold mret, prog_ret;
    try (intros ?; simplify_eq; split_and!; try done; by left).
  - intros Hrun. destruct (Hprocess _ Hrun) as (? & ? & ? & ?).
    by split_and!.
  - intros Hrun. destruct (Hprocess _ Hrun) as (? & ? & ? & ?).
    by split_and!.
Qed.

Lemma watcher_outlives_every_event_witness :
  (Auto.dispatch (λ t, t) pictures (Auto.FileCreatedEvent "/in/photo.JPG")
                 inbox).1
  = Return ().
Proof.
  refine (proj1 (watcher_outlives_every_event (λ t, t) pictures
                   (Auto.FileCreatedEvent "/in/photo.JPG") inbox _
                   (Auto.dispatch (λ t, t) pictures
                      (Auto.FileCreatedEvent "/in/photo.JPG") inbox).2 _)).
  apply surjective_pairing.
Defined.

(** * The batch modes before they move anything *)

Section sync.
Implicit Types (w : world) (p top : Path).

Lemma collect_run directory w :
  wf_tree (tree w) → wf_names (tree w) →
  ∃ files, Manual._collect_all_files directory w = (Return files, w)
           ∧ ∀ p, p ∈ files ↔ file_below w directory p.
Proof.
  intros Hwf Hnames.
  destruct (collect_walk (size (tree w)) directory [] w Hwf Hnames)
    as (files & Hrun & Hiff).
  { intros k n Hk _. pose proof (wf_key_length _ _ _ Hwf Hk). lia. }
  exists files. split; [|done].
  unfold Manual._collect_all_files, Manual.depth_bound.
  unfold bind at 1, mbind at 1, prog_bind at 1, reads at 1.
  exact Hrun.
Qed.

(** The first loop of [sync_sort], over categories that all have a path. *)
Lemma sync_collect w (l : dict rule) :
  wf_tree (tree w) → wf_names (tree w) →
  (∀ c rules, (c, rules) ∈ l → is_Some (rule_path rules)) →
  ∀ acc, ∃ found,
    for_each l
      (λ '(cat, rules) all_files,
         let* path := getitem "path" (rule_path rules) in
         let cat_path := PurePath.of_string path in
         let* isd := Os.path_is_dir cat_path in
         if isd then
           let* files := Manual._collect_all_files cat_path in
           mret (all_files ++ files)
         else mret all_files)
      acc w = (Return (acc ++ found), w)
    ∧ ∀ p, p ∈ found →
           ∃ c rules path, (c, rules) ∈ l ∧ rule_path rules = Some path
                           ∧ file_below w (PurePath.of_string path) p.
Proof.
  intros Hwf Hnames. induction l as [|[c rules] l IH]; intros Hpaths acc.
  { exists []. simpl. rewrite app_nil_r. split; [done|].
    by intros p ?%elem_of_nil. }
  destruct (Hpaths c rules ltac:(left)) as [path Hpath].
  destruct (collect_run (PurePath.of_string path) w Hwf Hnames)
    as (files & Hrun & Hiff).
  assert (∃ here,
    (let* path := getitem "path" (rule_path rules) in
     let cat_path := PurePath.of_string path in
     let* isd := Os.path_is_dir cat_path in
     if isd then
       let* files := Manual._collect_all_files cat_path in
       mret (acc ++ files)
     else mret acc) w = (Return (acc ++ here), w)
    ∧ ∀ p, p ∈ here → file_below w (PurePath.of_string path) p)
    as (here & Hstep & Hhere).
  { rewrite Hpath. unfold getitem, Os.path_is_dir. prog_unfold.
    destruct (Fs.is_dir w (PurePath.of_string path)).
    - exists files. rewrite Hrun. split; [done|]. intros p. apply Hiff.
    - exists []. rewrite app_nil_r. split; [done|].
      by intros p ?%elem_of_nil. }
  destruct (IH (λ c' r' H', Hpaths c' r' (list_elem_of_further _ _ _ H'))
               (acc ++ here)) as (rest & Hrest & Hin).
  exists (here ++ rest). split.
  - erewrite for_each_cons; [|exact Hstep].
    rewrite Hrest. by rewrite (assoc_L (++)).
  - intros p [Hp|Hp]%elem_of_app.
    + exists c, rules, path. split_and!; [by left|done|by apply Hhere].
    + destruct (Hin p Hp) as (c' & r' & path' & ? & ? & ?).
      exists c', r', path'. split_and!; [by right|done|done].
Qed.
Lemma file_below_is_dir w top p :
  wf_tree (tree w) → file_below w top p → Fs.is_dir w top = true.
Proof.
  intros Hwf (rel & st & Hrel & _ & Hk).
  assert (Fs.key w top ≠ Fs.key w top ++ rel) as Hne.
  { intros Heq. apply Hrel. apply (inj (app (Fs.key w top))).
    by rewrite app_nil_r. }
  pose proof (wf_ancestor _ _ _ (Fs.key w top) Hwf Hk
                (prefix_app_r _ _ _ (reflexivity _)) Hne) as Ha.
  by apply is_dir_lookup.
Qed.

Lemma for_each_app_Return {A S} (l1 l2 : list A) (body : A → S → prog S)
    (s : S) w (s1 : S) w1 :
  for_each l1 body s w = (Return s1, w1) →
  for_each (l1 ++ l2) body s w = for_each l2 body s1 w1.
Proof.
  revert s w. induction l1 as [|x l1 IH]; intros s w.
  { simpl. unfold mret, prog_ret. by intros ?; simplify_eq. }
  cbn [for_each app]. unfold bind, mbind, prog_bind.
  destruct (body x s w) as [[s'|e|] w']; [apply IH|done|done].
Qed.

Lemma for_each_cons_Raise {A S} (x : A) (l : list A) (body : A → S → prog S)
    (s : S) w e w1 :
  body x s w = (Raise e, w1) → for_each (x :: l) body s w = (Raise e, w1).
Proof.
  intros H. cbn [for_each]. unfold bind, mbind, prog_bind. by rewrite H.
Qed.
End sync.

(** X12. What [sync_sort] does before it moves anything. When no regular
    file lies below any of the configured category folders (folders that do
    not exist included), it reports that there is nothing to sync and
    returns at once: the tree is untouched and no line of input is read.
    When a category has no path, the categories before it having one, it
    raises [KeyError] for [path] before anything is printed or touched. *)
Theorem sync_sort_before_moving (w : world) (config : config) :
  wf_tree (tree w) → wf_names (tree w) →
  ((∀ c rules, (c, rules) ∈ routing config →
      ∃ path, rule_path rules = Some path
              ∧ ∀ p, ¬ file_below w (PurePath.of_string path) p) →
   Manual.sync_sort config w
   = (Return (),
      mkWorld (tree w) (cwd w) (stdin w) (log w ++ [Print_nothing_to_sync])))
  ∧ (∀ before c rules after,
       routing config = before ++ (c, rules) :: after →
       (∀ c' r', (c', r') ∈ before → is_Some (rule_path r')) →
       rule_path rules = None →
       Manual.sync_sort config w = (Raise (KeyError "path"), w)).
Proof.
  intros Hwf Hnames. split.
  - intros Hempty.
    destruct (sync_collect w (routing config) Hwf Hnames) with (acc := @nil Path)
      as (found & Hrun & Hin).
    { intros c rules Hc. destruct (Hempty c rules Hc) as (path & -> & _).
      by eexists. }
    assert (found = []) as ->.
    { destruct found as [|p found]; [done|]. exfalso.
      destruct (Hin p ltac:(left)) as (c & rules & path & Hc & Hpath & Hp).
      destruct (Hempty c rules Hc) as (path' & Hpath' & Hno).
      apply (Hno p). congruence. }
    unfold Manual.sync_sort. cbv zeta. cbv zeta in Hrun.
    unfold bind at 1, mbind at 1, prog_bind at 1.
    rewrite Hrun. simpl. done.
  - intros before c rules after Hrouting Hpaths Hnone.
    destruct (sync_collect w before Hwf Hnames Hpaths []) as (found & Hrun & _).
    unfold Manual.sync_sort. cbv zeta.
    unfold bind at 1, mbind at 1, prog_bind at 1.
    rewrite Hrouting.
    erewrite for_each_app_Return; [|exact Hrun].
    erewrite for_each_cons_Raise; [done|].
    cbv beta iota. rewrite Hnone. done.
Qed.

Lemma sync_sort_before_moving_witness :
  Manual.sync_sort fresh_routes album
  = (Return (),
     mkWorld (tree album) (cwd album) (stdin album)
             (log album ++ [Print_nothing_to_sync])).
Proof.
  refine (proj1 (sync_sort_before_moving album fresh_routes _ _) _).
  - compute_done.
  - compute_done.
  - intros c rules Hc.
    assert (∀ path,
      Fs.is_dir album (PurePath.of_string path) = false →
      ∀ p, ¬ file_below album (PurePath.of_string path) p) as Hno.
    { intros path Hpath p Hp. apply file_below_is_dir in Hp.
      - congruence.
      - compute_done. }
    apply elem_of_cons in Hc as [Hc|Hc].
    { injection Hc as -> ->. exists "/sorted/docs". split; [reflexivity|].
      apply Hno. reflexivity. }
    apply elem_of_cons in Hc as [Hc|Hc]; [|by apply elem_of_nil in Hc].
    injection Hc as -> ->. exists "/sorted/misc". split; [reflexivity|].
    apply Hno. reflexivity.
Defined.

Section preparation.
Implicit Types (w : world) (p top : Path).

(** Folders that exist are left as they are. *)
Lemma create_existing custom_target (routing : dict rule) w :
  wf_tree (tree w) →
  (∀ c, c ∈ routing.*1 → Fs.is_dir w (custom_target /: c) = true) →
  for_each routing
    (λ '(category_name, _) _, Os.mkdir (custom_target /: category_name))
    () w = (Return (), w).
Proof.
  intros Hwf. induction routing as [|[c rules] routing IH]; intros Hdirs.
  { done. }
  erewrite for_each_cons.
  - apply IH. intros c' Hc'. apply Hdirs. by right.
  - cbv beta iota. apply mkdir_existing; [done|]. apply Hdirs. by left.
Qed.

(** The proper ancestors of a path are its [parents]. *)
Lemma parents_elem (n : nat) :
  ∀ p (kr : list string),
    length (parts p) ≤ n → kr `prefix_of` parts p → kr ≠ parts p →
    mkPath (is_absolute p) kr ∈ PurePath.ancestors n p.
Proof.
  induction n as [|n IH]; intros p kr Hlen Hp Hne.
  { destruct (parts p); [|simpl in Hlen; lia].
    by apply prefix_nil_inv in Hp. }
  destruct (parts p) as [|x l _] eqn:Hparts using rev_ind.
  { by apply prefix_nil_inv in Hp. }
  cbn [PurePath.ancestors].
  assert (PurePath.parent p = mkPath (is_absolute p) l) as Hparent.
  { unfold PurePath.parent. by rewrite Hparts, removelast_last. }
  apply prefix_snoc_inv in Hp; [|done].
  destruct (decide (kr = l)) as [->|Hkl].
  { rewrite Hparent. by left. }
  right. rewrite Hparent.
  apply (IH (mkPath (is_absolute p) l) kr); simpl; [|done|done].
  rewrite length_app in Hlen. simpl in Hlen. lia.
Qed.
End preparation.

(** X13. The preparation of a custom target can be repeated: once the
    category folders have been created, creating them again succeeds and
    changes nothing. The preparation only adds directories: the tree it
    leaves holds the tree it found, and no regular file that was not
    there. *)
Theorem create_category_folders_idempotent (w : world) (custom_target : Path)
    (config : config) (w' : world) :
  wf_tree (tree w) →
  Manual.create_category_folders custom_target config w = (Return (), w') →
  Manual.create_category_folders custom_target config w' = (Return (), w')
  ∧ tree w ⊆ tree w'
  ∧ (∀ k st, tree w' !! k = Some (File st) → tree w !! k = Some (File st))
  ∧ log w' = log w.
Proof.
  intros Hwf Hrun. unfold Manual.create_category_folders in *.
  destruct (create_category_folders_spec _ _ _ _ _ Hrun)
    as (_ & _ & Hl & Hsub & Hwf' & Hnew & Hdirs & _).
  split_and!; [|done| |done].
  - apply create_existing; [by apply Hwf'|by apply Hdirs].
  - intros k st Hk. by destruct (Hnew _ _ Hk) as [?|[? _]].
Qed.

Lemma create_category_folders_idempotent_witness :
  Manual.create_category_folders (PurePath.of_string "/out") docs_only
    (Manual.create_category_folders (PurePath.of_string "/out") docs_only
                                    empty_folder).2
  = (Return (),
     (Manual.create_category_folders (PurePath.of_string "/out") docs_only
                                     empty_folder).2).
Proof.
  refine (proj1 (create_category_folders_idempotent empty_folder
                   (PurePath.of_string "/out") docs_only _ _ _)).
  - compute_done.
  - apply pair_eta_l. reflexivity.
Defined.

(** X14. The walk of the revert skips the directory it starts from when
    that directory is the destination or lies inside it: no file is moved,
    the count is returned as it was and the world is untouched, whatever
    the directory holds. *)
Theorem revert_files_skips_inside_destination (w : world)
    (target_dir folders_cat revert_target : Path) (moved : nat) :
  Fs.key w revert_target `prefix_of` Fs.key w target_dir →
  Manual.revert_files target_dir folders_cat revert_target moved w
  = (Return moved, w).
Proof.
  intros Hp. unfold Manual.revert_files, Manual.depth_bound.
  unfold bind at 1, mbind at 1, prog_bind at 1, reads at 1.
  cbn [Manual.os_walk].
  unfold bind at 1, mbind at 1, prog_bind at 1, reads at 1.
  destruct (Fs.scandir w target_dir) as [es|]; [|done].
  unfold Os.path_resolve.
  unfold bind at 1, mbind at 1, prog_bind at 1.
  unfold bind at 1, mbind at 1, prog_bind at 1, reads at 1.
  unfold bind at 1, mbind at 1, prog_bind at 1, reads at 1.
  assert (bool_decide (Fs.resolve w target_dir = Fs.resolve w revert_target)
          || bool_decide (Fs.resolve w revert_target
                          ∈ PurePath.parents (Fs.resolve w target_dir))
          = true) as ->; [|done].
  unfold Fs.resolve.
  destruct (decide (Fs.key w revert_target = Fs.key w target_dir))
    as [->|Hne].
  { by rewrite bool_decide_true. }
  apply orb_true_iff. right. apply bool_decide_eq_true.
  unfold PurePath.parents.
  apply (parents_elem _ (mkPath true (Fs.key w target_dir))); done.
Qed.

Lemma revert_files_skips_inside_destination_witness :
  Manual.revert_files (PurePath.of_string "/d/c")
    (PurePath.of_string "/d/c/Folders") (PurePath.of_string "/d") 0 hollow
  = (Return 0, hollow).
Proof.
  apply (revert_files_skips_inside_destination hollow
           (PurePath.of_string "/d/c") (PurePath.of_string "/d/c/Folders")
           (PurePath.of_string "/d") 0).
  by exists ["c"].
Defined.

(** X15. Categories that are appended to a routing never take a file away
    from the categories before them: the category of a file under the longer
    routing is the one it had, unless that was [Others], in which case it is
    whatever the appended categories alone give. The result is [Others] or
    a category of the routing that is not reserved, so that no file is ever
    classified as [Folders]. *)
Theorem match_category_appended (md : Metadata) (l1 l2 : dict rule) :
  match_category md (l1 ++ l2)
  = (if decide (match_category md l1 = "Others") then match_category md l2
     else match_category md l1)
  ∧ (match_category md l1 = "Others"
     ∨ (match_category md l1 ∈ l1.*1 ∧ match_category md l1 ≠ "Folders")).
Proof.
  split.
  - induction l1 as [|[c r] l1 IH]; [done|].
    cbn [app match_category].
    case_bool_decide as Hres; [done|].
    destruct (_rule_matches md r); simpl; [|done].
    rewrite decide_False; [done|].
    intros ->. apply Hres. by left.
  - induction l1 as [|[c r] l1 IH]; [by left|].
    cbn [match_category].
    case_bool_decide as Hres.
    { destruct IH as [?|[? ?]]; [by left|right]. split; [by right|done]. }
    destruct (_rule_matches md r); simpl.
    + right. split; [by left|]. intros ->. apply Hres. right. by left.
    + destruct IH as [?|[? ?]]; [by left|right]. split; [by right|done].
Qed.

(** * No file is lost *)

Section files.
Implicit Types (t : gmap (list string) node) (k ks kd : list string)
  (w : world) (p src dst : Path).

Lemma same_files_refl t : same_files t t.
Proof. exists id. split_and!; simpl; eauto. Qed.

Lemma same_files_trans t1 t2 t3 :
  same_files t1 t2 → same_files t2 t3 → same_files t1 t3.
Proof.
  intros (f & Hf & Hi & Hs) (g & Hg & Hj & Hu). exists (g ∘ f). split_and!.
  - intros k st Hk. simpl. eauto.
  - intros k1 k2 st1 st2 H1 H2 Heq. simpl in Heq.
    eapply Hi; [done..|]. eapply Hj; eauto.
  - intros k' st Hk. destruct (Hu _ _ Hk) as (k2 & <- & H2).
    destruct (Hs _ _ H2) as (k1 & <- & H1). eauto.
Qed.







Lemma keeps_refl w : sound w → keeps w w.
Proof. intros. split_and!; try done. apply same_files_refl. Qed.

Lemma keeps_trans w1 w2 w3 : keeps w1 w2 → keeps w2 w3 → keeps w1 w3.
Proof.
  intros (_ & Hc & Hf) (Hsd & Hc' & Hf').
  split_and!; [done|congruence|by eapply same_files_trans].
Qed.







End files.

(** * Whole runs *)

Section runs.
Implicit Types (w : world) (p src dst filepath entry f : Path)
  (t : gmap (list string) node).













End runs.

(** * The loops of [manual.py] *)

Section loops.
Implicit Types (w : world) (p src dst filepath entry f : Path)
  (t : gmap (list string) node).






(** A loop whose body never aborts and keeps the files. *)
Lemma for_each_returns {A S} (P : A → Prop) (body : A → S → prog S) :
  (∀ x s w r w', P x → sound w → body x s w = (r, w') →
     keeps w w' ∧ ∃ s', r = Return s') →
  ∀ l, Forall P l → ∀ s w, sound w →
    ∃ s' w', for_each l body s w = (Return s', w') ∧ keeps w w'.
Proof.
  intros Hbody l. induction 1 as [|x l Hx Hl IH]; intros s w Hsd.
  - exists s, w. split; [done|by apply keeps_refl].
  - destruct (body x s w) as [r w1] eqn:Eb.
    destruct (Hbody _ _ _ _ _ Hx Hsd Eb) as [Hk (s1 & ->)].
    destruct (IH s1 w1 (proj1 Hk)) as (s' & w' & Hrun & Hk').
    exists s', w'. split; [|by eapply keeps_trans].
    erewrite for_each_cons; [exact Hrun|exact Eb].
Qed.











End loops.

(** * The commands of [manual.py] *)

Section commands.
Implicit Types (w : world) (p src dst filepath entry f : Path)
  (t : gmap (list string) node).








End commands.











